(** * NewsRAG: duplicate clustering, topic annotation and highlight ranking

    A shallow embedding of the batch stages of the pipeline
    ([SRC/pipeline/highlight_news.py], [zero_shot_topic_clustering.py],
    [semantic_topic_grouping.py], [duplicate_detection.py] and
    [SRC/utils/fetch_articles.py]).

    Conventions of the embedding:
    - a MongoDB collection is the list of its documents in natural order;
      [find] keeps that order, [update_one] rewrites the first match,
      [update_many] every match;
    - a document field that may be absent is an [option];
    - Python exceptions are the [Raise] branch of [result];
    - float64 values are idealised as rationals ([Q]); the only irrational
      operation of the pipeline, the square root inside the row norms of
      [cosine_similarity], is rounded down on a fixed binary grid.  The
      similarity matrix of the model therefore agrees with the float64 one
      only up to rounding, and the statements below are about the computed
      matrix: none of them decides a comparison of a similarity with a
      threshold it is within rounding distance of;
    - [np.argsort] is called with its default kind, which promises ascending
      values and no order among equal ones: [is_argsort] is that contract,
      and [argsort] one result that meets it.  What is stated about the order
      of equally scored articles is stated for every result that meets the
      contract;
    - the labels of a clustering number the clusters; which number a cluster
      gets is a choice of the model, the grouping is not;
    - Python strings are modelled as ASCII strings, [str.lower] maps
      [A-Z] to [a-z]. *)

From Stdlib Require Import List ZArith QArith Qround String Ascii Bool Arith Lia Lqa.
From Stdlib Require Import Permutation Sorted FinFun.
Import ListNotations.

Local Open Scope string_scope.
Local Open Scope Z_scope.

(** ** Exceptions and results *)

Inductive error : Type :=
| KeyError        (* doc["embedding"] on a document without the field *)
| ValueError      (* numpy / scikit-learn input validation *)
| IndexError      (* result["labels"][0] on an empty ranking *)
| ClassifierError (* the zero-shot classifier call itself raised *).

Inductive result (A : Type) : Type :=
| Ok (a : A)
| Raise (e : error).

Arguments Ok {A} a.
Arguments Raise {A} e.

Definition bind {A B : Type} (r : result A) (k : A -> result B) : result B :=
  match r with
  | Ok a => k a
  | Raise e => Raise e
  end.

Notation "x <- r ;; k" := (bind r (fun x => k))
  (at level 61, r at next level, right associativity).

Definition is_ok {A : Type} (r : result A) : bool :=
  match r with Ok _ => true | Raise _ => false end.

(** ** Documents of the [articles] collection *)

Record article : Type := mkArticle {
  _id : string;
  title : option string;
  text : option string;
  embedding : option (list Q);
  predicted_topic : option string;
  (* [None]: field absent; [Some None]: stored null; [Some (Some c)]: cluster c *)
  topic_cluster_id : option (option Z);
  duplicate_cluster_id : option Z;
  is_featured : option bool;
  featured_at : option string
}.

Definition collection : Type := list article.

Definition set_predicted_topic (topic : string) (a : article) : article :=
  mkArticle (_id a) (title a) (text a) (embedding a) (Some topic)
            (topic_cluster_id a) (duplicate_cluster_id a)
            (is_featured a) (featured_at a).

Definition set_topic_cluster_id (c : option Z) (a : article) : article :=
  mkArticle (_id a) (title a) (text a) (embedding a) (predicted_topic a)
            (Some c) (duplicate_cluster_id a)
            (is_featured a) (featured_at a).

Definition set_duplicate_cluster_id (c : Z) (a : article) : article :=
  mkArticle (_id a) (title a) (text a) (embedding a) (predicted_topic a)
            (topic_cluster_id a) (Some c)
            (is_featured a) (featured_at a).

Definition set_not_featured (a : article) : article :=
  mkArticle (_id a) (title a) (text a) (embedding a) (predicted_topic a)
            (topic_cluster_id a) (duplicate_cluster_id a)
            (Some false) (featured_at a).

Definition set_featured (now_str : string) (a : article) : article :=
  mkArticle (_id a) (title a) (text a) (embedding a) (predicted_topic a)
            (topic_cluster_id a) (duplicate_cluster_id a)
            (Some true) (Some now_str).

(** ** The store interface: [find], [update_one], [update_many] *)

Definition find (q : article -> bool) (c : collection) : list article :=
  filter q c.

Definition update_many (q : article -> bool) (upd : article -> article)
    (c : collection) : collection :=
  map (fun a => if q a then upd a else a) c.

Fixpoint update_one (doc_id : string) (upd : article -> article)
    (c : collection) : collection :=
  match c with
  | [] => []
  | a :: rest =>
      if String.eqb (_id a) doc_id then upd a :: rest
      else a :: update_one doc_id upd rest
  end.

Definition find_one (doc_id : string) (c : collection) : option article :=
  List.find (fun a => String.eqb (_id a) doc_id) c.

Definition has_embedding (a : article) : bool :=
  match embedding a with Some _ => true | None => false end.

Definition in_category (category : string) (a : article) : bool :=
  match predicted_topic a with
  | Some t => String.eqb t category
  | None => false
  end.

(** [fetch_articles_with_embeddings]: [find({"embedding": {"$exists": True}})]. *)
Definition fetch_articles_with_embeddings (db : collection) : list article :=
  find has_embedding db.

(** ** Strings: [str.lower] and the [in] operator *)

Definition lower_ascii (c : ascii) : ascii :=
  let n := nat_of_ascii c in
  if (65 <=? n)%nat && (n <=? 90)%nat then ascii_of_nat (n + 32) else c.

Fixpoint lower (s : string) : string :=
  match s with
  | EmptyString => EmptyString
  | String c s' => String (lower_ascii c) (lower s')
  end.

(** [contains kw s] is Python's [kw in s]. *)
Fixpoint contains (kw s : string) : bool :=
  if prefix kw s then true
  else match s with
       | EmptyString => false
       | String _ s' => contains kw s'
       end.

Definition get_or_empty (o : option string) : string :=
  match o with Some s => s | None => "" end.

(** ** Highlight keywords *)

Definition HIGHLIGHT_KEYWORDS : list string :=
  ["breaking news"; "exclusive"; "just in"; "confirmed"; "revealed"].

Definition is_highlight_keyword_present (text : string) : bool :=
  existsb (fun kw => contains kw (lower text)) HIGHLIGHT_KEYWORDS.

Definition has_keywords (a : article) : bool :=
  is_highlight_keyword_present
    (get_or_empty (title a) ++ get_or_empty (text a)).

Definition keyword_boost (a : article) : Z :=
  if has_keywords a then 5 else 0.

(** ** numpy and scikit-learn primitives used by the ranker *)

Local Open Scope Q_scope.

(** [np.array(rows)]: a rectangular 2-D array, [ValueError] on ragged rows. *)
Definition np_array (rows : list (list Q)) : result (list (list Q)) :=
  match rows with
  | [] => Ok []
  | r :: rest =>
      if forallb (fun r' => Nat.eqb (List.length r') (List.length r)) rest
      then Ok rows else Raise ValueError
  end.

Definition dot (u v : list Q) : Q :=
  fold_right Qplus 0 (map (fun p => fst p * snd p) (combine u v)).

(** Square root rounded down to a multiple of [2^-52]: an approximation of
    the float64 square root, exact on squares of multiples of [2^-52]. *)
Definition Qsqrt (q : Q) : Q :=
  Qred (Z.sqrt (Qfloor (q * inject_Z (2 ^ 104))) # 2 ^ 52).

(** [sklearn.preprocessing.normalize]: rows are divided by their Euclidean
    norm, a zero norm being replaced by one. *)
Definition normalize_row (u : list Q) : list Q :=
  let n := Qsqrt (dot u u) in
  let n' := if Qeq_bool n 0 then 1 else n in
  map (fun x => Qred (x / n')) u.

(** [sklearn.metrics.pairwise.cosine_similarity(X)]: input validation
    (a 2-D array with at least one sample and one feature), then the Gram
    matrix of the normalised rows. *)
Definition cosine_similarity (X : list (list Q)) : result (list (list Q)) :=
  match X with
  | [] => Raise ValueError
  | r :: _ =>
      if Nat.eqb (List.length r) 0 then Raise ValueError
      else
        let Xn := map normalize_row X in
        Ok (map (fun u => map (fun v => Qred (dot u v)) Xn) Xn)
  end.

(** [s > threshold]. *)
Definition above (threshold : Q) (s : Q) : bool := negb (Qle_bool s threshold).

(** [(row > threshold).sum()] for one row of the similarity matrix. *)
Definition count_above (threshold : Q) (row : list Q) : Z :=
  Z.of_nat (List.length (filter (above threshold) row)).

Local Close Scope Q_scope.

(** [np.argsort]: indices that sort [v] ascending.  The default kind leaves
    the order of equal values open.  This function is one admissible result,
    the one of an insertion sort that moves index [k] left past the strictly
    greater values only; [is_argsort] below is what every result satisfies. *)
Fixpoint insert_index (v : list Z) (i : nat) (sorted : list nat) : list nat :=
  match sorted with
  | [] => [i]
  | j :: rest =>
      if nth i v 0 <? nth j v 0 then i :: j :: rest
      else j :: insert_index v i rest
  end.

Fixpoint argsort_prefix (v : list Z) (k : nat) : list nat :=
  match k with
  | O => []
  | S k' => insert_index v k' (argsort_prefix v k')
  end.

Definition argsort (v : list Z) : list nat := argsort_prefix v (List.length v).

(** Python's [l[-top_k:]]: the start index [-top_k] counts from the end when
    negative and from the front otherwise, clamped to the list. *)
Definition slice_last {A : Type} (top_k : Z) (l : list A) : list A :=
  let n := Z.of_nat (List.length l) in
  let start := if 0 <? top_k then Z.max (n - top_k) 0 else Z.min (- top_k) n in
  skipn (Z.to_nat start) l.

(** ** The highlight ranker *)

(** [[article["embedding"] for article in articles]]: [KeyError] at the first
    document without the field. *)
Fixpoint embeddings_of (articles : list article) : result (list (list Q)) :=
  match articles with
  | [] => Ok []
  | a :: rest =>
      match embedding a with
      | None => Raise KeyError
      | Some e => es <- embeddings_of rest ;; Ok (e :: es)
      end
  end.

(** Steps 3 and 4 of [get_highlights]: frequency count per row plus the
    keyword boost of the article at the same position. *)
Definition composite_scores (articles : list article)
    (sim_matrix : list (list Q)) (similarity_threshold : Q) : list Z :=
  map (fun p => count_above similarity_threshold (snd p) + keyword_boost (fst p))
      (combine articles sim_matrix).

(** Step 2 of [get_highlights]: the similarity matrix of the batch. *)
Definition similarity_matrix (articles : list article)
    : result (list (list Q)) :=
  es <- embeddings_of articles ;;
  embeddings <- np_array es ;;
  cosine_similarity embeddings.

Definition get_scores (articles : list article) (similarity_threshold : Q)
    : result (list Z) :=
  sim_matrix <- similarity_matrix articles ;;
  Ok (composite_scores articles sim_matrix similarity_threshold).

(** The frequency term as the specification words it: the entries of row [i]
    above the threshold, the entry of the article itself (column [i]) left
    out. *)
Definition count_above_others (threshold : Q) (i : nat) (row : list Q) : Z :=
  Z.of_nat
    (List.length
       (filter (fun p => negb (Nat.eqb (fst p) i) && above threshold (snd p))
               (combine (seq 0 (List.length row)) row))).

Definition top_indices (freq_scores : list Z) (top_k : Z) : list nat :=
  rev (slice_last top_k (argsort freq_scores)).

Definition get_highlights (db : collection) (category : string) (top_k : Z)
    (similarity_threshold : Q) : result (list article) :=
  let articles := find (in_category category) db in
  match articles with
  | [] => Ok []
  | a0 :: _ =>
      freq_scores <- get_scores articles similarity_threshold ;;
      Ok (map (fun i => nth i articles a0) (top_indices freq_scores top_k))
  end.

Definition default_similarity_threshold : Q := (9 # 10)%Q.

Definition mark_featured (now_str : string) (ids : list string)
    (c : collection) : collection :=
  fold_left (fun c' doc_id => update_one doc_id (set_featured now_str) c') ids c.

(** [update_featured_highlights]: the store after the call, and whether the
    call returned or raised. *)
Definition update_featured_highlights (db : collection) (category : string)
    (top_k : Z) (now_str : string) : collection * result unit :=
  let db1 := update_many (in_category category) set_not_featured db in
  match get_highlights db1 category top_k default_similarity_threshold with
  | Raise e => (db1, Raise e)
  | Ok highlights =>
      (mark_featured now_str (map _id highlights) db1, Ok tt)
  end.

(** ** Topic labeling (zero-shot) *)

Definition TOPIC_LABELS : list string :=
  ["sports"; "finance"; "lifestyle"; "music"; "technology"; "politics";
   "health"; "education"].

(** The zero-shot classifier is a collaborator: given a text and the candidate
    labels it returns the labels ranked by confidence, or raises. *)
Definition zero_shot_classifier : Type :=
  string -> list string -> result (list string).

Definition classify_article (classifier : zero_shot_classifier)
    (article_text : string) : result string :=
  labels <- classifier article_text TOPIC_LABELS ;;
  match labels with
  | [] => Raise IndexError
  | best :: _ => Ok best
  end.

Definition update_article_topic (db : collection) (article_id : string)
    (topic : string) : collection :=
  update_one article_id (set_predicted_topic topic) db.

Definition newline : string := String (ascii_of_nat 10) EmptyString.

(** [f"{title}\n{text}"[:2048]]. *)
Definition classifier_input (a : article) : string :=
  substring 0 2048 (get_or_empty (title a) ++ newline ++ get_or_empty (text a)).

(** The [for article in articles] loop: an exception leaves the loop at once,
    with the store as the earlier iterations left it. *)
Fixpoint classify_loop (classifier : zero_shot_classifier)
    (articles : list article) (db : collection) : collection * result unit :=
  match articles with
  | [] => (db, Ok tt)
  | a :: rest =>
      match classify_article classifier (classifier_input a) with
      | Raise e => (db, Raise e)
      | Ok predicted_topic =>
          classify_loop classifier rest
            (update_article_topic db (_id a) predicted_topic)
      end
  end.

Definition zeroshot_topic_clustering (classifier : zero_shot_classifier)
    (db : collection) : collection * result unit :=
  classify_loop classifier (fetch_articles_with_embeddings db) db.

(** ** Topic clusters: persisting HDBSCAN labels *)

(** [int(label) if label != -1 else None]. *)
Definition topic_cluster_of_label (label : Z) : option Z :=
  if label =? -1 then None else Some label.

Definition update_articles_with_topic_clusters (db : collection)
    (articles : list article) (labels : list Z) : collection :=
  fold_left
    (fun c p => update_one (_id (fst p))
                  (set_topic_cluster_id (topic_cluster_of_label (snd p))) c)
    (combine articles labels) db.

(** ** Duplicate clustering *)

Local Open Scope Q_scope.

Definition cluster : Type := list nat.

Definition sumQ (l : list Q) : Q := fold_right Qplus 0 l.

Definition matrix_entry (M : list (list Q)) (i j : nat) : Q :=
  nth j (nth i M []) 0.

(** scikit-learn hands the strict upper triangle of a precomputed matrix to
    the linkage routine, so the pair [(i, j)] is read at [(min, max)]. *)
Definition condensed (M : list (list Q)) (i j : nat) : Q :=
  if (i <? j)%nat then matrix_entry M i j else matrix_entry M j i.

(** Average linkage: the mean of the pairwise distances between two clusters. *)
Definition average_linkage (d : nat -> nat -> Q) (A B : cluster) : Q :=
  sumQ (flat_map (fun a => map (d a) B) A)
  / inject_Z (Z.of_nat (List.length A * List.length B)).

Definition linkage_of (d : nat -> nat -> Q) (p : cluster * cluster) : Q :=
  average_linkage d (fst p) (snd p).

Fixpoint all_pairs (cs : list cluster) : list (cluster * cluster) :=
  match cs with
  | [] => []
  | A :: rest => (map (pair A) rest ++ all_pairs rest)%list
  end.

(** The pair of least linkage distance, the first one in scan order among
    equals. *)
Fixpoint closest_pair (d : nat -> nat -> Q) (ps : list (cluster * cluster))
    : option (cluster * cluster) :=
  match ps with
  | [] => None
  | p :: rest =>
      match closest_pair d rest with
      | None => Some p
      | Some q => if Qle_bool (linkage_of d p) (linkage_of d q)
                  then Some p else Some q
      end
  end.

Definition cluster_eqb (X Y : cluster) : bool :=
  if list_eq_dec Nat.eq_dec X Y then true else false.

Definition merge (A B : cluster) (cs : list cluster) : list cluster :=
  (A ++ B)%list :: filter (fun X => negb (cluster_eqb X A) && negb (cluster_eqb X B)) cs.

(** One agglomeration step: the closest pair is merged when its linkage
    distance is below the threshold ("the linkage distance threshold at or
    above which clusters will not be merged"). *)
Definition agglomerate_step (d : nat -> nat -> Q) (distance_threshold : Q)
    (cs : list cluster) : option (list cluster) :=
  match closest_pair d (all_pairs cs) with
  | None => None
  | Some p =>
      if Qle_bool distance_threshold (linkage_of d p) then None
      else Some (merge (fst p) (snd p) cs)
  end.

Fixpoint agglomerate (d : nat -> nat -> Q) (distance_threshold : Q)
    (fuel : nat) (cs : list cluster) : list cluster :=
  match fuel with
  | O => cs
  | S fuel' =>
      match agglomerate_step d distance_threshold cs with
      | None => cs
      | Some cs' => agglomerate d distance_threshold fuel' cs'
      end
  end.

Definition singletons (n : nat) : list cluster :=
  map (fun i => [i]) (seq 0 n).

Fixpoint cluster_index (i : nat) (cs : list cluster) : nat :=
  match cs with
  | [] => O
  | X :: rest => if existsb (Nat.eqb i) X then O else S (cluster_index i rest)
  end.

(** The label of a position is the index of its cluster in the final list of
    clusters.  scikit-learn numbers the same clusters in an order of its own;
    only statements that do not depend on the numbering are made. *)
Definition labels_of (n : nat) (cs : list cluster) : list Z :=
  map (fun i => Z.of_nat (cluster_index i cs)) (seq 0 n).

(** [AgglomerativeClustering(n_clusters=None, metric="precomputed",
    linkage="average", distance_threshold=t).fit_predict(D)].  [fit]
    validates its input with [ensure_min_samples=2], and a precomputed
    matrix must be square.  At most [n - 1] merges can happen, so [n] units
    of fuel run the agglomeration to its end. *)
Definition fit_predict (distance_matrix : list (list Q))
    (distance_threshold : Q) : result (list Z) :=
  let n := List.length distance_matrix in
  if (n <? 2)%nat then Raise ValueError
  else if negb (forallb (fun row => Nat.eqb (List.length row) n) distance_matrix)
  then Raise ValueError
  else Ok (labels_of n
             (agglomerate (condensed distance_matrix) distance_threshold n
                (singletons n))).

(** [distance_matrix = 1 - sim_matrix]. *)
Definition distance_matrix_of (sim_matrix : list (list Q)) : list (list Q) :=
  map (map (fun s => (1 - s)%Q)) sim_matrix.

Definition perform_duplicate_clustering (articles : list article)
    (threshold : Q) : result (list Z) :=
  sim_matrix <- similarity_matrix articles ;;
  let distance_matrix := distance_matrix_of sim_matrix in
  fit_predict distance_matrix (1 - threshold).

Definition update_articles_with_clusters (db : collection)
    (articles : list article) (labels : list Z) : collection :=
  fold_left
    (fun c p => update_one (_id (fst p)) (set_duplicate_cluster_id (snd p)) c)
    (combine articles labels) db.

(** [run_duplicate_detection]: only the empty batch is guarded. *)
Definition run_duplicate_detection (db : collection)
    : collection * result unit :=
  let articles := fetch_articles_with_embeddings db in
  match articles with
  | [] => (db, Ok tt)
  | _ :: _ =>
      match perform_duplicate_clustering articles (85 # 100) with
      | Raise e => (db, Raise e)
      | Ok labels => (update_articles_with_clusters db articles labels, Ok tt)
      end
  end.

Local Close Scope Q_scope.

(** ** Reordering a batch *)

(** [perm] lists, for each position of the reordered batch, the position the
    article had in the original one. *)
Definition apply_perm (perm : list nat) (i : nat) : nat := nth i perm i.

Definition permute {A : Type} (perm : list nat) (l : list A) : list A :=
  match l with
  | [] => []
  | x :: _ => map (fun i => nth i l x) perm
  end.

Definition is_permutation (perm : list nat) (n : nat) : bool :=
  Nat.eqb (List.length perm) n &&
  forallb (fun i => existsb (Nat.eqb i) perm) (seq 0 n).

(** Two positions carry the same label. *)
Definition same_label (labels : list Z) (i j : nat) : Prop :=
  nth i labels 0%Z = nth j labels 0%Z.

(** The closest pair of clusters is the only pair at its distance. *)
Definition unique_closest (d : nat -> nat -> Q) (cs : list cluster) : bool :=
  match closest_pair d (all_pairs cs) with
  | None => true
  | Some p =>
      Nat.eqb
        (List.length
           (filter (fun q => Qeq_bool (linkage_of d q) (linkage_of d p))
                   (all_pairs cs)))
        1
  end.

(** No merge of the run had to choose between equally close pairs. *)
Fixpoint tie_free (d : nat -> nat -> Q) (distance_threshold : Q)
    (fuel : nat) (cs : list cluster) : bool :=
  match fuel with
  | O => true
  | S fuel' =>
      match agglomerate_step d distance_threshold cs with
      | None => true
      | Some cs' =>
          unique_closest d cs && tie_free d distance_threshold fuel' cs'
      end
  end.

Definition tie_free_clustering (articles : list article) (threshold : Q)
    : bool :=
  match similarity_matrix articles with
  | Raise _ => true
  | Ok sim_matrix =>
      tie_free (condensed (distance_matrix_of sim_matrix)) (1 - threshold)%Q
        (List.length sim_matrix) (singletons (List.length sim_matrix))
  end.

(** ** Sample documents *)

Definition doc (i : string) (ttl txt : string) (e : list Q) (topic : string)
    : article :=
  mkArticle i (Some ttl) (Some txt) (Some e) (Some topic) None None None None.

Definition embedded (i : string) (e : list Q) : article :=
  mkArticle i None None (Some e) None None None None None.

(** The fixture of [tests/test_duplicate_detection.py]. *)
Definition DUMMY_ARTICLES : list article :=
  [embedded "a1" [1#10; 1#10; 1#10]%Q;
   embedded "a2" [1#10; 1#10; 1#10]%Q;
   embedded "a3" [9#10; 0; 0]%Q;
   embedded "a4" [9#10; 0; 0]%Q;
   embedded "a5" [2#10; 2#10; 2#10]%Q].

(** Three articles on a line: the middle one is equally close to both ends. *)
Definition tied_articles : list article :=
  [embedded "a" [12; 5]%Q; embedded "b" [1; 0]%Q; embedded "c" [12; -5]%Q].

(** Three articles at pairwise different distances. *)
Definition spread_articles : list article :=
  [embedded "x1" [1; 0]%Q; embedded "x2" [12; 5]%Q; embedded "x3" [3; 4]%Q].

(** ** Predicates of the statements *)

Definition result_map {A B : Type} (f : A -> B) (r : result A) : result B :=
  match r with
  | Ok a => Ok (f a)
  | Raise e => Raise e
  end.

Definition mem (i : string) (ids : list string) : bool :=
  existsb (String.eqb i) ids.

(** The ids [get_highlights] selects (none when it raises). *)
Definition highlight_ids (db : collection) (category : string) (top_k : Z)
    : list string :=
  match get_highlights db category top_k default_similarity_threshold with
  | Ok highlights => map _id highlights
  | Raise _ => []
  end.

(** A document update that touches no field the ranker reads. *)
Definition preserves_content (g : article -> article) : Prop :=
  forall a, _id (g a) = _id a /\ title (g a) = title a /\ text (g a) = text a /\
            embedding (g a) = embedding a /\
            predicted_topic (g a) = predicted_topic a.

Definition is_featured_true (a : article) : bool :=
  match is_featured a with Some true => true | _ => false end.

Definition featured_ids (category : string) (c : collection) : list string :=
  map _id (filter (fun a => in_category category a && is_featured_true a) c).

Definition reset_in (category : string) (a : article) : article :=
  if in_category category a then set_not_featured a else a.

Definition mark_in (now_str : string) (ids : list string) (a : article)
    : article :=
  if mem (_id a) ids then set_featured now_str a else a.

Definition score_at (v : list Z) (i : nat) : Z := nth i v 0.

(** Ascending order of [argsort]: by score, equal scores by input position. *)
Definition sorts_before (v : list Z) (i j : nat) : Prop :=
  score_at v i < score_at v j \/ (score_at v i = score_at v j /\ (i < j)%nat).

(** Order of the ranking the model's [argsort] leads to: [i] ranks before [j]
    when its score is higher, or when the scores are equal and [i] comes
    later in the input. *)
Definition ranks_before (v : list Z) (i j : nat) : Prop :=
  score_at v j < score_at v i \/ (score_at v j = score_at v i /\ (j < i)%nat).

(** The full ranking [np.argsort(freq_scores)[::-1]], for the model's
    [argsort]. *)
Definition ranking (v : list Z) : list nat := rev (argsort v).

(** Every article of the batch carries an embedding of dimension [D]. *)
Definition embedded_in_dimension (D : nat) (articles : list article) : Prop :=
  Forall (fun a => exists e, embedding a = Some e /\ List.length e = D) articles.

(** A small store: three sports articles (one with a stale featured flag),
    one finance article. *)
Definition sample_store : collection :=
  [mkArticle "a1" (Some "Cup final") (Some "") (Some [1; 0]%Q) (Some "sports")
             None None (Some true) (Some "2025-01-01 08:00:00");
   doc "a2" "Cup final replay" "" [1; 0]%Q "sports";
   doc "a3" "Transfer confirmed" "" [0; 1]%Q "sports";
   doc "a4" "Rates held" "" [1; 1]%Q "finance"].

(** A classifier that raises on one kind of text and answers "sports"
    otherwise, and a batch whose first article makes it raise. *)
Definition flaky_classifier : zero_shot_classifier :=
  fun article_text labels =>
    if contains "unreadable" (lower article_text) then Raise ClassifierError
    else Ok ("sports" :: labels).

Definition unlabelled (i : string) (ttl : string) (e : list Q) : article :=
  mkArticle i (Some ttl) (Some "") (Some e) None None None None None.

Definition flaky_batch : collection :=
  [unlabelled "a1" "Unreadable scan" [1; 0]%Q;
   unlabelled "a2" "Cup final" [0; 1]%Q].

Definition flaky_store : collection :=
  unlabelled "a0" "Budget vote" [1; 1]%Q :: flaky_batch.

(** A store where a labelled article has no embedding. *)
Definition labelled_without_embedding : collection :=
  [mkArticle "a1" (Some "Cup final") (Some "") None (Some "sports")
             None None None None;
   doc "a2" "Cup final replay" "" [1; 0]%Q "sports"].

(** ** Notions of the proofs about clustering *)

(** The distances between the members of two clusters. *)
Definition cross (d : nat -> nat -> Q) (A B : cluster) : list Q :=
  flat_map (fun a => map (d a) B) A.

(** A state of the agglomeration: disjoint, non-empty clusters. *)
Definition valid_state (cs : list cluster) : Prop :=
  NoDup (List.concat cs) /\ Forall (fun X : cluster => X <> []%list) cs.

(** [X'] (positions of the reordered batch) and [X] (positions of the
    original batch) hold the same articles. *)
Definition corresponds (pi : nat -> nat) (X' X : cluster) : Prop :=
  Permutation (map pi X') X.

(** The states of a run on the reordered batch and of a run on the original
    one hold the same groups of articles. *)
Definition related (pi : nat -> nat) (cs' cs : list cluster) : Prop :=
  valid_state cs' /\ valid_state cs /\
  (forall X', In X' cs' -> exists X, In X cs /\ corresponds pi X' X) /\
  (forall X, In X cs -> exists X', In X' cs' /\ corresponds pi X' X).

(** Two positions lie in one cluster of the state. *)
Definition same_cluster (cs : list cluster) (i j : nat) : Prop :=
  exists X, In X cs /\ In i X /\ In j X.

(** The matrix with entry [f u v] for rows [u], [v] of [X]. *)
Definition gram (f : list Q -> list Q -> Q) (X : list (list Q))
    : list (list Q) :=
  map (fun u => map (fun v => f u v) X) X.

(** The cosine distance of two embeddings, as [perform_duplicate_clustering]
    computes it. *)
Definition distance_entry (u v : list Q) : Q :=
  (1 - Qred (dot (normalize_row u) (normalize_row v)))%Q.

(** ** Highlights for every category *)

(** [run_highlights_for_all_categories]: [update_featured_highlights] with its
    default [top_k = 5] for each category in turn.  [clock] lists the
    readings of [datetime.now()], one per call.  Nothing catches an exception
    of a call, so it ends the loop. *)
Fixpoint run_highlights_for_all_categories (clock : nat -> string)
    (db : collection) (categories : list string) : collection * result unit :=
  match categories with
  | [] => (db, Ok tt)
  | category :: rest =>
      let run := update_featured_highlights db category 5 (clock 0%nat) in
      match snd run with
      | Raise e => (fst run, Raise e)
      | Ok _ =>
          run_highlights_for_all_categories (fun k => clock (S k)) (fst run)
            rest
      end
  end.

(** The [categories] list of [run_highlight]. *)
Definition run_highlight_categories : list string :=
  ["sports"; "finance"; "lifestyle"; "music"; "technology"; "politics";
   "health"; "education"].

Definition run_highlight (clock : nat -> string) (db : collection)
    : collection * result unit :=
  run_highlights_for_all_categories clock db run_highlight_categories.

(** ** Semantic topic grouping *)

(** HDBSCAN is a collaborator: given [min_cluster_size], [min_samples] and
    the sample matrix it returns one label per sample ([-1] for noise), or
    raises. *)
Definition hdbscan_clusterer : Type :=
  nat -> nat -> list (list Q) -> result (list Z).

Definition perform_topic_grouping (clusterer : hdbscan_clusterer)
    (reduced_embeddings : list (list Q)) (min_cluster_size min_samples : nat)
    : result (list Z) :=
  clusterer min_cluster_size min_samples reduced_embeddings.

(** [run_semantic_grouping]: the embeddings go to HDBSCAN as they are (the
    UMAP reduction is commented out), with [min_cluster_size = 2] and
    [min_samples = 1]. *)
Definition run_semantic_grouping (clusterer : hdbscan_clusterer)
    (db : collection) : collection * result unit :=
  let articles := fetch_articles_with_embeddings db in
  match articles with
  | [] => (db, Ok tt)
  | _ :: _ =>
      match (es <- embeddings_of articles ;;
             embeddings <- np_array es ;;
             perform_topic_grouping clusterer embeddings 2 1) with
      | Raise e => (db, Raise e)
      | Ok labels =>
          (update_articles_with_topic_clusters db articles labels, Ok tt)
      end
  end.

(** ** Further notions of the statements *)

(** A substring: [s = pre ++ kw ++ post]. *)
Definition occurs_in (kw s : string) : Prop :=
  exists pre post : string, s = (pre ++ kw ++ post)%string.

(** Every labelled document carries an embedding. *)
Definition labelled_are_embedded (c : collection) : Prop :=
  Forall (fun a => predicted_topic a <> None -> has_embedding a = true) c.

(** The two documents differ at most in [is_featured] and [featured_at]. *)
Definition same_but_featured (a a' : article) : Prop :=
  _id a' = _id a /\ title a' = title a /\ text a' = text a /\
  embedding a' = embedding a /\ predicted_topic a' = predicted_topic a /\
  topic_cluster_id a' = topic_cluster_id a /\
  duplicate_cluster_id a' = duplicate_cluster_id a.

(** The document a labeling run leaves for [a]: embedded articles get the
    classifier's best label, the others stay as they are. *)
Definition relabel (classifier : zero_shot_classifier) (a : article) : article :=
  if has_embedding a then
    match classify_article classifier (classifier_input a) with
    | Ok topic => set_predicted_topic topic a
    | Raise _ => a
    end
  else a.

(** What [np.argsort(v)] returns whatever its kind: every position of [v]
    once, in an order along which the values ascend. *)
Definition is_argsort (v : list Z) (order : list nat) : Prop :=
  Permutation order (seq 0 (List.length v)) /\
  StronglySorted Z.le (map (score_at v) order).

(** [order[-top_k:][::-1]] for an index array [order]. *)
Definition select_top (order : list nat) (top_k : Z) : list nat :=
  rev (slice_last top_k order).

(** [i] is listed before [j]. *)
Definition listed_before (l : list nat) (i j : nat) : Prop :=
  exists l1 l2 l3 : list nat, l = (l1 ++ i :: l2 ++ j :: l3)%list.

(** The exchange of the positions [i] and [j]. *)
Definition transpose (i j k : nat) : nat :=
  if Nat.eqb k i then j else if Nat.eqb k j then i else k.

(** The sample store with one more article, ingested without an embedding
    and so never labelled. *)
Definition store_with_unembedded : collection :=
  mkArticle "u1" (Some "Draft") (Some "") None None None None None None
  :: sample_store.

(** The positions that carry the label [c]. *)
Definition members (labels : list Z) (c : Z) : cluster :=
  filter (fun i => nth i labels 0 =? c) (seq 0 (List.length labels)).

(** The position of an id in a batch. *)
Fixpoint position (i : string) (articles : list article) : option nat :=
  match articles with
  | [] => None
  | a :: rest =>
      if String.eqb (_id a) i then Some 0%nat
      else option_map S (position i rest)
  end.

(** A store with one featured article in each of two categories, and a
    second sports article without an embedding. *)
Definition two_category_store : collection :=
  [mkArticle "s1" (Some "Cup final") (Some "") (Some [1; 0]%Q) (Some "sports")
             None None (Some true) (Some "2025-01-01 08:00:00");
   mkArticle "s2" (Some "Transfer") (Some "") None (Some "sports")
             None None None None;
   mkArticle "f1" (Some "Rates held") (Some "") (Some [1; 1]%Q) (Some "finance")
             None None (Some true) (Some "2025-01-01 08:00:00")].

(** A clusterer that reports every sample as noise. *)
Definition noise_clusterer : hdbscan_clusterer :=
  fun _ _ X => Ok (map (fun _ => -1) X).

(** The loop that writes labels back, as both clustering stages run it: one
    [update_one] per pair of [zip(articles, labels)]. *)
Definition write_back (upd : Z -> article -> article) (db : collection)
    (articles : list article) (labels : list Z) : collection :=
  fold_left (fun c p => update_one (_id (fst p)) (upd (snd p)) c)
            (combine articles labels) db.

(** A classifier that ranks the candidate labels in reverse order. *)
Definition reversing_classifier : zero_shot_classifier :=
  fun _ labels => Ok (rev labels).

(** * Properties *)

Example scores_example :
  get_scores [doc "a1" "Cup final" "" [1; 0]%Q "sports";
              doc "a2" "Cup final replay" "" [1; 0]%Q "sports";
              doc "a3" "Transfer confirmed" "" [0; 1]%Q "sports"] (9#10)%Q
  = Ok [2; 2; 6].
Proof. vm_compute. reflexivity. Qed.

Example top_indices_example : top_indices [2; 2; 6] 5 = [2; 1; 0]%nat.
Proof. reflexivity. Qed.

Example dummy_articles_clusters :
  perform_duplicate_clustering DUMMY_ARTICLES (85 # 100)%Q = Ok [1; 1; 0; 0; 1].
Proof. vm_compute. reflexivity. Qed.

(** ** Strings *)

Lemma prefix_app (k s r : string) :
  prefix k s = true -> prefix k (s ++ r) = true.
Proof.
  revert s; induction k as [|c k IH]; intros s H.
  - destruct (s ++ r); reflexivity.
  - destruct s as [|c' s]; simpl in *; [discriminate|].
    destruct (ascii_dec c c'); [auto | discriminate].
Qed.

Lemma contains_eq (k s : string) :
  contains k s =
  prefix k s || match s with
                | EmptyString => false
                | String _ s' => contains k s'
                end.
Proof.
  destruct s as [|c s]; simpl;
    [destruct (prefix k EmptyString) | destruct (prefix k (String c s))];
    reflexivity.
Qed.

Lemma contains_app (k s r : string) :
  contains k s = true -> contains k (s ++ r) = true.
Proof.
  induction s as [|c s IH]; intros H; rewrite contains_eq in H;
    apply orb_true_iff in H; destruct H as [H|H]; try discriminate;
    rewrite contains_eq; apply orb_true_iff.
  - left. now apply prefix_app.
  - left. now apply prefix_app.
  - right. simpl. auto.
Qed.

Lemma lower_app (s r : string) : lower (s ++ r) = lower s ++ lower r.
Proof. induction s as [|c s IH]; simpl; [reflexivity | now rewrite IH]. Qed.

Lemma keyword_present (kw text : string) :
  In kw HIGHLIGHT_KEYWORDS -> contains kw (lower text) = true ->
  is_highlight_keyword_present text = true.
Proof.
  intros Hin Hc. unfold is_highlight_keyword_present.
  apply existsb_exists. exists kw. split; assumption.
Qed.

(** C3, as stated, fails: a title with the word BREAKING alone gets no boost,
    because the phrase set holds "breaking news", not "breaking". *)
Lemma breaking_alone_not_boosted :
  ~ (forall a t, title a = Some t ->
       contains "breaking" (lower t) = true -> keyword_boost a = 5).
Proof.
  intros H.
  specialize (H (doc "a1" "BREAKING: Fire downtown" "" [1%Q] "sports")
                "BREAKING: Fire downtown" eq_refl eq_refl).
  vm_compute in H. discriminate.
Qed.

(** C3 (amended): an article whose title contains, in any letter case, one of
    the phrases of [HIGHLIGHT_KEYWORDS] ("breaking news", "exclusive",
    "just in", "confirmed", "revealed") gets the keyword boost of 5. *)
Theorem highlight_phrase_in_title_boosted (a : article) (t kw : string) :
  title a = Some t ->
  In kw HIGHLIGHT_KEYWORDS ->
  contains kw (lower t) = true ->
  keyword_boost a = 5.
Proof.
  intros Ht Hin Hc. unfold keyword_boost, has_keywords.
  rewrite (keyword_present kw); [reflexivity | assumption |].
  rewrite Ht. simpl get_or_empty at 1. rewrite lower_app.
  now apply contains_app.
Qed.

Lemma highlight_phrase_in_title_boosted_witness :
  keyword_boost (doc "a1" "BREAKING NEWS: Fire downtown" "" [1%Q] "sports") = 5.
Proof.
  apply (highlight_phrase_in_title_boosted _ "BREAKING NEWS: Fire downtown"
           "breaking news").
  - reflexivity.
  - simpl. auto.
  - reflexivity.
Defined.

(** ** Results *)

Lemma bind_ok {A B : Type} (r : result A) (k : A -> result B) (b : B) :
  bind r k = Ok b -> exists a, r = Ok a /\ k a = Ok b.
Proof. destruct r as [a|e]; simpl; [eauto | discriminate]. Qed.

Ltac inv_bind H :=
  let x := fresh "x" in
  let Hx := fresh "Hx" in
  apply bind_ok in H; destruct H as (x & Hx & H).

(** ** The similarity matrix has one row per article *)

Lemma embeddings_of_length (articles : list article) (es : list (list Q)) :
  embeddings_of articles = Ok es -> List.length es = List.length articles.
Proof.
  revert es; induction articles as [|a rest IH]; intros es H; simpl in H.
  - now inversion H.
  - destruct (embedding a); [|discriminate].
    inv_bind H. inversion H; subst. simpl. f_equal. now apply IH.
Qed.

Lemma np_array_ok (rows X : list (list Q)) : np_array rows = Ok X -> X = rows.
Proof.
  destruct rows as [|r rest]; simpl.
  - now inversion 1.
  - destruct (forallb _ rest); [now inversion 1 | discriminate].
Qed.

Lemma cosine_similarity_length (X M : list (list Q)) :
  cosine_similarity X = Ok M -> List.length M = List.length X.
Proof.
  destruct X as [|r X]; simpl; [discriminate|].
  destruct (Nat.eqb (List.length r) 0); [discriminate|].
  inversion 1. simpl. now rewrite !length_map.
Qed.

Lemma similarity_matrix_length (articles : list article) (sim : list (list Q)) :
  similarity_matrix articles = Ok sim ->
  List.length sim = List.length articles.
Proof.
  unfold similarity_matrix. intros H. inv_bind H. inv_bind H.
  apply cosine_similarity_length in H. apply np_array_ok in Hx0. subst.
  rewrite H. now apply embeddings_of_length.
Qed.

Lemma composite_scores_nth (articles : list article) (sim : list (list Q))
    (thr : Q) (i : nat) (a0 : article) :
  List.length sim = List.length articles ->
  (i < List.length articles)%nat ->
  nth i (composite_scores articles sim thr) 0 =
  count_above thr (nth i sim []) + keyword_boost (nth i articles a0).
Proof.
  intros Hlen Hi. unfold composite_scores.
  rewrite (nth_indep _ 0
             (count_above thr (snd (a0, @nil Q)) + keyword_boost (fst (a0, @nil Q)))).
  - rewrite (map_nth (fun p => count_above thr (snd p) + keyword_boost (fst p))).
    rewrite combine_nth by (symmetry; exact Hlen). reflexivity.
  - rewrite length_map, length_combine. lia.
Qed.

(** ** The frequency term counts the article itself *)

Lemma filter_others_shifted (thr : Q) (i s : nat) (row : list Q) :
  (i < s)%nat ->
  List.length (filter (fun p => negb (Nat.eqb (fst p) i) && above thr (snd p))
                 (combine (seq s (List.length row)) row))
  = List.length (filter (above thr) row).
Proof.
  revert s; induction row as [|x row IH]; intros s Hs; simpl; [reflexivity|].
  destruct (Nat.eqb_spec s i) as [E|_]; [lia|]. simpl.
  destruct (above thr x); simpl; rewrite IH by lia; reflexivity.
Qed.

Lemma filter_self_split (thr : Q) (i s : nat) (row : list Q) :
  (s <= i < s + List.length row)%nat ->
  List.length (filter (above thr) row)
  = (List.length
       (filter (fun p => negb (Nat.eqb (fst p) i) && above thr (snd p))
          (combine (seq s (List.length row)) row))
     + if above thr (nth (i - s) row 0%Q) then 1 else 0)%nat.
Proof.
  revert s; induction row as [|x row IH]; intros s Hs; simpl in *; [lia|].
  destruct (Nat.eqb_spec s i) as [E|NE]; simpl.
  - subst. rewrite Nat.sub_diag. rewrite filter_others_shifted by lia.
    destruct (above thr x); simpl; lia.
  - replace (i - s)%nat with (S (i - S s)) by lia.
    destruct (above thr x); simpl; rewrite (IH (S s)) by lia; lia.
Qed.

Lemma count_above_self (thr : Q) (i : nat) (row : list Q) :
  (i < List.length row)%nat ->
  count_above thr row =
  count_above_others thr i row + (if above thr (nth i row 0%Q) then 1 else 0).
Proof.
  intros Hi. unfold count_above, count_above_others.
  rewrite (filter_self_split thr i 0 row) by lia.
  rewrite Nat.sub_0_r.
  destruct (above thr (nth i row 0%Q)); lia.
Qed.

Lemma cosine_similarity_row_length (X M : list (list Q)) (i : nat) :
  cosine_similarity X = Ok M -> (i < List.length X)%nat ->
  List.length (nth i M []) = List.length X.
Proof.
  destruct X as [|r X]; simpl; [discriminate|].
  destruct (Nat.eqb (List.length r) 0); [discriminate|].
  intros H Hi. inversion H; subst; clear H.
  set (Xn := normalize_row r :: map normalize_row X).
  assert (HXn : List.length Xn = S (List.length X))
    by (unfold Xn; simpl; now rewrite length_map).
  change (List.length
            (nth i (map (fun u => map (fun v => Qred (dot u v)) Xn) Xn) [])
          = S (List.length X)).
  rewrite (nth_indep _ [] ((fun u => map (fun v => Qred (dot u v)) Xn) []))
    by (rewrite length_map; lia).
  rewrite (map_nth (fun u => map (fun v => Qred (dot u v)) Xn)).
  now rewrite length_map.
Qed.

Lemma similarity_matrix_row_length (articles : list article)
    (sim : list (list Q)) (i : nat) :
  similarity_matrix articles = Ok sim -> (i < List.length articles)%nat ->
  List.length (nth i sim []) = List.length articles.
Proof.
  unfold similarity_matrix. intros H Hi. inv_bind H. inv_bind H.
  apply np_array_ok in Hx0. subst x0.
  apply embeddings_of_length in Hx. rewrite <- Hx in *.
  now apply cosine_similarity_row_length.
Qed.

(** ** [argsort] is a stable ascending sort of the positions *)

Lemma insert_index_perm (v : list Z) (i : nat) (l : list nat) :
  Permutation (insert_index v i l) (i :: l).
Proof.
  induction l as [|j l IH]; simpl; [reflexivity|].
  destruct (nth i v 0 <? nth j v 0); [reflexivity|].
  rewrite IH. apply perm_swap.
Qed.

Lemma insert_index_sorted (v : list Z) (i : nat) (l : list nat) :
  StronglySorted (sorts_before v) l ->
  Forall (fun j => (j < i)%nat) l ->
  StronglySorted (sorts_before v) (insert_index v i l).
Proof.
  induction 1 as [|j l Hs IH Hj]; intros Hlt; simpl.
  - repeat constructor.
  - inversion Hlt as [|? ? Hji Hlt']; subst.
    destruct (Z.ltb_spec (nth i v 0) (nth j v 0)) as [Hij|Hij].
    + constructor; [constructor; assumption|].
      constructor; [left; exact Hij|].
      eapply Forall_impl; [|exact Hj].
      intros x [Hx|[Hx _]]; left; unfold score_at in *; lia.
    + constructor; [now apply IH|].
      eapply Permutation_Forall; [symmetry; apply insert_index_perm|].
      constructor; [|exact Hj].
      unfold sorts_before, score_at. lia.
Qed.

Lemma argsort_prefix_perm (v : list Z) (k : nat) :
  Permutation (argsort_prefix v k) (seq 0 k).
Proof.
  induction k as [|k IH]; [reflexivity|]. cbn [argsort_prefix].
  rewrite insert_index_perm, IH.
  rewrite seq_S. simpl. apply Permutation_cons_append.
Qed.

Lemma argsort_prefix_sorted (v : list Z) (k : nat) :
  StronglySorted (sorts_before v) (argsort_prefix v k).
Proof.
  induction k as [|k IH]; simpl; [constructor|].
  apply insert_index_sorted; [exact IH|].
  eapply Permutation_Forall; [symmetry; apply argsort_prefix_perm|].
  apply Forall_forall. intros j Hj. apply in_seq in Hj. lia.
Qed.

Lemma StronglySorted_snoc {A : Type} (R : A -> A -> Prop) (l : list A) (x : A) :
  StronglySorted R l -> Forall (fun y => R y x) l ->
  StronglySorted R (l ++ [x]).
Proof.
  induction 1 as [|a l Hs IH Ha]; intros Hx; simpl.
  - repeat constructor.
  - inversion Hx; subst. constructor; [now apply IH|].
    apply Forall_app. split; [assumption | now repeat constructor].
Qed.

Lemma StronglySorted_rev {A : Type} (R : A -> A -> Prop) (l : list A) :
  StronglySorted R l -> StronglySorted (fun x y => R y x) (rev l).
Proof.
  induction 1 as [|a l Hs IH Ha]; simpl; [constructor|].
  apply StronglySorted_snoc; [exact IH|].
  apply Forall_rev. exact Ha.
Qed.

Lemma ranking_sorted (v : list Z) : StronglySorted (ranks_before v) (ranking v).
Proof.
  unfold ranking, argsort.
  apply (StronglySorted_rev (sorts_before v)). apply argsort_prefix_sorted.
Qed.

Lemma ranking_perm (v : list Z) :
  Permutation (ranking v) (seq 0 (List.length v)).
Proof.
  unfold ranking, argsort. rewrite <- Permutation_rev.
  apply argsort_prefix_perm.
Qed.

Lemma ranking_length (v : list Z) : List.length (ranking v) = List.length v.
Proof.
  rewrite (Permutation_length (ranking_perm v)). apply length_seq.
Qed.

Lemma top_indices_firstn (v : list Z) (top_k : Z) :
  0 < top_k -> top_indices v top_k = firstn (Z.to_nat top_k) (ranking v).
Proof.
  intros Hk. unfold top_indices, slice_last, ranking.
  destruct (Z.ltb_spec 0 top_k) as [_|]; [|lia].
  rewrite firstn_rev. do 2 f_equal. lia.
Qed.

(** C4, as stated, fails: equal scores are not ordered by input position.
    Two sports articles both score 1; the top-1 selection is the second one
    and the top-5 selection lists the second before the first. *)
Lemma ties_select_the_later_article :
  get_scores [doc "a1" "Cup final" "" [1; 0]%Q "sports";
              doc "a2" "Budget vote" "" [0; 1]%Q "sports"] (9 # 10)%Q
    = Ok [1; 1] /\
  get_highlights [doc "a1" "Cup final" "" [1; 0]%Q "sports";
                  doc "a2" "Budget vote" "" [0; 1]%Q "sports"]
                 "sports" 1 (9 # 10)%Q
    = Ok [doc "a2" "Budget vote" "" [0; 1]%Q "sports"] /\
  get_highlights [doc "a1" "Cup final" "" [1; 0]%Q "sports";
                  doc "a2" "Budget vote" "" [0; 1]%Q "sports"]
                 "sports" 5 (9 # 10)%Q
    = Ok [doc "a2" "Budget vote" "" [0; 1]%Q "sports";
          doc "a1" "Cup final" "" [1; 0]%Q "sports"].
Proof. vm_compute. repeat split; reflexivity. Qed.

(** ** The store: updates by id on a collection with unique ids *)

Lemma ids_update_many (q : article -> bool) (upd : article -> article)
    (c : collection) :
  (forall a, _id (upd a) = _id a) ->
  map _id (update_many q upd c) = map _id c.
Proof.
  intros Hupd. unfold update_many. rewrite map_map. apply map_ext.
  intros a. destruct (q a); [apply Hupd | reflexivity].
Qed.

Lemma update_one_absent (i : string) (upd : article -> article) (c : collection) :
  ~ In i (map _id c) -> update_one i upd c = c.
Proof.
  induction c as [|a c IH]; simpl; intros Hni; [reflexivity|].
  destruct (String.eqb_spec (_id a) i) as [E|NE].
  - exfalso. apply Hni. now left.
  - f_equal. apply IH. intros Hin. apply Hni. now right.
Qed.

Lemma update_one_map (i : string) (upd : article -> article) (c : collection) :
  NoDup (map _id c) ->
  update_one i upd c
  = map (fun a => if String.eqb (_id a) i then upd a else a) c.
Proof.
  induction c as [|a c IH]; simpl; intros Hnd; [reflexivity|].
  inversion Hnd as [|? ? Hni Hnd']; subst.
  destruct (String.eqb_spec (_id a) i) as [E|NE].
  - f_equal. symmetry. rewrite <- (map_id c) at 2. apply map_ext_in.
    intros b Hb. destruct (String.eqb_spec (_id b) i) as [E'|]; [|reflexivity].
    exfalso. apply Hni. rewrite E, <- E'. now apply in_map.
  - f_equal. now apply IH.
Qed.

Lemma set_featured_id (now_str : string) (a : article) :
  _id (set_featured now_str a) = _id a.
Proof. reflexivity. Qed.

Lemma mark_in_id (now_str : string) (ids : list string) (a : article) :
  _id (mark_in now_str ids a) = _id a.
Proof. unfold mark_in. now destruct (mem (_id a) ids). Qed.

Lemma mark_featured_map (now_str : string) (ids : list string) (c : collection) :
  NoDup (map _id c) ->
  mark_featured now_str ids c = map (mark_in now_str ids) c.
Proof.
  revert c; induction ids as [|i ids IH]; intros c Hnd.
  - simpl. symmetry. unfold mark_in. simpl. apply map_id.
  - unfold mark_featured in *. simpl. rewrite update_one_map by exact Hnd.
    rewrite IH.
    + rewrite map_map. apply map_ext. intros a. unfold mark_in, mem. simpl.
      destruct (String.eqb_spec (_id a) i) as [E|NE]; simpl.
      * now destruct (existsb (String.eqb (_id a)) ids).
      * reflexivity.
    + rewrite map_map.
      erewrite map_ext; [exact Hnd|].
      intros a. simpl. now destruct (String.eqb (_id a) i).
Qed.

(** ** The ranker reads the content fields only *)

Lemma find_map_preserving (g : article -> article) (category : string)
    (db : collection) :
  preserves_content g ->
  find (in_category category) (map g db)
  = map g (find (in_category category) db).
Proof.
  intros Hg. unfold find. induction db as [|a db IH]; simpl; [reflexivity|].
  assert (E : in_category category (g a) = in_category category a).
  { unfold in_category. destruct (Hg a) as (_ & _ & _ & _ & ->). reflexivity. }
  rewrite E. destruct (in_category category a); simpl; now rewrite IH.
Qed.

Lemma embeddings_of_map_preserving (g : article -> article)
    (articles : list article) :
  preserves_content g ->
  embeddings_of (map g articles) = embeddings_of articles.
Proof.
  intros Hg. induction articles as [|a rest IH]; simpl; [reflexivity|].
  destruct (Hg a) as (_ & _ & _ & -> & _). now rewrite IH.
Qed.

Lemma keyword_boost_preserving (g : article -> article) (a : article) :
  preserves_content g -> keyword_boost (g a) = keyword_boost a.
Proof.
  intros Hg. unfold keyword_boost, has_keywords.
  destruct (Hg a) as (_ & -> & -> & _). reflexivity.
Qed.

Lemma composite_scores_map_preserving (g : article -> article)
    (articles : list article) (sim : list (list Q)) (thr : Q) :
  preserves_content g ->
  composite_scores (map g articles) sim thr = composite_scores articles sim thr.
Proof.
  intros Hg. unfold composite_scores. revert sim.
  induction articles as [|a rest IH]; intros [|row sim]; simpl; try reflexivity.
  rewrite IH, (keyword_boost_preserving g a Hg). reflexivity.
Qed.

Lemma get_scores_map_preserving (g : article -> article)
    (articles : list article) (thr : Q) :
  preserves_content g ->
  get_scores (map g articles) thr = get_scores articles thr.
Proof.
  intros Hg. unfold get_scores, similarity_matrix.
  rewrite (embeddings_of_map_preserving g articles Hg).
  destruct (embeddings_of articles) as [es|e]; simpl; [|reflexivity].
  destruct (np_array es) as [X|e]; simpl; [|reflexivity].
  destruct (cosine_similarity X) as [sim|e]; simpl; [|reflexivity].
  now rewrite composite_scores_map_preserving.
Qed.

Lemma get_highlights_map_preserving (g : article -> article) (db : collection)
    (category : string) (top_k : Z) (thr : Q) :
  preserves_content g ->
  get_highlights (map g db) category top_k thr
  = result_map (map g) (get_highlights db category top_k thr).
Proof.
  intros Hg. unfold get_highlights.
  rewrite (find_map_preserving g category db Hg).
  destruct (find (in_category category) db) as [|a0 rest]; [reflexivity|].
  change (map g (a0 :: rest)) with (g a0 :: map g rest).
  change (g a0 :: map g rest) with (map g (a0 :: rest)).
  rewrite (get_scores_map_preserving g (a0 :: rest) thr Hg).
  destruct (get_scores (a0 :: rest) thr) as [scores|e]; simpl; [|reflexivity].
  f_equal. rewrite map_map. apply map_ext. intros i.
  apply (map_nth g (a0 :: rest) a0 i).
Qed.

Lemma highlight_ids_map_preserving (g : article -> article) (db : collection)
    (category : string) (top_k : Z) :
  preserves_content g ->
  highlight_ids (map g db) category top_k = highlight_ids db category top_k.
Proof.
  intros Hg. unfold highlight_ids.
  rewrite (get_highlights_map_preserving g db category top_k _ Hg).
  destruct (get_highlights db category top_k default_similarity_threshold)
    as [hs|e]; simpl; [|reflexivity].
  rewrite map_map. apply map_ext. intros a. apply (Hg a).
Qed.

Lemma reset_in_preserves (category : string) :
  preserves_content (reset_in category).
Proof.
  intros a. unfold reset_in. destruct (in_category category a); simpl; auto 6.
Qed.

Lemma mark_in_preserves (now_str : string) (ids : list string) :
  preserves_content (mark_in now_str ids).
Proof.
  intros a. unfold mark_in. destruct (mem (_id a) ids); simpl; auto 6.
Qed.

(** ** One run of [update_featured_highlights], document by document *)

Lemma mark_in_nil (now_str : string) (a : article) : mark_in now_str [] a = a.
Proof. reflexivity. Qed.

Lemma update_featured_highlights_spec (db : collection) (category : string)
    (top_k : Z) (now_str : string) :
  NoDup (map _id db) ->
  update_featured_highlights db category top_k now_str
  = (map (fun a => mark_in now_str (highlight_ids db category top_k)
                     (reset_in category a)) db,
     result_map (fun _ => tt)
       (get_highlights db category top_k default_similarity_threshold)).
Proof.
  intros Hnd. unfold update_featured_highlights.
  change (update_many (in_category category) set_not_featured db)
    with (map (reset_in category) db).
  rewrite (get_highlights_map_preserving _ db category top_k _
             (reset_in_preserves category)).
  unfold highlight_ids.
  destruct (get_highlights db category top_k default_similarity_threshold)
    as [hs|e]; simpl.
  - f_equal. rewrite mark_featured_map.
    + rewrite !map_map. apply map_ext. intros a. f_equal.
      apply map_ext. intros b. apply (reset_in_preserves category b).
    + rewrite map_map. erewrite map_ext; [exact Hnd|].
      intros a. apply (reset_in_preserves category a).
  - reflexivity.
Qed.

Lemma rerun_pointwise (category : string) (now1 now2 : string)
    (ids : list string) (a0 : article) :
  let a1 := mark_in now1 ids (reset_in category a0) in
  let a2 := mark_in now2 ids (reset_in category a1) in
  _id a2 = _id a1 /\ in_category category a2 = in_category category a1 /\
  is_featured a2 = is_featured a1.
Proof.
  intros a1 a2. subst a1 a2. unfold mark_in, reset_in, in_category.
  destruct (predicted_topic a0) as [t|] eqn:Ep; simpl;
    [destruct (String.eqb t category) eqn:Et; simpl|];
    destruct (mem (_id a0) ids) eqn:Em; simpl;
    rewrite ?Ep; simpl; rewrite ?Et; simpl; rewrite ?Em; simpl;
    rewrite ?Ep; simpl; rewrite ?Et; simpl; auto.
Qed.

Lemma featured_ids_pointwise (category : string) (g h : article -> article)
    (db : collection) :
  (forall a, _id (g a) = _id (h a) /\
             in_category category (g a) = in_category category (h a) /\
             is_featured (g a) = is_featured (h a)) ->
  featured_ids category (map g db) = featured_ids category (map h db).
Proof.
  intros Hgh. unfold featured_ids.
  induction db as [|a db IH]; simpl; [reflexivity|].
  destruct (Hgh a) as (Hid & Hcat & Hf).
  assert (Hft : is_featured_true (g a) = is_featured_true (h a))
    by (unfold is_featured_true; now rewrite Hf).
  rewrite Hcat, Hft.
  destruct (in_category category (h a) && is_featured_true (h a));
    simpl; rewrite ?Hid, IH; reflexivity.
Qed.

Lemma result_map_map {A B C : Type} (f : A -> B) (g : B -> C) (r : result A) :
  result_map g (result_map f r) = result_map (fun a => g (f a)) r.
Proof. now destruct r. Qed.

(** C2: one run leaves every article of the category with [is_featured] true
    exactly when it is one of the winners computed from the content fields
    (whatever flags it carried before: the reset comes first), and a second
    run on the unchanged store features the same articles and ends the same
    way. *)
Theorem featured_status_is_recomputed (db : collection) (category : string)
    (top_k : Z) (now1 now2 : string) :
  NoDup (map _id db) ->
  let run1 := update_featured_highlights db category top_k now1 in
  let run2 := update_featured_highlights (fst run1) category top_k now2 in
  fst run1 = mark_featured now1 (highlight_ids db category top_k)
               (update_many (in_category category) set_not_featured db) /\
  (forall a, In a (fst run1) -> in_category category a = true ->
     is_featured a = Some (mem (_id a) (highlight_ids db category top_k))) /\
  featured_ids category (fst run2) = featured_ids category (fst run1) /\
  snd run2 = snd run1.
Proof.
  intros Hnd run1 run2.
  assert (Hg : preserves_content
                 (fun a => mark_in now1 (highlight_ids db category top_k)
                             (reset_in category a))).
  { intros a.
    destruct (reset_in_preserves category a) as (E1 & E2 & E3 & E4 & E5).
    destruct (mark_in_preserves now1 (highlight_ids db category top_k)
                (reset_in category a)) as (F1 & F2 & F3 & F4 & F5).
    repeat split; congruence. }
  assert (Hnd1 : NoDup (map _id (fst run1))).
  { unfold run1. rewrite update_featured_highlights_spec by exact Hnd. simpl.
    rewrite map_map. erewrite map_ext; [exact Hnd|]. intros a. apply (Hg a). }
  unfold run2.
  rewrite (update_featured_highlights_spec (fst run1)) by exact Hnd1.
  unfold run1. rewrite update_featured_highlights_spec by exact Hnd. simpl.
  rewrite (highlight_ids_map_preserving _ db category top_k Hg).
  rewrite (get_highlights_map_preserving _ db category top_k _ Hg).
  split; [|split; [|split]].
  - rewrite mark_featured_map.
    + unfold update_many. rewrite map_map. reflexivity.
    + rewrite ids_update_many; [exact Hnd | reflexivity].
  - intros a Ha Hcat. apply in_map_iff in Ha. destruct Ha as (a0 & <- & _).
    assert (Hc0 : in_category category a0 = true).
    { rewrite <- Hcat. unfold in_category.
      destruct (Hg a0) as (_ & _ & _ & _ & ->). reflexivity. }
    unfold reset_in. rewrite Hc0. unfold mark_in.
    change (_id (set_not_featured a0)) with (_id a0).
    destruct (mem (_id a0) (highlight_ids db category top_k)) eqn:Em;
      cbn [_id set_featured set_not_featured is_featured]; now rewrite Em.
  - rewrite map_map. apply featured_ids_pointwise. intros a.
    apply (rerun_pointwise category now1 now2).
  - now rewrite result_map_map.
Qed.

Lemma featured_status_is_recomputed_witness :
  let run1 := update_featured_highlights sample_store "sports" 2 "t1" in
  let run2 := update_featured_highlights (fst run1) "sports" 2 "t2" in
  fst run1 = mark_featured "t1" (highlight_ids sample_store "sports" 2)
               (update_many (in_category "sports") set_not_featured sample_store) /\
  (forall a, In a (fst run1) -> in_category "sports" a = true ->
     is_featured a = Some (mem (_id a) (highlight_ids sample_store "sports" 2))) /\
  featured_ids "sports" (fst run2) = featured_ids "sports" (fst run1) /\
  snd run2 = snd run1.
Proof.
  apply (featured_status_is_recomputed sample_store "sports" 2 "t1" "t2").
  simpl. repeat constructor; simpl; intuition discriminate.
Defined.

Example sample_store_featured :
  featured_ids "sports"
    (fst (update_featured_highlights sample_store "sports" 2 "t1"))
  = ["a2"; "a3"].
Proof. vm_compute. reflexivity. Qed.

(** ** How many positions the selection holds *)

Lemma skipn_incl {A : Type} (n : nat) (l : list A) (x : A) :
  In x (skipn n l) -> In x l.
Proof.
  intros H. rewrite <- (firstn_skipn n l). apply in_or_app. now right.
Qed.

Lemma skipn_NoDup {A : Type} (n : nat) (l : list A) :
  NoDup l -> NoDup (skipn n l).
Proof.
  intros H. rewrite <- (firstn_skipn n l) in H.
  now apply NoDup_app_remove_l in H.
Qed.

Lemma argsort_perm (v : list Z) :
  Permutation (argsort v) (seq 0 (List.length v)).
Proof. apply argsort_prefix_perm. Qed.

Lemma top_indices_bound (v : list Z) (top_k : Z) (i : nat) :
  In i (top_indices v top_k) -> (i < List.length v)%nat.
Proof.
  unfold top_indices, slice_last. intros H.
  apply in_rev, skipn_incl in H.
  apply (Permutation_in _ (argsort_perm v)), in_seq in H. lia.
Qed.

Lemma top_indices_NoDup (v : list Z) (top_k : Z) : NoDup (top_indices v top_k).
Proof.
  unfold top_indices, slice_last. apply NoDup_rev, skipn_NoDup.
  apply (Permutation_NoDup (Permutation_sym (argsort_perm v))), seq_NoDup.
Qed.

Lemma top_indices_length (v : list Z) (top_k : Z) :
  1 <= top_k ->
  List.length (top_indices v top_k) = Nat.min (Z.to_nat top_k) (List.length v).
Proof.
  intros Hk. rewrite top_indices_firstn by lia.
  now rewrite length_firstn, ranking_length.
Qed.

(** ** A well-formed category always gets its scores *)

Lemma embeddings_of_well_formed (D : nat) (articles : list article) :
  embedded_in_dimension D articles ->
  exists es, embeddings_of articles = Ok es /\
             Forall (fun e => List.length e = D) es.
Proof.
  induction 1 as [|a rest (e & He & Hd) _ (es & Hes & HD)]; simpl.
  - exists []. split; [reflexivity | constructor].
  - exists (e :: es). rewrite He, Hes. split; [reflexivity | now constructor].
Qed.

Lemma np_array_rectangular (D : nat) (es : list (list Q)) :
  Forall (fun e => List.length e = D) es -> np_array es = Ok es.
Proof.
  intros H. destruct es as [|r rest]; simpl; [reflexivity|].
  inversion H as [|? ? Hr Hrest]; subst.
  replace (forallb _ rest) with true; [reflexivity|].
  symmetry. apply forallb_forall. intros r' Hr'.
  rewrite Forall_forall in Hrest. apply Nat.eqb_eq. now apply Hrest.
Qed.

Lemma get_scores_well_formed (D : nat) (a0 : article) (rest : list article)
    (thr : Q) :
  (1 <= D)%nat ->
  embedded_in_dimension D (a0 :: rest) ->
  exists scores, get_scores (a0 :: rest) thr = Ok scores /\
                 List.length scores = S (List.length rest).
Proof.
  intros HD Hwf.
  destruct (embeddings_of_well_formed D _ Hwf) as (es & Hes & Hdim).
  assert (Hsim : exists sim, similarity_matrix (a0 :: rest) = Ok sim).
  { unfold similarity_matrix. rewrite Hes. simpl.
    rewrite (np_array_rectangular D es Hdim). simpl.
    destruct es as [|r es']; [apply embeddings_of_length in Hes; discriminate|].
    inversion Hdim; subst. simpl.
    destruct (Nat.eqb_spec (List.length r) 0) as [E|_]; [lia|]. eauto. }
  destruct Hsim as (sim & Hsim).
  exists (composite_scores (a0 :: rest) sim thr). split.
  - unfold get_scores. now rewrite Hsim.
  - unfold composite_scores. rewrite length_map, length_combine.
    rewrite (similarity_matrix_length _ _ Hsim). simpl. lia.
Qed.

(** ** The featured set after one run *)

Lemma featured_after_mark (category : string) (now_str : string)
    (ids : list string) (a : article) :
  let a' := mark_in now_str ids (reset_in category a) in
  _id a' = _id a /\
  in_category category a' && is_featured_true a'
  = in_category category a && mem (_id a) ids.
Proof.
  intros a'. subst a'.
  unfold mark_in, reset_in, is_featured_true, in_category.
  destruct (predicted_topic a) as [t|] eqn:Ep; simpl;
    [destruct (String.eqb t category) eqn:Et; simpl|];
    destruct (mem (_id a) ids) eqn:Em; simpl;
    rewrite ?Ep; simpl; rewrite ?Et; simpl; rewrite ?Em; simpl;
    rewrite ?Ep; simpl; rewrite ?Et; simpl; auto.
Qed.

Lemma featured_ids_marked (category : string) (now_str : string)
    (ids : list string) (db : collection) :
  featured_ids category
    (map (fun a => mark_in now_str ids (reset_in category a)) db)
  = map _id
      (filter (fun a => in_category category a && mem (_id a) ids) db).
Proof.
  unfold featured_ids. induction db as [|a db IH]; simpl; [reflexivity|].
  destruct (featured_after_mark category now_str ids a) as (Hid & E).
  rewrite E.
  destruct (in_category category a && mem (_id a) ids); simpl;
    rewrite ?Hid, IH; reflexivity.
Qed.

Lemma featured_ids_after_run (db : collection) (category : string)
    (top_k : Z) (now_str : string) :
  NoDup (map _id db) ->
  featured_ids category
    (fst (update_featured_highlights db category top_k now_str))
  = map _id
      (filter (fun a => in_category category a &&
                        mem (_id a) (highlight_ids db category top_k)) db).
Proof.
  intros Hnd. rewrite update_featured_highlights_spec by exact Hnd.
  apply featured_ids_marked.
Qed.

Lemma mem_In (i : string) (ids : list string) : mem i ids = true <-> In i ids.
Proof.
  unfold mem. rewrite existsb_exists. split.
  - intros (x & Hx & E). apply String.eqb_eq in E. now subst.
  - intros H. exists i. split; [assumption | apply String.eqb_refl].
Qed.

Lemma filter_keeps_ids_unique (q : article -> bool) (c : collection) :
  NoDup (map _id c) -> NoDup (map _id (filter q c)).
Proof.
  intros Hnd. induction c as [|a c IH]; simpl; [constructor|].
  inversion Hnd as [|? ? Ha Hc]; subst.
  destruct (q a); simpl; [|now apply IH].
  constructor; [|now apply IH].
  intros Hin. apply Ha. apply in_map_iff in Hin. destruct Hin as (b & E & Hb).
  apply filter_In in Hb. apply in_map_iff. exists b. tauto.
Qed.

(** The featured articles of the category are the winners, each once. *)
Lemma featured_ids_are_the_winners (db : collection) (category : string)
    (top_k : Z) (now_str : string) :
  NoDup (map _id db) ->
  Permutation
    (featured_ids category
       (fst (update_featured_highlights db category top_k now_str)))
    (highlight_ids db category top_k).
Proof.
  intros Hnd. rewrite featured_ids_after_run by exact Hnd.
  set (ids := highlight_ids db category top_k).
  assert (Hids : NoDup ids /\
                 forall x, In x ids ->
                   exists a, In a db /\ in_category category a = true /\ _id a = x).
  { unfold ids, highlight_ids, get_highlights.
    destruct (find (in_category category) db) as [|a0 rest] eqn:Ef;
      [split; [constructor | intros x []]|].
    destruct (get_scores (a0 :: rest) default_similarity_threshold)
      as [scores|e] eqn:Es; simpl; [|split; [constructor | intros x []]].
    assert (Hlen : List.length scores = List.length (a0 :: rest)).
    { unfold get_scores in Es. inv_bind Es. inversion Es; subst.
      unfold composite_scores. rewrite length_map, length_combine.
      rewrite (similarity_matrix_length _ _ Hx). lia. }
    assert (Hnd' : NoDup (map _id (a0 :: rest))).
    { rewrite <- Ef. unfold find. now apply filter_keeps_ids_unique. }
    split.
    - rewrite map_map. apply Injective_map_NoDup_in;
        [|apply top_indices_NoDup].
      intros i j Hi Hj E. apply top_indices_bound in Hi, Hj.
      rewrite Hlen in Hi, Hj.
      change (_id (nth i (a0 :: rest) a0) = _id (nth j (a0 :: rest) a0)) in E.
      rewrite <- !(map_nth _id) in E.
      apply (proj1 (NoDup_nth _ (_id a0)) Hnd'); rewrite ?length_map;
        assumption.
    - intros x Hx. rewrite map_map in Hx. apply in_map_iff in Hx.
      destruct Hx as (i & <- & Hi). apply top_indices_bound in Hi.
      rewrite Hlen in Hi.
      assert (Hin : In (nth i (a0 :: rest) a0) (a0 :: rest))
        by now apply nth_In.
      rewrite <- Ef in Hin. apply filter_In in Hin. destruct Hin as (Hdb & Hc).
      rewrite Ef in Hdb, Hc.
      exists (nth i (a0 :: rest) a0).
      split; [exact Hdb | split; [exact Hc | reflexivity]]. }
  destruct Hids as (Hnd_ids & Hsrc).
  apply NoDup_Permutation; [now apply filter_keeps_ids_unique | exact Hnd_ids |].
  intros x. rewrite in_map_iff. split.
  - intros (a & <- & Ha). apply filter_In in Ha. destruct Ha as (_ & Ha).
    apply andb_true_iff in Ha. now apply mem_In.
  - intros Hx. destruct (Hsrc x Hx) as (a & Ha & Hc & <-).
    exists a. split; [reflexivity|]. apply filter_In. split; [assumption|].
    rewrite Hc. simpl. now apply mem_In.
Qed.

Lemma is_featured_true_spec (a : article) :
  is_featured_true a = true -> is_featured a = Some true.
Proof.
  unfold is_featured_true. destruct (is_featured a) as [[|]|];
    [reflexivity | discriminate | discriminate].
Qed.

Lemma all_featured_when_counts_agree (category : string) (l : collection) :
  List.length (filter (fun a => in_category category a && is_featured_true a) l)
  = List.length (filter (in_category category) l) ->
  forall a, In a l -> in_category category a = true ->
            is_featured_true a = true.
Proof.
  induction l as [|x l IH]; intros Hlen a Ha Hcat; [destruct Ha|].
  assert (Hle : (List.length
                   (filter (fun a => in_category category a && is_featured_true a) l)
                 <= List.length (filter (in_category category) l))%nat).
  { clear. induction l as [|y l IHl]; simpl; [lia|].
    destruct (in_category category y); simpl; [|exact IHl].
    destruct (is_featured_true y); simpl; lia. }
  simpl in Hlen. destruct (in_category category x) eqn:Ex; simpl in Hlen.
  - destruct (is_featured_true x) eqn:Fx; simpl in Hlen; [|lia].
    destruct Ha as [<-|Ha]; [exact Fx|]. apply IH; [lia | assumption..].
  - destruct Ha as [<-|Ha]; [congruence|]. now apply IH.
Qed.

Lemma update_many_no_match (q : article -> bool) (upd : article -> article)
    (c : collection) :
  find q c = [] -> update_many q upd c = c.
Proof.
  unfold find, update_many. induction c as [|a c IH]; simpl; [reflexivity|].
  destruct (q a); [discriminate|]. intros H. now rewrite IH.
Qed.

(** C5: on a store with unique ids whose category articles all carry an
    embedding of one dimension [D >= 1], one run with [top_k >= 1] returns
    without error and leaves exactly [min top_k n] articles of the category
    featured, [n] being the size of the category; when the category has no
    more than [top_k] articles every one of them ends with
    [is_featured = true]; on an empty category the store is left as it
    was. *)
Theorem one_run_features_min_k_n (db : collection) (category : string)
    (top_k : Z) (now_str : string) (D : nat) :
  NoDup (map _id db) ->
  1 <= top_k ->
  (1 <= D)%nat ->
  embedded_in_dimension D (find (in_category category) db) ->
  let n := List.length (find (in_category category) db) in
  let run := update_featured_highlights db category top_k now_str in
  snd run = Ok tt /\
  List.length (featured_ids category (fst run)) = Nat.min (Z.to_nat top_k) n /\
  ((n <= Z.to_nat top_k)%nat ->
   forall a, In a (fst run) -> in_category category a = true ->
             is_featured a = Some true) /\
  (n = 0%nat -> fst run = db).
Proof.
  intros Hnd Hk HD Hwf n run.
  assert (Hh : exists hs,
             get_highlights db category top_k default_similarity_threshold
             = Ok hs /\ List.length hs = Nat.min (Z.to_nat top_k) n).
  { unfold get_highlights, n.
    destruct (find (in_category category) db) as [|a0 rest] eqn:Ef.
    - exists []. split; [reflexivity|]. simpl. lia.
    - destruct (get_scores_well_formed D a0 rest default_similarity_threshold
                  HD Hwf) as (scores & Hs & Hlen).
      rewrite Hs. simpl. eexists. split; [reflexivity|].
      rewrite length_map, top_indices_length by exact Hk.
      rewrite Hlen. reflexivity. }
  destruct Hh as (hs & Hhs & Hlen).
  assert (Hcount : List.length (featured_ids category (fst run))
                   = Nat.min (Z.to_nat top_k) n).
  { unfold run.
    rewrite (Permutation_length
               (featured_ids_are_the_winners db category top_k now_str Hnd)).
    unfold highlight_ids. rewrite Hhs, length_map. exact Hlen. }
  split; [|split; [exact Hcount|split]].
  - unfold run. rewrite update_featured_highlights_spec by exact Hnd.
    simpl. now rewrite Hhs.
  - intros Hle a Ha Hcat.
    apply is_featured_true_spec.
    apply (all_featured_when_counts_agree category (fst run)); try assumption.
    unfold featured_ids in Hcount. rewrite length_map in Hcount.
    rewrite Hcount, Nat.min_r by exact Hle.
    unfold run. rewrite update_featured_highlights_spec by exact Hnd.
    cbn [fst]. fold (find (in_category category)
                       (map (fun a1 => mark_in now_str
                                         (highlight_ids db category top_k)
                                         (reset_in category a1)) db)).
    rewrite find_map_preserving; [now rewrite length_map|].
    intros b.
    destruct (reset_in_preserves category b) as (E1 & E2 & E3 & E4 & E5).
    destruct (mark_in_preserves now_str (highlight_ids db category top_k)
                (reset_in category b)) as (F1 & F2 & F3 & F4 & F5).
    repeat split; congruence.
  - intros Hn. unfold run, update_featured_highlights.
    assert (Hf : find (in_category category) db = [])
      by (apply length_zero_iff_nil; exact Hn).
    rewrite (update_many_no_match _ _ db Hf).
    unfold get_highlights. rewrite Hf. reflexivity.
Qed.

Lemma one_run_features_min_k_n_witness :
  let n := List.length (find (in_category "sports") sample_store) in
  let run := update_featured_highlights sample_store "sports" 5 "t1" in
  snd run = Ok tt /\
  List.length (featured_ids "sports" (fst run)) = Nat.min (Z.to_nat 5) n /\
  ((n <= Z.to_nat 5)%nat ->
   forall a, In a (fst run) -> in_category "sports" a = true ->
             is_featured a = Some true) /\
  (n = 0%nat -> fst run = sample_store).
Proof.
  apply (one_run_features_min_k_n sample_store "sports" 5 "t1" 2).
  - simpl. repeat constructor; simpl; intuition discriminate.
  - lia.
  - lia.
  - repeat constructor; eexists; split; reflexivity.
Defined.

Example sample_store_all_featured :
  featured_ids "sports"
    (fst (update_featured_highlights sample_store "sports" 5 "t1"))
  = ["a1"; "a2"; "a3"].
Proof. vm_compute. reflexivity. Qed.

(** With [top_k = 0] the slice [[-0:]] is the whole array: every article of
    the category is featured. *)
Example top_k_zero_features_all :
  featured_ids "sports"
    (fst (update_featured_highlights sample_store "sports" 0 "t1"))
  = ["a1"; "a2"; "a3"].
Proof. vm_compute. reflexivity. Qed.

(** ** Looking a document up after updates by id *)

Lemma find_one_update_one_same (i : string) (upd : article -> article)
    (c : collection) (a0 : article) :
  (forall a, _id (upd a) = _id a) ->
  find_one i c = Some a0 ->
  find_one i (update_one i upd c) = Some (upd a0).
Proof.
  intros Hupd. unfold find_one.
  induction c as [|a c IH]; simpl; [discriminate|].
  destruct (String.eqb (_id a) i) eqn:E; simpl.
  - intros H. inversion H; subst. now rewrite Hupd, E.
  - rewrite E. exact IH.
Qed.

Lemma find_one_update_one_other (i j : string) (upd : article -> article)
    (c : collection) :
  (forall a, _id (upd a) = _id a) ->
  i <> j ->
  find_one i (update_one j upd c) = find_one i c.
Proof.
  intros Hupd Hij. unfold find_one.
  induction c as [|a c IH]; simpl; [reflexivity|].
  destruct (String.eqb_spec (_id a) j) as [E|NE]; simpl.
  - rewrite Hupd.
    destruct (String.eqb_spec (_id a) i) as [E'|_]; [congruence | reflexivity].
  - destruct (String.eqb (_id a) i); [reflexivity | exact IH].
Qed.

Lemma topic_clusters_other (articles : list article) (labels : list Z)
    (db : collection) (x : string) :
  ~ In x (map _id articles) ->
  find_one x (update_articles_with_topic_clusters db articles labels)
  = find_one x db.
Proof.
  unfold update_articles_with_topic_clusters.
  revert labels db; induction articles as [|a rest IH]; intros labels db Hx;
    [reflexivity|].
  destruct labels as [|l ls]; [reflexivity|]. simpl.
  rewrite IH by (intros Hin; apply Hx; now right).
  apply find_one_update_one_other; [reflexivity|].
  intros E. apply Hx. now left.
Qed.

Lemma topic_clusters_stored (articles : list article) (labels : list Z)
    (db : collection) (i : nat) (a a0 : article) (l : Z) :
  NoDup (map _id articles) ->
  nth_error articles i = Some a ->
  nth_error labels i = Some l ->
  find_one (_id a) db = Some a0 ->
  find_one (_id a) (update_articles_with_topic_clusters db articles labels)
  = Some (set_topic_cluster_id (topic_cluster_of_label l) a0).
Proof.
  revert labels db i; induction articles as [|a1 rest IH];
    intros labels db i Hnd Ha Hl Hdb; [destruct i; discriminate|].
  inversion Hnd as [|? ? Hni Hnd']; subst.
  destruct labels as [|l1 ls]; [destruct i; discriminate|].
  destruct i as [|i]; simpl in Ha, Hl.
  - inversion Ha; inversion Hl; subst.
    change (update_articles_with_topic_clusters db (a :: rest) (l :: ls))
      with (update_articles_with_topic_clusters
              (update_one (_id a)
                 (set_topic_cluster_id (topic_cluster_of_label l)) db) rest ls).
    rewrite topic_clusters_other by exact Hni.
    now apply find_one_update_one_same.
  - change (update_articles_with_topic_clusters db (a1 :: rest) (l1 :: ls))
      with (update_articles_with_topic_clusters
              (update_one (_id a1)
                 (set_topic_cluster_id (topic_cluster_of_label l1)) db) rest ls).
    apply (IH ls _ i Hnd' Ha Hl).
    rewrite find_one_update_one_other; [exact Hdb | reflexivity |].
    intros E. apply Hni. rewrite <- E. apply in_map.
    eapply nth_error_In; exact Ha.
Qed.

(** C7: for the article at position [i] of a topic-clustering batch with
    label [l] (HDBSCAN labels are [-1] for noise and non-negative otherwise),
    the stored [topic_cluster_id] is null exactly when [l = -1], and is the
    non-negative cluster id [l] otherwise; [-1] itself is never stored. *)
Theorem topic_cluster_id_none_iff_noise (db : collection)
    (articles : list article) (labels : list Z) (i : nat)
    (a a0 : article) (l : Z) :
  NoDup (map _id articles) ->
  nth_error articles i = Some a ->
  nth_error labels i = Some l ->
  find_one (_id a) db = Some a0 ->
  -1 <= l ->
  exists a',
    find_one (_id a) (update_articles_with_topic_clusters db articles labels)
      = Some a' /\
    (topic_cluster_id a' = Some None <-> l = -1) /\
    (l <> -1 -> topic_cluster_id a' = Some (Some l) /\ 0 <= l) /\
    topic_cluster_id a' <> Some (Some (-1)).
Proof.
  intros Hnd Ha Hl Hdb Hrange.
  exists (set_topic_cluster_id (topic_cluster_of_label l) a0).
  split; [now apply (topic_clusters_stored articles labels db i)|].
  unfold topic_cluster_of_label. simpl.
  destruct (Z.eqb_spec l (-1)) as [E|NE].
  - repeat split; try congruence; intros; congruence.
  - repeat split; try congruence; try lia; intros; congruence.
Qed.

Lemma topic_cluster_id_none_iff_noise_witness :
  exists a',
    find_one "a2"
      (update_articles_with_topic_clusters sample_store
         (fetch_articles_with_embeddings sample_store) [0; -1; 0; 1])
      = Some a' /\
    (topic_cluster_id a' = Some None <-> -1 = -1) /\
    (-1 <> -1 -> topic_cluster_id a' = Some (Some (-1)) /\ 0 <= -1) /\
    topic_cluster_id a' <> Some (Some (-1)).
Proof.
  apply (topic_cluster_id_none_iff_noise sample_store
           (fetch_articles_with_embeddings sample_store) [0; -1; 0; 1] 1
           (doc "a2" "Cup final replay" "" [1; 0]%Q "sports")
           (doc "a2" "Cup final replay" "" [1; 0]%Q "sports") (-1)).
  - simpl. repeat constructor; simpl; intuition discriminate.
  - reflexivity.
  - reflexivity.
  - reflexivity.
  - lia.
Defined.

(** ** Topic labeling: an exception leaves the loop *)

Lemma find_one_in_nodup (c : collection) (b : article) :
  NoDup (map _id c) -> In b c -> find_one (_id b) c = Some b.
Proof.
  unfold find_one. induction c as [|a c IH]; simpl; intros Hnd Hb; [easy|].
  inversion Hnd as [|? ? Hni Hnd']; subst.
  destruct Hb as [->|Hb]; [now rewrite String.eqb_refl|].
  destruct (String.eqb_spec (_id a) (_id b)) as [E|_]; [|now apply IH].
  exfalso. apply Hni. rewrite E. now apply in_map.
Qed.

Lemma NoDup_app_disjoint {A : Type} (l1 l2 : list A) (x : A) :
  NoDup (l1 ++ l2) -> In x l1 -> In x l2 -> False.
Proof.
  induction l1 as [|y l1 IH]; simpl; intros Hnd H1 H2; [easy|].
  inversion Hnd as [|? ? Hy Hnd']; subst.
  destruct H1 as [->|H1]; [|now apply IH].
  apply Hy, in_or_app. now right.
Qed.

Lemma classify_loop_aborts (classifier : zero_shot_classifier)
    (pre post : list article) (a : article) (e : error) (db : collection) :
  NoDup (map _id pre) ->
  (forall b, In b pre ->
     exists t, classify_article classifier (classifier_input b) = Ok t) ->
  classify_article classifier (classifier_input a) = Raise e ->
  let r := classify_loop classifier (pre ++ a :: post) db in
  snd r = Raise e /\
  (forall x, ~ In x (map _id pre) -> find_one x (fst r) = find_one x db) /\
  (forall b t b0, In b pre ->
     classify_article classifier (classifier_input b) = Ok t ->
     find_one (_id b) db = Some b0 ->
     find_one (_id b) (fst r) = Some (set_predicted_topic t b0)).
Proof.
  revert db; induction pre as [|p pre IH]; intros db Hnd Hok Ha; simpl.
  - rewrite Ha. simpl.
    split; [reflexivity | split; [reflexivity | intros b t b0 []]].
  - inversion Hnd as [|? ? Hni Hnd']; subst.
    destruct (Hok p (or_introl eq_refl)) as (tp & Hp). rewrite Hp.
    destruct (IH (update_article_topic db (_id p) tp) Hnd'
                (fun b Hb => Hok b (or_intror Hb)) Ha)
      as (Hraise & Hother & Hdone).
    split; [exact Hraise|]. split.
    + intros x Hx. rewrite Hother by (intros Hin; apply Hx; now right).
      apply find_one_update_one_other; [reflexivity|].
      intros E. apply Hx. now left.
    + intros b t b0 [->|Hb] Hbt Hb0.
      * rewrite Hother by exact Hni.
        assert (t = tp) by congruence. subst t.
        now apply find_one_update_one_same.
      * apply Hdone; [assumption..|].
        unfold update_article_topic.
        rewrite find_one_update_one_other; [exact Hb0 | reflexivity |].
        intros E. apply Hni. rewrite <- E. now apply in_map.
Qed.

(** C6, as stated, fails: the loop has no handler.  The classifier raises on
    the first article of the batch; the call raises, and the second article,
    which the classifier would label, is left unlabelled. *)
Lemma classification_failure_is_not_skipped :
  zeroshot_topic_clustering flaky_classifier flaky_batch
    = (flaky_batch, Raise ClassifierError) /\
  classify_article flaky_classifier
    (classifier_input (unlabelled "a2" "Cup final" [0; 1]%Q)) = Ok "sports".
Proof. vm_compute. split; reflexivity. Qed.

(** C6 (amended): a classification failure for one article aborts the batch.
    The exception reaches the caller; the failing article and every article
    after it keep the document they had (so their previous [predicted_topic],
    or none); the articles before it carry their new topic. *)
Theorem classification_failure_aborts_batch (classifier : zero_shot_classifier)
    (db : collection) (pre post : list article) (a : article) (e : error) :
  NoDup (map _id db) ->
  fetch_articles_with_embeddings db = (pre ++ a :: post)%list ->
  (forall b, In b pre ->
     exists t, classify_article classifier (classifier_input b) = Ok t) ->
  classify_article classifier (classifier_input a) = Raise e ->
  let run := zeroshot_topic_clustering classifier db in
  snd run = Raise e /\
  (forall b, In b (a :: post) -> find_one (_id b) (fst run) = Some b) /\
  (forall b t, In b pre ->
     classify_article classifier (classifier_input b) = Ok t ->
     find_one (_id b) (fst run) = Some (set_predicted_topic t b)).
Proof.
  intros Hnd Hfetch Hok Ha run.
  assert (Hndf : NoDup (map _id (pre ++ a :: post)%list)).
  { rewrite <- Hfetch. unfold fetch_articles_with_embeddings, find.
    now apply filter_keeps_ids_unique. }
  assert (Hsub : forall b, In b (pre ++ a :: post)%list -> In b db).
  { intros b Hb. rewrite <- Hfetch in Hb.
    unfold fetch_articles_with_embeddings, find in Hb.
    now apply filter_In in Hb. }
  rewrite map_app in Hndf.
  destruct (classify_loop_aborts classifier pre post a e db
              (NoDup_app_remove_r _ _ Hndf) Hok Ha) as (Hraise & Hother & Hdone).
  unfold run, zeroshot_topic_clustering. rewrite Hfetch.
  split; [exact Hraise|]. split.
  - intros b Hb. rewrite Hother.
    + apply find_one_in_nodup; [exact Hnd|]. apply Hsub, in_or_app. now right.
    + intros Hin.
      apply (NoDup_app_disjoint _ _ _ Hndf Hin). now apply (in_map _id) in Hb.
  - intros b t Hb Hbt. apply (Hdone b t b Hb Hbt).
    apply find_one_in_nodup; [exact Hnd|]. apply Hsub, in_or_app. now left.
Qed.

Lemma classification_failure_aborts_batch_witness :
  let run := zeroshot_topic_clustering flaky_classifier flaky_store in
  snd run = Raise ClassifierError /\
  (forall b, In b [unlabelled "a1" "Unreadable scan" [1; 0]%Q;
                   unlabelled "a2" "Cup final" [0; 1]%Q] ->
     find_one (_id b) (fst run) = Some b) /\
  (forall b t, In b [unlabelled "a0" "Budget vote" [1; 1]%Q] ->
     classify_article flaky_classifier (classifier_input b) = Ok t ->
     find_one (_id b) (fst run) = Some (set_predicted_topic t b)).
Proof.
  apply (classification_failure_aborts_batch flaky_classifier flaky_store
           [unlabelled "a0" "Budget vote" [1; 1]%Q]
           [unlabelled "a2" "Cup final" [0; 1]%Q]
           (unlabelled "a1" "Unreadable scan" [1; 0]%Q) ClassifierError).
  - simpl. repeat constructor; simpl; intuition discriminate.
  - reflexivity.
  - intros b [<-|[]]. exists "sports". vm_compute. reflexivity.
  - vm_compute. reflexivity.
Defined.

(** ** Duplicate clustering of a single article *)

(** C9, as stated, fails: on a batch of one article the clustering raises
    [ValueError] (the estimator requires two samples); no label is returned. *)
Lemma single_article_is_rejected :
  perform_duplicate_clustering [embedded "a1" [1; 0]%Q] (85 # 100)%Q
    = Raise ValueError /\
  perform_duplicate_clustering [embedded "a1" [1; 0]%Q] (85 # 100)%Q
    <> Ok [0].
Proof. split; [vm_compute; reflexivity | vm_compute; discriminate]. Qed.

(** C9 (amended): duplicate clustering on a batch of exactly one article
    raises: [KeyError] when the article has no embedding, [ValueError]
    otherwise. *)
Theorem single_article_batch_raises (a : article) (threshold : Q) :
  perform_duplicate_clustering [a] threshold
  = Raise (if has_embedding a then ValueError else KeyError).
Proof.
  unfold perform_duplicate_clustering, similarity_matrix, has_embedding. simpl.
  destruct (embedding a) as [e|]; simpl; [|reflexivity].
  destruct (Nat.eqb (List.length e) 0); reflexivity.
Qed.

(** ** Articles without an embedding *)

(** Outside the stores the pipeline produces: on a store built by hand, with
    a labelled article that has no embedding, [get_highlights] raises
    [KeyError], and the run of [update_featured_highlights] ends with that
    error after the reset. *)
Lemma highlights_read_missing_embedding :
  get_highlights labelled_without_embedding "sports" 5
    default_similarity_threshold = Raise KeyError /\
  snd (update_featured_highlights labelled_without_embedding "sports" 5 "t1")
    = Raise KeyError.
Proof. split; reflexivity. Qed.

(** ** Duplicate clustering and the order of the batch *)

Example tied_articles_distances :
  result_map distance_matrix_of (similarity_matrix tied_articles)
  = Ok [[0; 1 # 13; 50 # 169]; [1 # 13; 0; 1 # 13]; [50 # 169; 1 # 13; 0]]%Q.
Proof. vm_compute. reflexivity. Qed.

(** C8, as stated, fails: [b] is equally close to [a] and to [c] (distance
    1/13, below the cut-off 0.15), and joining either pair puts the third
    article at average distance 63/338 >= 0.15.  The batch and its reversal
    have the same distance matrix, hence the same labels by position: [b]
    is grouped with [a] in one order and with [c] in the other. *)
Lemma tied_distances_depend_on_order :
  perform_duplicate_clustering tied_articles (85 # 100)%Q = Ok [0; 0; 1] /\
  perform_duplicate_clustering (permute [2; 1; 0]%nat tied_articles) (85 # 100)%Q
    = Ok [0; 0; 1] /\
  permute [2; 1; 0]%nat tied_articles
    = [embedded "c" [12; -5]%Q; embedded "b" [1; 0]%Q; embedded "a" [12; 5]%Q] /\
  is_permutation [2; 1; 0]%nat 3 = true.
Proof. vm_compute. repeat split; reflexivity. Qed.

(** *** Sums of distances do not depend on the listing of a cluster *)

Local Open Scope Q_scope.

Lemma average_linkage_cross (d : nat -> nat -> Q) (A B : cluster) :
  average_linkage d A B
  = sumQ (cross d A B) / inject_Z (Z.of_nat (List.length A * List.length B)).
Proof. reflexivity. Qed.

Lemma sumQ_app (l1 l2 : list Q) : sumQ (l1 ++ l2) == sumQ l1 + sumQ l2.
Proof.
  induction l1 as [|x l1 IH]; simpl.
  - now rewrite Qplus_0_l.
  - rewrite IH. apply Qplus_assoc.
Qed.

Lemma sumQ_perm (l l' : list Q) : Permutation l l' -> sumQ l == sumQ l'.
Proof.
  induction 1 as [|x l l' _ IH|x y l|l l' l'' _ IH1 _ IH2]; simpl.
  - reflexivity.
  - now rewrite IH.
  - rewrite !Qplus_assoc. now rewrite (Qplus_comm y x).
  - now rewrite IH1.
Qed.

Lemma sumQ_map_ext {A : Type} (f g : A -> Q) (l : list A) :
  (forall x, f x == g x) -> sumQ (map f l) == sumQ (map g l).
Proof.
  intros H. induction l as [|x l IH]; simpl; [reflexivity|].
  now rewrite IH, H.
Qed.

Lemma cross_perm_r (d : nat -> nat -> Q) (A B B2 : cluster) :
  Permutation B B2 -> sumQ (cross d A B) == sumQ (cross d A B2).
Proof.
  intros HB. unfold cross. induction A as [|a A IH]; simpl; [reflexivity|].
  rewrite !sumQ_app, IH.
  now rewrite (sumQ_perm _ _ (Permutation_map (d a) HB)).
Qed.

Lemma cross_perm (d : nat -> nat -> Q) (A A2 B B2 : cluster) :
  Permutation A A2 -> Permutation B B2 ->
  sumQ (cross d A B) == sumQ (cross d A2 B2).
Proof.
  intros HA HB. rewrite (cross_perm_r d A B B2 HB).
  apply sumQ_perm. unfold cross. now apply Permutation_flat_map.
Qed.

Lemma cross_ext (d1 d2 : nat -> nat -> Q) (A B : cluster) :
  (forall a b, d1 a b == d2 a b) ->
  sumQ (cross d1 A B) == sumQ (cross d2 A B).
Proof.
  intros H. unfold cross. induction A as [|a A IH]; simpl; [reflexivity|].
  rewrite !sumQ_app, IH. now rewrite (sumQ_map_ext (d1 a) (d2 a) B (H a)).
Qed.

Lemma cross_map (d : nat -> nat -> Q) (f : nat -> nat) (A B : cluster) :
  cross d (map f A) (map f B) = cross (fun a b => d (f a) (f b)) A B.
Proof.
  unfold cross. induction A as [|a A IH]; simpl; [reflexivity|].
  now rewrite IH, map_map.
Qed.

Lemma cross_cons_r (d : nat -> nat -> Q) (A B : cluster) (b : nat) :
  sumQ (cross d A (b :: B))
  == sumQ (map (fun a => d a b) A) + sumQ (cross d A B).
Proof.
  unfold cross. induction A as [|a A IH]; simpl.
  - now rewrite Qplus_0_l.
  - rewrite !sumQ_app, IH. simpl. ring.
Qed.

Lemma cross_swap (d : nat -> nat -> Q) (A B : cluster) :
  sumQ (cross d A B) == sumQ (cross (fun b a => d a b) B A).
Proof.
  induction B as [|b B IH].
  - unfold cross. simpl. induction A as [|a A IHA]; simpl; [reflexivity|].
    exact IHA.
  - rewrite cross_cons_r, IH. unfold cross at 2. simpl.
    now rewrite sumQ_app.
Qed.

Lemma average_linkage_perm (d : nat -> nat -> Q) (A A2 B B2 : cluster) :
  Permutation A A2 -> Permutation B B2 ->
  average_linkage d A B == average_linkage d A2 B2.
Proof.
  intros HA HB. rewrite !average_linkage_cross.
  rewrite (cross_perm d A A2 B B2 HA HB).
  now rewrite (Permutation_length HA), (Permutation_length HB).
Qed.

Lemma average_linkage_sym (d : nat -> nat -> Q) (A B : cluster) :
  (forall i j, d i j == d j i) ->
  average_linkage d A B == average_linkage d B A.
Proof.
  intros Hsym. rewrite !average_linkage_cross.
  rewrite cross_swap.
  rewrite (cross_ext (fun b a => d a b) d B A) by (intros; apply Hsym).
  now rewrite Nat.mul_comm.
Qed.

Lemma average_linkage_map (d d' : nat -> nat -> Q) (f : nat -> nat)
    (A B : cluster) :
  (forall i j, d' i j == d (f i) (f j)) ->
  average_linkage d' A B == average_linkage d (map f A) (map f B).
Proof.
  intros Hd. rewrite !average_linkage_cross. rewrite cross_map.
  rewrite (cross_ext d' (fun a b => d (f a) (f b)) A B Hd).
  now rewrite !length_map.
Qed.

Local Close Scope Q_scope.

(** *** The closest pair *)

Lemma closest_pair_none (d : nat -> nat -> Q) (ps : list (cluster * cluster)) :
  closest_pair d ps = None -> ps = [].
Proof.
  destruct ps as [|p rest]; simpl; [reflexivity|].
  destruct (closest_pair d rest) as [q|]; [|discriminate].
  destruct (Qle_bool _ _); discriminate.
Qed.

Lemma closest_pair_spec (d : nat -> nat -> Q) (ps : list (cluster * cluster))
    (p : cluster * cluster) :
  closest_pair d ps = Some p ->
  In p ps /\ forall q, In q ps -> (linkage_of d p <= linkage_of d q)%Q.
Proof.
  revert p; induction ps as [|p0 rest IH]; intros p; simpl; [discriminate|].
  destruct (closest_pair d rest) as [q0|] eqn:E.
  - destruct (IH q0 eq_refl) as (Hin & Hmin).
    destruct (Qle_bool (linkage_of d p0) (linkage_of d q0)) eqn:Hle;
      intros H; inversion H; subst; clear H.
    + apply Qle_bool_iff in Hle. split; [now left|].
      intros q [<-|Hq]; [apply Qle_refl|].
      eapply Qle_trans; [exact Hle | now apply Hmin].
    + assert (Hlt : (linkage_of d p < linkage_of d p0)%Q).
      { apply Qnot_le_lt. intros Hc. apply Qle_bool_iff in Hc. congruence. }
      split; [now right|].
      intros q [<-|Hq]; [now apply Qlt_le_weak | now apply Hmin].
  - apply closest_pair_none in E. subst rest.
    intros H; inversion H; subst. split; [now left|].
    intros q [<-|[]]. apply Qle_refl.
Qed.

Lemma in_all_pairs (cs : list cluster) (X Y : cluster) :
  In (X, Y) (all_pairs cs) -> In X cs /\ In Y cs.
Proof.
  induction cs as [|A cs IH]; simpl; [easy|].
  intros H. apply in_app_or in H. destruct H as [H|H].
  - apply in_map_iff in H. destruct H as (Z & E & HZ).
    inversion E; subst. auto.
  - destruct (IH H). auto.
Qed.

Lemma all_pairs_distinct (cs : list cluster) (X Y : cluster) :
  NoDup cs -> In (X, Y) (all_pairs cs) -> X <> Y.
Proof.
  induction cs as [|A cs IH]; simpl; intros Hnd H; [easy|].
  inversion Hnd as [|? ? HA Hcs]; subst.
  apply in_app_or in H. destruct H as [H|H].
  - apply in_map_iff in H. destruct H as (Z & E & HZ).
    inversion E; subst. intros ->. contradiction.
  - now apply IH.
Qed.

Lemma all_pairs_complete (cs : list cluster) (X Y : cluster) :
  In X cs -> In Y cs -> X <> Y ->
  In (X, Y) (all_pairs cs) \/ In (Y, X) (all_pairs cs).
Proof.
  induction cs as [|A cs IH]; simpl; intros HX HY Hne; [easy|].
  destruct HX as [->|HX], HY as [->|HY].
  - congruence.
  - left. apply in_or_app. left. now apply in_map.
  - right. apply in_or_app. left. now apply in_map.
  - destruct (IH HX HY Hne); [left | right]; apply in_or_app; now right.
Qed.

(** *** States of the agglomeration are partitions *)

Lemma valid_state_disjoint (cs : list cluster) (X Y : cluster) (x : nat) :
  valid_state cs -> In X cs -> In Y cs -> In x X -> In x Y -> X = Y.
Proof.
  intros (Hnd & _). induction cs as [|A cs IH]; simpl in *; [easy|].
  intros HX HY HxX HxY.
  assert (Hcs : NoDup (List.concat cs)) by (now apply NoDup_app_remove_l in Hnd).
  destruct HX as [->|HX], HY as [->|HY]; [reflexivity | | | now apply IH].
  - exfalso. apply (NoDup_app_disjoint _ _ x Hnd HxX).
    apply in_concat. eauto.
  - exfalso. apply (NoDup_app_disjoint _ _ x Hnd HxY).
    apply in_concat. eauto.
Qed.

Lemma valid_state_NoDup (cs : list cluster) : valid_state cs -> NoDup cs.
Proof.
  intros (Hnd & Hne). induction cs as [|A cs IH]; [constructor|].
  simpl in Hnd. inversion Hne as [|? ? HA Hcs]; subst.
  constructor; [|apply IH; [now apply NoDup_app_remove_l in Hnd | assumption]].
  intros Hin. destruct A as [|a A]; [congruence|].
  apply (NoDup_app_disjoint _ _ a Hnd); [now left|].
  apply in_concat. exists (a :: A). split; [assumption | now left].
Qed.

Lemma cluster_eqb_eq (X Y : cluster) : cluster_eqb X Y = true <-> X = Y.
Proof.
  unfold cluster_eqb. destruct (list_eq_dec Nat.eq_dec X Y); split;
    congruence.
Qed.

Lemma in_merge (A B : cluster) (cs : list cluster) (X : cluster) :
  In X (merge A B cs) <-> X = (A ++ B)%list \/ (In X cs /\ X <> A /\ X <> B).
Proof.
  unfold merge. simpl. rewrite filter_In, andb_true_iff, !negb_true_iff.
  split.
  - intros [<-|(HX & HA & HB)]; [now left|]. right.
    repeat split; [assumption | |]; intros ->;
      [rewrite (proj2 (cluster_eqb_eq A A) eq_refl) in HA
      |rewrite (proj2 (cluster_eqb_eq B B) eq_refl) in HB]; discriminate.
  - intros [->|(HX & HA & HB)]; [now left|]. right.
    repeat split; [assumption | |];
      destruct (cluster_eqb _ _) eqn:E; try reflexivity;
      apply cluster_eqb_eq in E; contradiction.
Qed.

Lemma extract_one (a : cluster) (l : list cluster) :
  NoDup l -> In a l ->
  Permutation l (a :: filter (fun X => negb (cluster_eqb X a)) l).
Proof.
  induction l as [|x l IH]; simpl; intros Hnd Ha; [easy|].
  inversion Hnd as [|? ? Hx Hl]; subst.
  destruct (cluster_eqb x a) eqn:E; simpl.
  - apply cluster_eqb_eq in E. subst x. apply perm_skip.
    rewrite forallb_filter_id; [reflexivity|].
    apply forallb_forall. intros y Hy. apply negb_true_iff.
    destruct (cluster_eqb y a) eqn:E'; [|reflexivity].
    apply cluster_eqb_eq in E'. subst. contradiction.
  - destruct Ha as [->|Ha].
    + rewrite (proj2 (cluster_eqb_eq a a) eq_refl) in E. discriminate.
    + rewrite (IH Hl Ha) at 1. apply perm_swap.
Qed.

Lemma filter_twice {A : Type} (f g : A -> bool) (l : list A) :
  filter g (filter f l) = filter (fun x => f x && g x) l.
Proof.
  induction l as [|x l IH]; simpl; [reflexivity|].
  destruct (f x); simpl; [destruct (g x)|]; now rewrite IH.
Qed.

Lemma extract_two (A B : cluster) (cs : list cluster) :
  NoDup cs -> In A cs -> In B cs -> A <> B ->
  Permutation cs
    (A :: B :: filter (fun X => negb (cluster_eqb X A) && negb (cluster_eqb X B)) cs).
Proof.
  intros Hnd HA HB Hne.
  rewrite (extract_one A cs Hnd HA) at 1. apply perm_skip.
  rewrite <- filter_twice. apply extract_one; [now apply NoDup_filter|].
  apply filter_In. split; [assumption|]. apply negb_true_iff.
  destruct (cluster_eqb B A) eqn:E; [|reflexivity].
  apply cluster_eqb_eq in E. congruence.
Qed.

Lemma concat_perm (l l' : list cluster) :
  Permutation l l' -> Permutation (List.concat l) (List.concat l').
Proof.
  intros H. rewrite <- (map_id l), <- (map_id l'), <- !flat_map_concat_map.
  now apply Permutation_flat_map.
Qed.

Lemma merge_concat (A B : cluster) (cs : list cluster) :
  NoDup cs -> In A cs -> In B cs -> A <> B ->
  Permutation (List.concat (merge A B cs)) (List.concat cs).
Proof.
  intros Hnd HA HB Hne.
  rewrite (concat_perm _ _ (extract_two A B cs Hnd HA HB Hne)).
  unfold merge. simpl. now rewrite app_assoc.
Qed.

Lemma merge_valid (A B : cluster) (cs : list cluster) :
  valid_state cs -> In A cs -> In B cs -> A <> B ->
  valid_state (merge A B cs).
Proof.
  intros Hv HA HB Hne. pose proof (valid_state_NoDup cs Hv) as Hnd.
  destruct Hv as (Hc & Hnil). split.
  - apply (Permutation_NoDup
             (Permutation_sym (merge_concat A B cs Hnd HA HB Hne)) Hc).
  - unfold merge. constructor.
    + rewrite Forall_forall in Hnil. specialize (Hnil A HA).
      destruct A; [congruence | discriminate].
    + rewrite Forall_forall in *. intros X HX. apply filter_In in HX.
      now apply Hnil.
Qed.

(** *** Two runs on reordered inputs, side by side *)

Local Open Scope list_scope.

Lemma singleton_list {A : Type} (l : list A) (a b : A) :
  List.length l = 1%nat -> In a l -> In b l -> a = b.
Proof.
  destruct l as [|x [|y l]]; simpl; try discriminate.
  intros _ [<-|[]] [<-|[]]. reflexivity.
Qed.

Lemma unique_closest_spec (d : nat -> nat -> Q) (cs : list cluster)
    (p q : cluster * cluster) :
  unique_closest d cs = true ->
  closest_pair d (all_pairs cs) = Some p ->
  In q (all_pairs cs) ->
  (linkage_of d q == linkage_of d p)%Q ->
  q = p.
Proof.
  unfold unique_closest. intros Hu Hp Hq Heq. rewrite Hp in Hu.
  apply Nat.eqb_eq in Hu.
  apply (singleton_list _ q p Hu); apply filter_In; split.
  - exact Hq.
  - now apply Qeq_bool_iff.
  - now apply (closest_pair_spec d _ p Hp).
  - apply Qeq_bool_refl.
Qed.

Section Reordering.

Variables (d d' : nat -> nat -> Q) (pi : nat -> nat) (thr : Q).
Hypothesis d_sym : forall i j, (d i j == d j i)%Q.
Hypothesis d'_def : forall i j, (d' i j == d (pi i) (pi j))%Q.
Hypothesis pi_inj : forall i j, pi i = pi j -> i = j.

Lemma corresponds_left_unique (cs' : list cluster) (X' Y' X : cluster) :
  valid_state cs' -> In X' cs' -> In Y' cs' ->
  corresponds pi X' X -> corresponds pi Y' X -> X' = Y'.
Proof.
  intros Hv HX HY HcX HcY.
  destruct X' as [|x X'].
  { destruct Hv as (_ & Hne). rewrite Forall_forall in Hne.
    now destruct (Hne [] HX). }
  apply (valid_state_disjoint cs' _ _ x Hv HX HY); [now left|].
  assert (Hin : In (pi x) (map pi Y')).
  { apply (Permutation_in _ (Permutation_sym HcY)).
    apply (Permutation_in _ HcX). now left. }
  apply in_map_iff in Hin. destruct Hin as (y & E & Hy).
  apply pi_inj in E. now subst.
Qed.

Lemma corresponds_right_unique (cs' cs : list cluster) (X' X Y : cluster) :
  valid_state cs' -> valid_state cs -> In X' cs' -> In X cs -> In Y cs ->
  corresponds pi X' X -> corresponds pi X' Y -> X = Y.
Proof.
  intros Hv' Hv HX' HX HY HcX HcY.
  destruct X' as [|x X'].
  { destruct Hv' as (_ & Hne). rewrite Forall_forall in Hne.
    now destruct (Hne [] HX'). }
  apply (valid_state_disjoint cs _ _ (pi x) Hv HX HY).
  - apply (Permutation_in _ HcX). now left.
  - apply (Permutation_in _ HcY). now left.
Qed.

Lemma corresponds_linkage (A' B' A B : cluster) :
  corresponds pi A' A -> corresponds pi B' B ->
  (average_linkage d' A' B' == average_linkage d A B)%Q.
Proof.
  intros HA HB. rewrite (average_linkage_map d d' pi A' B' d'_def).
  now apply average_linkage_perm.
Qed.

Lemma pair_forward (cs' cs : list cluster) (p' : cluster * cluster) :
  related pi cs' cs -> In p' (all_pairs cs') ->
  exists p, In p (all_pairs cs) /\
            (linkage_of d p == linkage_of d' p')%Q /\
            ((corresponds pi (fst p') (fst p) /\ corresponds pi (snd p') (snd p)) \/
             (corresponds pi (fst p') (snd p) /\ corresponds pi (snd p') (fst p))).
Proof.
  intros (Hv' & Hv & Hfw & _) Hp'. destruct p' as (A', B').
  destruct (in_all_pairs cs' A' B' Hp') as (HA' & HB').
  pose proof (all_pairs_distinct cs' A' B' (valid_state_NoDup _ Hv') Hp') as Hne'.
  destruct (Hfw A' HA') as (A & HA & HcA). destruct (Hfw B' HB') as (B & HB & HcB).
  assert (Hne : A <> B).
  { intros ->. apply Hne'.
    now apply (corresponds_left_unique cs' A' B' B). }
  destruct (all_pairs_complete cs A B HA HB Hne) as [Hin|Hin].
  - exists (A, B). split; [exact Hin|]. split; [|left; now split].
    unfold linkage_of. simpl. symmetry. now apply corresponds_linkage.
  - exists (B, A). split; [exact Hin|]. split; [|right; now split].
    unfold linkage_of. simpl. rewrite (average_linkage_sym d B A d_sym).
    symmetry. now apply corresponds_linkage.
Qed.

Lemma pair_backward (cs' cs : list cluster) (p : cluster * cluster) :
  related pi cs' cs -> In p (all_pairs cs) ->
  exists p', In p' (all_pairs cs') /\
             (linkage_of d' p' == linkage_of d p)%Q.
Proof.
  intros (Hv' & Hv & _ & Hbw) Hp. destruct p as (A, B).
  destruct (in_all_pairs cs A B Hp) as (HA & HB).
  pose proof (all_pairs_distinct cs A B (valid_state_NoDup _ Hv) Hp) as Hne.
  destruct (Hbw A HA) as (A' & HA' & HcA). destruct (Hbw B HB) as (B' & HB' & HcB).
  assert (Hne' : A' <> B').
  { intros ->. apply Hne.
    now apply (corresponds_right_unique cs' cs B' A B). }
  assert (Hsym' : forall i j, (d' i j == d' j i)%Q).
  { intros i j. rewrite !d'_def. apply d_sym. }
  destruct (all_pairs_complete cs' A' B' HA' HB' Hne') as [Hin|Hin].
  - exists (A', B'). split; [exact Hin|].
    unfold linkage_of. simpl. now apply corresponds_linkage.
  - exists (B', A'). split; [exact Hin|].
    unfold linkage_of. simpl. rewrite (average_linkage_sym d' B' A' Hsym').
    now apply corresponds_linkage.
Qed.

Lemma merge_related (cs' cs : list cluster) (A' B' A B : cluster) :
  related pi cs' cs ->
  In A' cs' -> In B' cs' -> A' <> B' ->
  In A cs -> In B cs -> A <> B ->
  (corresponds pi A' A /\ corresponds pi B' B) \/
  (corresponds pi A' B /\ corresponds pi B' A) ->
  related pi (merge A' B' cs') (merge A B cs).
Proof.
  intros (Hv' & Hv & Hfw & Hbw) HA' HB' Hne' HA HB Hne Hcorr.
  assert (Hhead : corresponds pi (A' ++ B') (A ++ B)).
  { unfold corresponds in *. rewrite map_app.
    destruct Hcorr as [(H1 & H2)|(H1 & H2)].
    - now apply Permutation_app.
    - rewrite (Permutation_app_comm A B). now apply Permutation_app. }
  split; [now apply merge_valid|]. split; [now apply merge_valid|]. split.
  - intros X' HX'. apply in_merge in HX'.
    destruct HX' as [->|(HX' & HnA & HnB)].
    + exists (A ++ B)%list. split; [apply in_merge; now left | exact Hhead].
    + destruct (Hfw X' HX') as (Z & HZ & HcZ). exists Z. split; [|exact HcZ].
      apply in_merge. right. split; [exact HZ|].
      split; intros ->; destruct Hcorr as [(H1 & H2)|(H1 & H2)].
      * apply HnA. now apply (corresponds_left_unique cs' X' A' A).
      * apply HnB. now apply (corresponds_left_unique cs' X' B' A).
      * apply HnB. now apply (corresponds_left_unique cs' X' B' B).
      * apply HnA. now apply (corresponds_left_unique cs' X' A' B).
  - intros X HX. apply in_merge in HX.
    destruct HX as [->|(HX & HnA & HnB)].
    + exists (A' ++ B')%list. split; [apply in_merge; now left | exact Hhead].
    + destruct (Hbw X HX) as (Z' & HZ' & HcZ). exists Z'. split; [|exact HcZ].
      apply in_merge. right. split; [exact HZ'|].
      split; intros ->; destruct Hcorr as [(H1 & H2)|(H1 & H2)].
      * apply HnA. now apply (corresponds_right_unique cs' cs A' X A).
      * apply HnB. now apply (corresponds_right_unique cs' cs A' X B).
      * apply HnB. now apply (corresponds_right_unique cs' cs B' X B).
      * apply HnA. now apply (corresponds_right_unique cs' cs B' X A).
Qed.

Lemma step_related (cs' cs : list cluster) :
  related pi cs' cs ->
  (forall cs2, agglomerate_step d thr cs = Some cs2 ->
               unique_closest d cs = true) ->
  match agglomerate_step d' thr cs', agglomerate_step d thr cs with
  | Some cs2', Some cs2 => related pi cs2' cs2
  | None, None => True
  | _, _ => False
  end.
Proof.
  intros Hrel Huniq.
  assert (Hu : forall p, closest_pair d (all_pairs cs) = Some p ->
                 Qle_bool thr (linkage_of d p) = false ->
                 unique_closest d cs = true).
  { intros p Hp Ht. apply (Huniq (merge (fst p) (snd p) cs)).
    unfold agglomerate_step. now rewrite Hp, Ht. }
  clear Huniq. unfold agglomerate_step.
  destruct (closest_pair d' (all_pairs cs')) as [p'|] eqn:E';
    destruct (closest_pair d (all_pairs cs)) as [p|] eqn:E.
  - destruct (closest_pair_spec d' _ p' E') as (Hin' & Hmin').
    destruct (closest_pair_spec d _ p E) as (Hin & Hmin).
    destruct (pair_forward cs' cs p' Hrel Hin') as (q & Hq & Hlq & Hcorr).
    destruct (pair_backward cs' cs p Hrel Hin) as (q' & Hq' & Hlq').
    assert (Heq : (linkage_of d p == linkage_of d' p')%Q).
    { apply Qle_antisym.
      - rewrite <- Hlq. now apply Hmin.
      - rewrite <- Hlq'. now apply Hmin'. }
    assert (Hb : Qle_bool thr (linkage_of d' p') = Qle_bool thr (linkage_of d p)).
    { apply Qleb_comp; [reflexivity | symmetry; exact Heq]. }
    rewrite Hb.
    destruct (Qle_bool thr (linkage_of d p)) eqn:Ht; [exact I|].
    assert (q = p).
    { apply (unique_closest_spec d cs p q (Hu p eq_refl Ht) E Hq).
      now rewrite Hlq, Heq. }
    subst q. destruct p' as (A', B'), p as (A, B). simpl in *.
    destruct (in_all_pairs cs' A' B' Hin') as (HA' & HB').
    destruct (in_all_pairs cs A B Hin) as (HA & HB).
    pose proof Hrel as (Hv' & Hv & _ & _).
    apply merge_related; try assumption.
    + apply (all_pairs_distinct cs' A' B' (valid_state_NoDup _ Hv') Hin').
    + apply (all_pairs_distinct cs A B (valid_state_NoDup _ Hv) Hin).
  - apply closest_pair_none in E.
    destruct (closest_pair_spec d' _ p' E') as (Hin' & _).
    destruct (pair_forward cs' cs p' Hrel Hin') as (q & Hq & _).
    rewrite E in Hq. destruct Hq.
  - apply closest_pair_none in E'.
    destruct (closest_pair_spec d _ p E) as (Hin & _).
    destruct (pair_backward cs' cs p Hrel Hin) as (q' & Hq' & _).
    rewrite E' in Hq'. destruct Hq'.
  - exact I.
Qed.

Lemma run_related (fuel : nat) (cs' cs : list cluster) :
  related pi cs' cs ->
  tie_free d thr fuel cs = true ->
  related pi (agglomerate d' thr fuel cs') (agglomerate d thr fuel cs).
Proof.
  revert cs' cs; induction fuel as [|fuel IH]; intros cs' cs Hrel Htf;
    [exact Hrel|].
  simpl in *.
  assert (Hstep := step_related cs' cs Hrel).
  destruct (agglomerate_step d thr cs) as [cs2|] eqn:E.
  - apply andb_true_iff in Htf. destruct Htf as (Hu & Htf).
    specialize (Hstep (fun _ _ => Hu)).
    destruct (agglomerate_step d' thr cs') as [cs2'|]; [|contradiction].
    now apply IH.
  - specialize (Hstep (fun cs2 H => False_ind _ (eq_ind None
                         (fun o => match o with None => True | Some _ => False end)
                         I _ H))).
    destruct (agglomerate_step d' thr cs') as [cs2'|]; [contradiction|].
    exact Hrel.
Qed.

End Reordering.

(** *** The first state, and reading labels off the last one *)

Lemma concat_singletons (n : nat) : List.concat (singletons n) = seq 0 n.
Proof.
  unfold singletons. generalize 0%nat.
  induction n as [|n IH]; intros s; simpl; [reflexivity|]. now rewrite IH.
Qed.

Lemma singletons_valid (n : nat) : valid_state (singletons n).
Proof.
  split.
  - rewrite concat_singletons. apply seq_NoDup.
  - apply Forall_forall. intros X HX. unfold singletons in HX.
    apply in_map_iff in HX. destruct HX as (i & <- & _). discriminate.
Qed.

Lemma in_singletons (n : nat) (X : cluster) :
  In X (singletons n) <-> exists i, (i < n)%nat /\ X = [i].
Proof.
  unfold singletons. rewrite in_map_iff. split.
  - intros (i & <- & Hi). apply in_seq in Hi. exists i. split; [lia | reflexivity].
  - intros (i & Hi & ->). exists i. split; [reflexivity|]. apply in_seq. lia.
Qed.

Lemma singletons_related (pi : nat -> nat) (n : nat) :
  (forall i, (i < n)%nat -> (pi i < n)%nat) ->
  (forall j, (j < n)%nat -> exists i, (i < n)%nat /\ pi i = j) ->
  related pi (singletons n) (singletons n).
Proof.
  intros Hrange Hsurj.
  split; [apply singletons_valid|]. split; [apply singletons_valid|]. split.
  - intros X' HX'. apply in_singletons in HX'. destruct HX' as (i & Hi & ->).
    exists [pi i]. split; [|apply Permutation_refl].
    apply in_singletons. exists (pi i). split; [now apply Hrange | reflexivity].
  - intros X HX. apply in_singletons in HX. destruct HX as (j & Hj & ->).
    destruct (Hsurj j Hj) as (i & Hi & <-).
    exists [i]. split; [|apply Permutation_refl].
    apply in_singletons. exists i. split; [exact Hi | reflexivity].
Qed.

Lemma agglomerate_step_concat (d : nat -> nat -> Q) (thr : Q)
    (cs cs2 : list cluster) :
  valid_state cs -> agglomerate_step d thr cs = Some cs2 ->
  valid_state cs2 /\ Permutation (List.concat cs2) (List.concat cs).
Proof.
  intros Hv. unfold agglomerate_step.
  destruct (closest_pair d (all_pairs cs)) as [(A, B)|] eqn:E; [|discriminate].
  destruct (Qle_bool thr (linkage_of d (A, B))); [discriminate|].
  intros H. inversion H; subst; clear H. simpl.
  destruct (closest_pair_spec d _ _ E) as (Hin & _).
  destruct (in_all_pairs cs A B Hin) as (HA & HB).
  pose proof (valid_state_NoDup cs Hv) as Hnd.
  pose proof (all_pairs_distinct cs A B Hnd Hin) as Hne.
  split; [now apply merge_valid | now apply merge_concat].
Qed.

Lemma agglomerate_concat (d : nat -> nat -> Q) (thr : Q) (fuel : nat)
    (cs : list cluster) :
  valid_state cs ->
  Permutation (List.concat (agglomerate d thr fuel cs)) (List.concat cs).
Proof.
  revert cs; induction fuel as [|fuel IH]; intros cs Hv; simpl; [reflexivity|].
  destruct (agglomerate_step d thr cs) as [cs2|] eqn:E; [|reflexivity].
  destruct (agglomerate_step_concat d thr cs cs2 Hv E) as (Hv2 & Hp).
  now rewrite (IH cs2 Hv2).
Qed.

(** *** The fuel of [fit_predict] runs the agglomeration to its end *)

Lemma merge_length (A B : cluster) (cs : list cluster) :
  NoDup cs -> In A cs -> In B cs -> A <> B ->
  S (List.length (merge A B cs)) = List.length cs.
Proof.
  intros Hnd HA HB Hne.
  rewrite (Permutation_length (extract_two A B cs Hnd HA HB Hne)).
  reflexivity.
Qed.

Lemma agglomerate_step_length (d : nat -> nat -> Q) (thr : Q)
    (cs cs2 : list cluster) :
  valid_state cs -> agglomerate_step d thr cs = Some cs2 ->
  S (List.length cs2) = List.length cs.
Proof.
  intros Hv. unfold agglomerate_step.
  destruct (closest_pair d (all_pairs cs)) as [(A, B)|] eqn:E; [|discriminate].
  destruct (Qle_bool thr (linkage_of d (A, B))); [discriminate|].
  intros H. inversion H; subst; clear H. simpl.
  destruct (closest_pair_spec d _ _ E) as (Hin & _).
  destruct (in_all_pairs cs A B Hin) as (HA & HB).
  pose proof (valid_state_NoDup cs Hv) as Hnd.
  apply merge_length; try assumption.
  now apply (all_pairs_distinct cs A B Hnd).
Qed.

Lemma agglomerate_complete (d : nat -> nat -> Q) (thr : Q) (fuel : nat)
    (cs : list cluster) :
  valid_state cs -> (List.length cs <= S fuel)%nat ->
  agglomerate_step d thr (agglomerate d thr fuel cs) = None.
Proof.
  revert cs; induction fuel as [|fuel IH]; intros cs Hv Hlen; simpl.
  - unfold agglomerate_step.
    destruct cs as [|A [|B cs]]; simpl in *; try reflexivity. lia.
  - destruct (agglomerate_step d thr cs) as [cs2|] eqn:E; [|exact E].
    destruct (agglomerate_step_concat d thr cs cs2 Hv E) as (Hv2 & _).
    apply IH; [exact Hv2|].
    pose proof (agglomerate_step_length d thr cs cs2 Hv E). lia.
Qed.

Lemma fit_predict_runs_to_the_end (d : nat -> nat -> Q) (thr : Q) (n : nat) :
  agglomerate_step d thr (agglomerate d thr n (singletons n)) = None.
Proof.
  apply agglomerate_complete; [apply singletons_valid|].
  unfold singletons. rewrite length_map, length_seq. lia.
Qed.

Lemma existsb_eqb_In (i : nat) (X : cluster) :
  existsb (Nat.eqb i) X = true <-> In i X.
Proof.
  rewrite existsb_exists. split.
  - intros (x & Hx & E). apply Nat.eqb_eq in E. now subst.
  - intros H. exists i. split; [exact H | apply Nat.eqb_refl].
Qed.

Lemma valid_state_tail (X : cluster) (cs : list cluster) :
  valid_state (X :: cs) -> valid_state cs.
Proof.
  intros (Hnd & Hne). simpl in Hnd. split.
  - now apply NoDup_app_remove_l in Hnd.
  - now inversion Hne.
Qed.

Lemma cluster_index_same (cs : list cluster) (i j : nat) :
  valid_state cs -> In i (List.concat cs) -> In j (List.concat cs) ->
  (cluster_index i cs = cluster_index j cs <-> same_cluster cs i j).
Proof.
  induction cs as [|X cs IH]; intros Hv Hi Hj; [destruct Hi|].
  pose proof (valid_state_tail X cs Hv) as Hv'.
  simpl in Hi, Hj. apply in_app_or in Hi, Hj. simpl.
  destruct (existsb (Nat.eqb i) X) eqn:Ei, (existsb (Nat.eqb j) X) eqn:Ej.
  - apply existsb_eqb_In in Ei, Ej. split; [|reflexivity].
    intros _. exists X. split; [now left | now split].
  - apply existsb_eqb_In in Ei. split; [discriminate|].
    intros (Y & [<-|HY] & HiY & HjY).
    + apply existsb_eqb_In in HjY. congruence.
    + assert (X = Y)
        by (apply (valid_state_disjoint (X :: cs) X Y i Hv);
            [now left | now right | assumption..]).
      subst Y. apply existsb_eqb_In in HjY. congruence.
  - apply existsb_eqb_In in Ej. split; [discriminate|].
    intros (Y & [<-|HY] & HiY & HjY).
    + apply existsb_eqb_In in HiY. congruence.
    + assert (X = Y)
        by (apply (valid_state_disjoint (X :: cs) X Y j Hv);
            [now left | now right | assumption..]).
      subst Y. apply existsb_eqb_In in HiY. congruence.
  - assert (HiX : ~ In i X) by (rewrite <- existsb_eqb_In; congruence).
    assert (HjX : ~ In j X) by (rewrite <- existsb_eqb_In; congruence).
    destruct Hi as [Hi|Hi]; [contradiction|].
    destruct Hj as [Hj|Hj]; [contradiction|].
    rewrite Nat.succ_inj_wd, (IH Hv' Hi Hj). split.
    + intros (Y & HY & H1 & H2). exists Y. split; [now right | now split].
    + intros (Y & [<-|HY] & H1 & H2); [contradiction|].
      exists Y. now repeat split.
Qed.

Lemma labels_of_nth (n : nat) (cs : list cluster) (i : nat) :
  (i < n)%nat -> nth i (labels_of n cs) 0 = Z.of_nat (cluster_index i cs).
Proof.
  intros Hi. unfold labels_of.
  rewrite (nth_indep _ 0 (Z.of_nat (cluster_index 0 cs)))
    by (rewrite length_map, length_seq; exact Hi).
  rewrite (map_nth (fun k => Z.of_nat (cluster_index k cs))).
  now rewrite seq_nth.
Qed.

Lemma same_cluster_related (pi : nat -> nat) (cs' cs : list cluster)
    (i j : nat) :
  (forall x y, pi x = pi y -> x = y) ->
  related pi cs' cs ->
  (same_cluster cs' i j <-> same_cluster cs (pi i) (pi j)).
Proof.
  intros Hinj (_ & _ & Hfw & Hbw). split.
  - intros (X' & HX' & Hi & Hj). destruct (Hfw X' HX') as (X & HX & Hc).
    exists X. split; [exact HX|].
    split; apply (Permutation_in _ Hc); now apply in_map.
  - intros (X & HX & Hi & Hj). destruct (Hbw X HX) as (X' & HX' & Hc).
    exists X'. split; [exact HX'|].
    apply (Permutation_in _ (Permutation_sym Hc)) in Hi, Hj.
    apply in_map_iff in Hi, Hj.
    destruct Hi as (x & Ex & Hx), Hj as (y & Ey & Hy).
    apply Hinj in Ex, Ey. subst. now split.
Qed.

(** The partitions of the two runs agree, position by position. *)
Lemma labels_related (d d' : nat -> nat -> Q) (pi : nat -> nat) (thr : Q)
    (n : nat) (i j : nat) :
  (forall x y, (d x y == d y x)%Q) ->
  (forall x y, (d' x y == d (pi x) (pi y))%Q) ->
  (forall x y, pi x = pi y -> x = y) ->
  (forall x, (x < n)%nat -> (pi x < n)%nat) ->
  (forall y, (y < n)%nat -> exists x, (x < n)%nat /\ pi x = y) ->
  tie_free d thr n (singletons n) = true ->
  (i < n)%nat -> (j < n)%nat ->
  (same_label (labels_of n (agglomerate d' thr n (singletons n))) i j <->
   same_label (labels_of n (agglomerate d thr n (singletons n))) (pi i) (pi j)).
Proof.
  intros Hsym Hd' Hinj Hrange Hsurj Htf Hi Hj.
  pose proof (run_related d d' pi thr Hsym Hd' Hinj n _ _
                (singletons_related pi n Hrange Hsurj) Htf) as Hrel.
  unfold same_label.
  rewrite !labels_of_nth by auto.
  rewrite !Nat2Z.inj_iff.
  pose proof Hrel as (Hv' & Hv & _ & _).
  assert (Hcov' : forall x, (x < n)%nat ->
            In x (List.concat (agglomerate d' thr n (singletons n)))).
  { intros x Hx.
    apply (Permutation_in _ (Permutation_sym
             (agglomerate_concat d' thr n _ (singletons_valid n)))).
    rewrite concat_singletons. apply in_seq. lia. }
  assert (Hcov : forall x, (x < n)%nat ->
            In x (List.concat (agglomerate d thr n (singletons n)))).
  { intros x Hx.
    apply (Permutation_in _ (Permutation_sym
             (agglomerate_concat d thr n _ (singletons_valid n)))).
    rewrite concat_singletons. apply in_seq. lia. }
  rewrite (cluster_index_same _ i j Hv') by auto.
  rewrite (cluster_index_same _ (pi i) (pi j) Hv) by auto.
  now apply same_cluster_related.
Qed.

(** *** Reorderings of the positions *)

Lemma is_permutation_spec (perm : list nat) (n : nat) :
  is_permutation perm n = true ->
  List.length perm = n /\ NoDup perm /\
  (forall i, In i perm <-> (i < n)%nat).
Proof.
  unfold is_permutation. intros H. apply andb_true_iff in H.
  destruct H as (Hlen & Hall). apply Nat.eqb_eq in Hlen.
  assert (Hincl : incl (seq 0 n) perm).
  { intros i Hi. rewrite forallb_forall in Hall.
    apply existsb_eqb_In. now apply Hall. }
  assert (Hle : (List.length perm <= List.length (seq 0 n))%nat)
    by (rewrite length_seq; lia).
  split; [exact Hlen|]. split.
  - apply (NoDup_incl_NoDup (seq_NoDup n 0) Hle Hincl).
  - intros i. split.
    + intros Hi.
      apply (NoDup_length_incl (seq_NoDup n 0) Hle Hincl) in Hi.
      apply in_seq in Hi. lia.
    + intros Hi. apply Hincl. apply in_seq. lia.
Qed.

Lemma apply_perm_range (perm : list nat) (n i : nat) :
  is_permutation perm n = true -> (i < n)%nat -> (apply_perm perm i < n)%nat.
Proof.
  intros H Hi. destruct (is_permutation_spec perm n H) as (Hlen & _ & Hin).
  apply Hin. unfold apply_perm. apply nth_In. lia.
Qed.

Lemma apply_perm_outside (perm : list nat) (n i : nat) :
  is_permutation perm n = true -> (n <= i)%nat -> apply_perm perm i = i.
Proof.
  intros H Hi. destruct (is_permutation_spec perm n H) as (Hlen & _).
  unfold apply_perm. apply nth_overflow. lia.
Qed.

Lemma apply_perm_ltb (perm : list nat) (n i : nat) :
  is_permutation perm n = true ->
  (apply_perm perm i <? n)%nat = (i <? n)%nat.
Proof.
  intros H. destruct (Nat.ltb_spec i n) as [Hi|Hi].
  - apply Nat.ltb_lt. now apply (apply_perm_range perm n).
  - rewrite (apply_perm_outside perm n i H Hi). now apply Nat.ltb_ge.
Qed.

Lemma apply_perm_inj (perm : list nat) (n i j : nat) :
  is_permutation perm n = true ->
  apply_perm perm i = apply_perm perm j -> i = j.
Proof.
  intros H E. pose proof (is_permutation_spec perm n H) as (Hlen & Hnd & _).
  pose proof (apply_perm_ltb perm n i H) as Hi.
  pose proof (apply_perm_ltb perm n j H) as Hj.
  rewrite E in Hi. rewrite Hi in Hj.
  destruct (Nat.ltb_spec i n) as [Hi'|Hi'];
    destruct (Nat.ltb_spec j n) as [Hj'|Hj']; try discriminate.
  - unfold apply_perm in E.
    rewrite (nth_indep perm i 0%nat), (nth_indep perm j 0%nat) in E by lia.
    apply (proj1 (NoDup_nth perm 0%nat) Hnd); [lia | lia | exact E].
  - now rewrite !(apply_perm_outside perm n _ H) in E.
Qed.

Lemma apply_perm_surj (perm : list nat) (n j : nat) :
  is_permutation perm n = true -> (j < n)%nat ->
  exists i, (i < n)%nat /\ apply_perm perm i = j.
Proof.
  intros H Hj. destruct (is_permutation_spec perm n H) as (Hlen & _ & Hin).
  apply Hin in Hj. destruct (In_nth perm j 0%nat Hj) as (i & Hi & E).
  exists i. split; [lia|]. unfold apply_perm.
  now rewrite (nth_indep perm i 0%nat) by lia.
Qed.

(** *** Entries of the distance matrix *)

Lemma dot_nil_r (u : list Q) : dot u [] = 0%Q.
Proof. unfold dot. now destruct u. Qed.

Lemma dot_sym (u v : list Q) : (dot u v == dot v u)%Q.
Proof.
  unfold dot. revert v; induction u as [|x u IH]; intros [|y v]; simpl;
    try reflexivity.
  rewrite IH. now rewrite (Qmult_comm x y).
Qed.

Lemma gram_entry (f : list Q -> list Q -> Q) (X : list (list Q)) (i j : nat) :
  matrix_entry (gram f X) i j
  = if (i <? List.length X)%nat && (j <? List.length X)%nat
    then f (nth i X []) (nth j X []) else 0%Q.
Proof.
  unfold matrix_entry, gram.
  destruct (Nat.ltb_spec i (List.length X)) as [Hi|Hi]; simpl.
  - rewrite (nth_indep _ [] ((fun u => map (fun v => f u v) X) []))
      by (now rewrite length_map).
    rewrite (map_nth (fun u => map (fun v => f u v) X)).
    destruct (Nat.ltb_spec j (List.length X)) as [Hj|Hj].
    + rewrite (nth_indep _ 0%Q ((fun v => f (nth i X []) v) []))
        by (now rewrite length_map).
      now rewrite (map_nth (fun v => f (nth i X []) v)).
    + apply nth_overflow. now rewrite length_map.
  - rewrite (nth_overflow (map _ X)) by (now rewrite length_map).
    now destruct j.
Qed.

Lemma gram_length (f : list Q -> list Q -> Q) (X : list (list Q)) :
  List.length (gram f X) = List.length X.
Proof. unfold gram. now rewrite length_map. Qed.

Lemma gram_square (f : list Q -> list Q -> Q) (X : list (list Q)) :
  forallb (fun row => Nat.eqb (List.length row) (List.length (gram f X)))
          (gram f X) = true.
Proof.
  rewrite gram_length. unfold gram. apply forallb_forall. intros row Hrow.
  apply in_map_iff in Hrow. destruct Hrow as (u & <- & _).
  rewrite length_map. apply Nat.eqb_refl.
Qed.

Lemma distance_entry_sym (u v : list Q) : distance_entry u v = distance_entry v u.
Proof.
  unfold distance_entry.
  now rewrite (Qred_complete _ _ (dot_sym (normalize_row u) (normalize_row v))).
Qed.

Lemma cosine_similarity_gram (X : list (list Q)) :
  cosine_similarity X
  = Ok (gram (fun u v => Qred (dot (normalize_row u) (normalize_row v))) X)
  \/ exists e, cosine_similarity X = Raise e.
Proof.
  unfold cosine_similarity. destruct X as [|r X']; [right; eauto|].
  destruct (Nat.eqb (List.length r) 0); [right; eauto|].
  left. f_equal. cbv zeta. generalize (r :: X'). intros Y. unfold gram.
  rewrite map_map. apply map_ext. intros u. now rewrite map_map.
Qed.

Lemma distance_matrix_gram (X M : list (list Q)) :
  cosine_similarity X = Ok M -> distance_matrix_of M = gram distance_entry X.
Proof.
  intros H. destruct (cosine_similarity_gram X) as [E|(e & E)];
    [|congruence].
  rewrite E in H. injection H as <-. unfold distance_matrix_of, gram.
  rewrite map_map. apply map_ext. intros u. now rewrite map_map.
Qed.

Lemma condensed_gram (X : list (list Q)) (i j : nat) :
  condensed (gram distance_entry X) i j
  = matrix_entry (gram distance_entry X) i j.
Proof.
  unfold condensed. destruct (i <? j)%nat; [reflexivity|].
  rewrite !gram_entry, distance_entry_sym.
  now rewrite andb_comm.
Qed.

Lemma nth_permuted {A : Type} (perm : list nat) (l : list A) (d : A) (i : nat) :
  (i < List.length perm)%nat ->
  nth i (map (fun k => nth k l d) perm) d = nth (apply_perm perm i) l d.
Proof.
  intros Hi. unfold apply_perm.
  rewrite (nth_indep _ d ((fun k => nth k l d) i)) by (now rewrite length_map).
  now rewrite (map_nth (fun k => nth k l d)).
Qed.

Lemma condensed_permuted (perm : list nat) (X : list (list Q)) (i j : nat) :
  is_permutation perm (List.length X) = true ->
  condensed (gram distance_entry (map (fun k => nth k X []) perm)) i j
  = condensed (gram distance_entry X) (apply_perm perm i) (apply_perm perm j).
Proof.
  intros H. destruct (is_permutation_spec _ _ H) as (Hlen & _).
  rewrite !condensed_gram, !gram_entry, length_map, Hlen.
  rewrite !(apply_perm_ltb perm _ _ H).
  destruct (Nat.ltb_spec i (List.length X)) as [Hi|Hi]; [|reflexivity].
  destruct (Nat.ltb_spec j (List.length X)) as [Hj|Hj]; [|reflexivity].
  simpl. now rewrite !nth_permuted by lia.
Qed.

(** *** The reordered batch goes through the same stages *)

Lemma embeddings_of_nth (articles : list article) (es : list (list Q))
    (a0 : article) (i : nat) :
  embeddings_of articles = Ok es -> (i < List.length articles)%nat ->
  embedding (nth i articles a0) = Some (nth i es []).
Proof.
  revert es i; induction articles as [|a rest IH]; intros es i H Hi;
    simpl in *; [lia|].
  destruct (embedding a) as [e|] eqn:Ea; [|discriminate].
  inv_bind H. inversion H; subst; clear H.
  destruct i as [|i]; simpl; [exact Ea|]. apply IH; [exact Hx | lia].
Qed.

Lemma embeddings_of_permuted (articles : list article) (es : list (list Q))
    (a0 : article) (perm : list nat) :
  embeddings_of articles = Ok es ->
  (forall i, In i perm -> (i < List.length articles)%nat) ->
  embeddings_of (map (fun i => nth i articles a0) perm)
  = Ok (map (fun i => nth i es []) perm).
Proof.
  intros Hes. induction perm as [|k perm IH]; intros Hin; simpl; [reflexivity|].
  rewrite (embeddings_of_nth articles es a0 k Hes) by (apply Hin; now left).
  rewrite IH by (intros i Hi; apply Hin; now right). reflexivity.
Qed.

Lemma np_array_rows (es X : list (list Q)) :
  np_array es = Ok X ->
  exists L, Forall (fun e => List.length e = L) es.
Proof.
  destruct es as [|r rest]; simpl; [exists 0%nat; constructor|].
  destruct (forallb _ rest) eqn:E; [|discriminate]. intros _.
  exists (List.length r). constructor; [reflexivity|].
  apply Forall_forall. intros e He. rewrite forallb_forall in E.
  apply Nat.eqb_eq. now apply E.
Qed.

Lemma cosine_similarity_defined (X : list (list Q)) (L : nat) :
  X <> [] -> L <> 0%nat -> Forall (fun e => List.length e = L) X ->
  cosine_similarity X
  = Ok (gram (fun u v => Qred (dot (normalize_row u) (normalize_row v))) X).
Proof.
  intros Hne HL Hall. destruct (cosine_similarity_gram X) as [E|(e & E)];
    [exact E|]. exfalso.
  unfold cosine_similarity in E. destruct X as [|r X']; [congruence|].
  inversion Hall; subst.
  destruct (Nat.eqb_spec (List.length r) 0); [contradiction | discriminate].
Qed.

Lemma cosine_similarity_dimension (X M : list (list Q)) (L : nat) :
  cosine_similarity X = Ok M -> Forall (fun e => List.length e = L) X ->
  X <> [] /\ L <> 0%nat.
Proof.
  unfold cosine_similarity. destruct X as [|r X']; [discriminate|].
  destruct (Nat.eqb_spec (List.length r) 0) as [|Hr]; [discriminate|].
  intros _ Hall. inversion Hall; subst. split; [discriminate | exact Hr].
Qed.

Lemma fit_predict_gram (f : list Q -> list Q -> Q) (X : list (list Q)) (t : Q) :
  fit_predict (gram f X) t
  = if (List.length X <? 2)%nat then Raise ValueError
    else Ok (labels_of (List.length X)
               (agglomerate (condensed (gram f X)) t (List.length X)
                  (singletons (List.length X)))).
Proof.
  unfold fit_predict. rewrite gram_square. simpl negb. cbv iota.
  now rewrite gram_length.
Qed.

Lemma condensed_gram_sym (X : list (list Q)) (i j : nat) :
  condensed (gram distance_entry X) i j = condensed (gram distance_entry X) j i.
Proof.
  rewrite !condensed_gram, !gram_entry, distance_entry_sym.
  now rewrite andb_comm.
Qed.

(** The clustering stage on a batch whose embeddings are [es]. *)
Lemma perform_duplicate_clustering_inv (articles : list article)
    (threshold : Q) (labels : list Z) :
  perform_duplicate_clustering articles threshold = Ok labels ->
  exists es L,
    embeddings_of articles = Ok es /\
    Forall (fun e => List.length e = L) es /\ L <> 0%nat /\
    (2 <= List.length es)%nat /\
    similarity_matrix articles
      = Ok (gram (fun u v => Qred (dot (normalize_row u) (normalize_row v))) es) /\
    labels = labels_of (List.length es)
               (agglomerate (condensed (gram distance_entry es))
                  (1 - threshold)%Q (List.length es)
                  (singletons (List.length es))).
Proof.
  unfold perform_duplicate_clustering. intros H. inv_bind H.
  pose proof Hx as Hsim. unfold similarity_matrix in Hx.
  inv_bind Hx. inv_bind Hx.
  destruct (np_array_rows _ _ Hx1) as (L & HL).
  apply np_array_ok in Hx1. subst x1.
  destruct (cosine_similarity_dimension _ _ L Hx HL) as (Hne & HL0).
  rewrite (distance_matrix_gram _ _ Hx) in H.
  rewrite fit_predict_gram in H.
  destruct (Nat.ltb_spec (List.length x0) 2) as [|Hn]; [discriminate|].
  exists x0, L. repeat split; try assumption.
  - rewrite Hsim. f_equal.
    rewrite (cosine_similarity_defined x0 L Hne HL0 HL) in Hx. congruence.
  - congruence.
Qed.

Lemma perform_duplicate_clustering_defined (articles : list article)
    (threshold : Q) (es : list (list Q)) (L : nat) :
  embeddings_of articles = Ok es ->
  Forall (fun e => List.length e = L) es -> L <> 0%nat ->
  (2 <= List.length es)%nat ->
  perform_duplicate_clustering articles threshold
  = Ok (labels_of (List.length es)
          (agglomerate (condensed (gram distance_entry es))
             (1 - threshold)%Q (List.length es)
             (singletons (List.length es)))).
Proof.
  intros Hes HL HL0 Hn.
  assert (Hne : es <> []) by (destruct es; [simpl in Hn; lia | discriminate]).
  unfold perform_duplicate_clustering, similarity_matrix.
  rewrite Hes. simpl bind. rewrite (np_array_rectangular L es HL). simpl bind.
  pose proof (cosine_similarity_defined es L Hne HL0 HL) as Hcos.
  rewrite Hcos. simpl bind.
  rewrite (distance_matrix_gram _ _ Hcos), fit_predict_gram.
  destruct (Nat.ltb_spec (List.length es) 2); [lia | reflexivity].
Qed.

(** C8 (amended): when no merge of the run on the original batch had to
    choose between equally close pairs of clusters, duplicate clustering of
    any reordering of the batch succeeds as well and groups the same articles
    together: positions [i] and [j] of the reordered batch carry one label
    exactly when the positions the two articles had in the original batch
    do (labels may be renumbered). *)
Theorem duplicate_clustering_invariant_without_ties (articles : list article)
    (perm : list nat) (threshold : Q) (labels : list Z) :
  is_permutation perm (List.length articles) = true ->
  perform_duplicate_clustering articles threshold = Ok labels ->
  tie_free_clustering articles threshold = true ->
  exists labels',
    perform_duplicate_clustering (permute perm articles) threshold = Ok labels' /\
    forall i j, (i < List.length articles)%nat -> (j < List.length articles)%nat ->
      (same_label labels' i j <->
       same_label labels (apply_perm perm i) (apply_perm perm j)).
Proof.
  intros Hperm Hrun Htf.
  destruct (perform_duplicate_clustering_inv _ _ _ Hrun)
    as (es & L & Hes & HL & HL0 & Hn & Hsim & ->).
  pose proof (embeddings_of_length _ _ Hes) as Hlen. rewrite <- Hlen in *.
  destruct (is_permutation_spec _ _ Hperm) as (Hplen & _ & Hpin).
  destruct articles as [|a0 rest]; [simpl in Hlen; lia|].
  set (es' := map (fun k => nth k es []) perm).
  assert (Hes' : embeddings_of (permute perm (a0 :: rest)) = Ok es').
  { unfold permute. apply embeddings_of_permuted; [exact Hes|].
    intros i Hi. rewrite <- Hlen. now apply Hpin. }
  assert (HL' : Forall (fun e => List.length e = L) es').
  { apply Forall_forall. intros e He. unfold es' in He.
    apply in_map_iff in He. destruct He as (k & <- & Hk).
    rewrite Forall_forall in HL. apply HL, nth_In. now apply Hpin. }
  assert (Hlen' : List.length es' = List.length es)
    by (unfold es'; now rewrite length_map).
  eexists. split.
  - rewrite (perform_duplicate_clustering_defined _ threshold es' L Hes' HL' HL0)
      by lia.
    reflexivity.
  - intros i j Hi Hj. rewrite Hlen'.
    apply (labels_related (condensed (gram distance_entry es))
             (condensed (gram distance_entry es')) (apply_perm perm)).
    + intros x y. now rewrite condensed_gram_sym.
    + intros x y. unfold es'. now rewrite condensed_permuted.
    + intros x y. apply (apply_perm_inj perm _ x y Hperm).
    + intros x. apply (apply_perm_range perm _ x Hperm).
    + intros y. apply (apply_perm_surj perm _ y Hperm).
    + unfold tie_free_clustering in Htf. rewrite Hsim in Htf.
      rewrite gram_length in Htf.
      replace (distance_matrix_of _) with (gram distance_entry es) in Htf;
        [exact Htf|].
      unfold distance_matrix_of, gram. rewrite map_map.
      apply map_ext. intros u. now rewrite map_map.
    + exact Hi.
    + exact Hj.
Qed.

Lemma duplicate_clustering_invariant_without_ties_witness :
  exists labels',
    perform_duplicate_clustering (permute [2; 0; 1]%nat spread_articles)
      (85 # 100)%Q = Ok labels' /\
    forall i j, (i < List.length spread_articles)%nat ->
                (j < List.length spread_articles)%nat ->
      (same_label labels' i j <->
       same_label [0; 0; 1]%Z (apply_perm [2; 0; 1]%nat i)
                  (apply_perm [2; 0; 1]%nat j)).
Proof.
  apply (duplicate_clustering_invariant_without_ties spread_articles
           [2; 0; 1]%nat (85 # 100)%Q [0; 0; 1]%Z).
  - vm_compute. reflexivity.
  - vm_compute. reflexivity.
  - vm_compute. reflexivity.
Defined.

Example spread_articles_reordered :
  perform_duplicate_clustering (permute [2; 0; 1]%nat spread_articles)
    (85 # 100)%Q = Ok [1; 0; 0]%Z.
Proof. vm_compute. reflexivity. Qed.

(** ** The frequency term and the diagonal of the similarity matrix *)

(** C1, as stated, fails: the frequency term is the whole row sum of
    [sim_matrix > threshold], diagonal included.  A category holding a single
    article without keywords scores 1, not 0. *)
Lemma frequency_term_counts_the_article_itself :
  ~ (forall articles thr sim scores i a0,
       similarity_matrix articles = Ok sim ->
       get_scores articles thr = Ok scores ->
       (i < List.length articles)%nat ->
       nth i scores 0 =
       count_above_others thr i (nth i sim []) + keyword_boost (nth i articles a0)).
Proof.
  intros H.
  set (a := doc "a1" "Cup final" "" [1; 0]%Q "sports").
  specialize (H [a] (9 # 10)%Q [[1%Q]] [1] O a eq_refl eq_refl (Nat.lt_0_succ 0)).
  vm_compute in H. discriminate.
Qed.

(** C1 (amended): for every article of a category, the composite score is the
    number of OTHER same-category articles whose cosine similarity to it
    exceeds the threshold, plus 1 when the article's similarity to itself
    exceeds the threshold (the diagonal of the matrix is counted too), plus
    the keyword boost of 5 when title + text holds a highlight phrase. *)
Theorem composite_score_includes_self (db : collection) (category : string)
    (thr : Q) (sim : list (list Q)) (i : nat) (a0 : article) :
  let articles := find (in_category category) db in
  similarity_matrix articles = Ok sim ->
  (i < List.length articles)%nat ->
  exists scores,
    get_scores articles thr = Ok scores /\
    nth i scores 0 =
      count_above_others thr i (nth i sim [])
      + (if above thr (matrix_entry sim i i) then 1 else 0)
      + (if has_keywords (nth i articles a0) then 5 else 0).
Proof.
  intros articles Hsim Hi.
  exists (composite_scores articles sim thr). split.
  - unfold get_scores. rewrite Hsim. reflexivity.
  - rewrite (composite_scores_nth articles sim thr i a0);
      [| now apply similarity_matrix_length | exact Hi].
    rewrite (count_above_self thr i)
      by (rewrite (similarity_matrix_row_length articles); assumption).
    reflexivity.
Qed.

Lemma composite_score_includes_self_witness :
  let articles := find (in_category "sports") sample_store in
  exists scores,
    get_scores articles (9 # 10)%Q = Ok scores /\
    nth 2 scores 0 =
      count_above_others (9 # 10)%Q 2 (nth 2 [[1; 1; 0]; [1; 1; 0]; [0; 0; 1]]%Q [])
      + (if above (9 # 10)%Q
              (matrix_entry [[1; 1; 0]; [1; 1; 0]; [0; 0; 1]]%Q 2 2)
         then 1 else 0)
      + (if has_keywords (nth 2 articles (doc "a0" "" "" [] "")) then 5 else 0).
Proof.
  apply (composite_score_includes_self sample_store "sports" (9 # 10)%Q
           [[1; 1; 0]; [1; 1; 0]; [0; 0; 1]]%Q 2 (doc "a0" "" "" [] "")).
  - vm_compute. reflexivity.
  - vm_compute. lia.
Defined.

Example sample_store_scores :
  get_scores (find (in_category "sports") sample_store) (9 # 10)%Q
  = Ok [2; 2; 6].
Proof. vm_compute. reflexivity. Qed.

(** ** Further facts about the stages *)

(** X1: the batches of duplicate detection, topic grouping and topic labeling
    come from [fetch_articles_with_embeddings]: they hold no article without
    an embedding, and reading their embeddings never raises. *)
Theorem fetched_batch_is_embedded (db : collection) :
  Forall (fun a => has_embedding a = true) (fetch_articles_with_embeddings db) /\
  (forall a, In a db -> embedding a = None ->
             ~ In a (fetch_articles_with_embeddings db)) /\
  exists es, embeddings_of (fetch_articles_with_embeddings db) = Ok es.
Proof.
  unfold fetch_articles_with_embeddings, find. split; [|split].
  - apply Forall_forall. intros a Ha. now apply filter_In in Ha.
  - intros a _ He Ha. apply filter_In in Ha. destruct Ha as (_ & Ha).
    unfold has_embedding in Ha. rewrite He in Ha. discriminate.
  - induction db as [|a db (es & IH)]; simpl; [now exists []|].
    unfold has_embedding at 1. destruct (embedding a) as [e|] eqn:E; simpl.
    + rewrite E, IH. simpl. now exists (e :: es).
    + now exists es.
Qed.

(** X2: [top_k = 0] does not select nothing: [[-0:]] is the whole array, so the
    selection is the full ranking. *)
Theorem top_k_zero_selects_everything (freq_scores : list Z) :
  top_indices freq_scores 0 = ranking freq_scores /\
  List.length (top_indices freq_scores 0) = List.length freq_scores.
Proof.
  assert (E : top_indices freq_scores 0 = ranking freq_scores).
  { unfold top_indices, slice_last, ranking.
    generalize (argsort freq_scores). intros l.
    assert (Hstart : Z.to_nat (Z.min (- 0) (Z.of_nat (List.length l))) = 0%nat)
      by lia.
    change (0 <? 0) with false. cbv iota zeta. now rewrite Hstart. }
  split; [exact E|]. rewrite E. apply ranking_length.
Qed.

(** The assertions of [test_perform_duplicate_clustering] on its fixture:
    one label per article, [a1] with [a2], [a3] with [a4]. *)
Example test_fixture_is_clustered :
  exists labels,
    perform_duplicate_clustering DUMMY_ARTICLES (85 # 100)%Q = Ok labels /\
    same_label labels 0 1 /\ same_label labels 2 3 /\
    List.length labels = List.length DUMMY_ARTICLES.
Proof.
  exists [1; 1; 0; 0; 1]%Z. split; [vm_compute; reflexivity|].
  repeat split.
Qed.

(** ** The keyword boost, read as a substring test *)

Lemma prefix_occurs (kw s : string) :
  prefix kw s = true <-> exists post : string, s = (kw ++ post)%string.
Proof.
  revert s; induction kw as [|c kw IH]; intros s.
  - split; [intros _; now exists s | intros _; now destruct s].
  - destruct s as [|c' s]; simpl.
    + split; [discriminate | intros (post & E); discriminate].
    + destruct (ascii_dec c c') as [->|Hne].
      * rewrite IH. split; intros (post & E); exists post;
          [now rewrite E | now inversion E].
      * split; [discriminate | intros (post & E); inversion E; congruence].
Qed.

Lemma contains_occurs (kw s : string) :
  contains kw s = true <-> occurs_in kw s.
Proof.
  unfold occurs_in.
  induction s as [|c s IH]; rewrite contains_eq, orb_true_iff.
  - split.
    + intros [H|H]; [|discriminate].
      apply prefix_occurs in H. destruct H as (post & E).
      now exists EmptyString, post.
    + intros (pre & post & E). left. apply prefix_occurs.
      destruct pre; simpl in E; [now exists post | discriminate].
  - rewrite IH. split.
    + intros [H|(pre & post & E)].
      * apply prefix_occurs in H. destruct H as (post & E).
        now exists EmptyString, post.
      * exists (String c pre), post. simpl. now rewrite E.
    + intros (pre & post & E). destruct pre as [|c' pre]; simpl in E.
      * left. apply prefix_occurs. now exists post.
      * right. inversion E. now exists pre, post.
Qed.

Lemma string_app_assoc (s r u : string) :
  ((s ++ r) ++ u)%string = (s ++ r ++ u)%string.
Proof. induction s as [|c s IH]; simpl; [reflexivity | now rewrite IH]. Qed.

(** X4: the keyword boost is 5 exactly when one of the five phrases is a
    substring of the lower-cased concatenation of title and text (a missing
    field counts as the empty string), and 0 otherwise.  Title and text are
    joined without a separator, so a phrase that starts at the end of the
    title and ends at the start of the text is found as well. *)
Theorem keyword_boost_iff_phrase_occurs (a : article) :
  (keyword_boost a = 5 <->
   exists kw, In kw HIGHLIGHT_KEYWORDS /\
     occurs_in kw
       (lower (get_or_empty (title a) ++ get_or_empty (text a))%string)) /\
  (keyword_boost a = 0 \/ keyword_boost a = 5) /\
  (forall (t x k1 k2 pre post : string),
     title a = Some t -> text a = Some x ->
     In (k1 ++ k2)%string HIGHLIGHT_KEYWORDS ->
     lower t = (pre ++ k1)%string -> lower x = (k2 ++ post)%string ->
     keyword_boost a = 5).
Proof.
  assert (Hiff : keyword_boost a = 5 <->
     exists kw, In kw HIGHLIGHT_KEYWORDS /\
       occurs_in kw
         (lower (get_or_empty (title a) ++ get_or_empty (text a))%string)).
  { unfold keyword_boost, has_keywords, is_highlight_keyword_present.
    destruct (existsb _ HIGHLIGHT_KEYWORDS) eqn:E.
    - split; [intros _ | reflexivity].
      apply existsb_exists in E. destruct E as (kw & Hin & Hc).
      exists kw. split; [exact Hin | now apply contains_occurs].
    - split; [discriminate|]. intros (kw & Hin & Hocc).
      apply contains_occurs in Hocc.
      assert (Ht : existsb
                (fun kw => contains kw
                   (lower (get_or_empty (title a) ++ get_or_empty (text a))%string))
                HIGHLIGHT_KEYWORDS = true)
        by (apply existsb_exists; now exists kw).
      congruence. }
  split; [exact Hiff|]. split.
  - unfold keyword_boost. destruct (has_keywords a); auto.
  - intros t x k1 k2 pre post Ht Hx Hin Hpre Hpost.
    apply Hiff. exists (k1 ++ k2)%string. split; [exact Hin|].
    exists pre, post. rewrite Ht, Hx. simpl. rewrite lower_app, Hpre, Hpost.
    now rewrite !string_app_assoc.
Qed.

(** ** Scores and errors of the ranker *)

Lemma keyword_boost_range (a : article) : 0 <= keyword_boost a <= 5.
Proof. unfold keyword_boost. destruct (has_keywords a); lia. Qed.

Lemma count_above_range (thr : Q) (row : list Q) :
  0 <= count_above thr row <= Z.of_nat (List.length row).
Proof.
  unfold count_above. split; [lia|].
  apply inj_le. apply filter_length_le.
Qed.

(** X5: when scoring succeeds there is one score per article, and every
    score lies between 0 and the size of the batch plus the boost of 5. *)
Theorem scores_are_bounded (articles : list article) (thr : Q)
    (scores : list Z) :
  get_scores articles thr = Ok scores ->
  List.length scores = List.length articles /\
  Forall (fun s => 0 <= s <= Z.of_nat (List.length articles) + 5) scores.
Proof.
  intros H. unfold get_scores in H.
  destruct (similarity_matrix articles) as [sim|e] eqn:Hsim; simpl in H;
    [|discriminate].
  injection H as <-.
  pose proof (similarity_matrix_length _ _ Hsim) as Hlen.
  split.
  - unfold composite_scores. rewrite length_map, length_combine. lia.
  - apply Forall_forall. intros s Hs.
    destruct (In_nth _ _ 0 Hs) as (i & Hi & <-).
    assert (Hi' : (i < List.length articles)%nat).
    { unfold composite_scores in Hi.
      rewrite length_map, length_combine in Hi. lia. }
    destruct articles as [|a0 rest]; [simpl in Hi'; lia|].
    rewrite (composite_scores_nth _ _ _ _ a0 Hlen Hi').
    pose proof (count_above_range thr (nth i sim [])) as Hc.
    rewrite (similarity_matrix_row_length _ _ _ Hsim Hi') in Hc.
    pose proof (keyword_boost_range (nth i (a0 :: rest) a0)). lia.
Qed.

Lemma scores_are_bounded_witness :
  List.length [2; 2; 6] = List.length (find (in_category "sports") sample_store) /\
  Forall (fun s => 0 <= s <=
            Z.of_nat (List.length (find (in_category "sports") sample_store)) + 5)
         [2; 2; 6].
Proof.
  apply (scores_are_bounded (find (in_category "sports") sample_store)
           (9 # 10)%Q).
  vm_compute. reflexivity.
Defined.

Lemma embeddings_of_raises (articles : list article) (e : error) :
  embeddings_of articles = Raise e ->
  e = KeyError /\ exists a, In a articles /\ embedding a = None.
Proof.
  induction articles as [|a rest IH]; simpl; [discriminate|].
  destruct (embedding a) as [v|] eqn:E.
  - destruct (embeddings_of rest) as [es|e'] eqn:Er; simpl; [discriminate|].
    intros H. injection H as ->.
    destruct (IH eq_refl) as (He & b & Hb & Hn).
    split; [exact He|]. exists b. split; [now right | exact Hn].
  - intros H. injection H as <-. split; [reflexivity|].
    exists a. split; [now left | exact E].
Qed.

Lemma embeddings_of_missing (articles : list article) (a : article) :
  In a articles -> embedding a = None ->
  embeddings_of articles = Raise KeyError.
Proof.
  induction articles as [|a0 rest IH]; simpl; [easy|].
  intros [->|Hin] Hn.
  - now rewrite Hn.
  - destruct (embedding a0); [|reflexivity].
    now rewrite (IH Hin Hn).
Qed.

Lemma np_array_raises (es : list (list Q)) (e : error) :
  np_array es = Raise e -> e = ValueError.
Proof.
  destruct es as [|r rest]; simpl; [discriminate|].
  destruct (forallb _ rest); [discriminate|]. now intros [= <-].
Qed.

Lemma cosine_similarity_raises (X : list (list Q)) (e : error) :
  cosine_similarity X = Raise e -> e = ValueError.
Proof.
  destruct X as [|r rest]; simpl; [now intros [= <-]|].
  destruct (Nat.eqb (List.length r) 0); [now intros [= <-] | discriminate].
Qed.

Lemma embeddings_of_dimension (articles : list article) (es : list (list Q))
    (L : nat) :
  embeddings_of articles = Ok es ->
  Forall (fun e => List.length e = L) es ->
  embedded_in_dimension L articles.
Proof.
  unfold embedded_in_dimension.
  revert es; induction articles as [|a rest IH]; intros es; simpl;
    [constructor|].
  destruct (embedding a) as [v|] eqn:E; [|discriminate].
  destruct (embeddings_of rest) as [es'|] eqn:Er; simpl; [|discriminate].
  intros [= <-] Hall. inversion Hall; subst.
  constructor; [now exists v | now apply (IH es')].
Qed.

Lemma get_scores_raises (articles : list article) (thr : Q) (e : error) :
  get_scores articles thr = Raise e ->
  (e = KeyError /\ exists a, In a articles /\ embedding a = None) \/
  (e = ValueError /\ exists es, embeddings_of articles = Ok es).
Proof.
  unfold get_scores, similarity_matrix.
  destruct (embeddings_of articles) as [es|e1] eqn:Hes; simpl.
  - intros H. right. split; [|now exists es].
    destruct (np_array es) as [X|e2] eqn:HX; simpl in H.
    + destruct (cosine_similarity X) as [M|e3] eqn:HM; simpl in H;
        [discriminate|].
      injection H as <-. now apply (cosine_similarity_raises X).
    + injection H as <-. now apply (np_array_raises es).
  - intros [= <-]. left. now apply embeddings_of_raises.
Qed.

Lemma get_scores_ok_dimension (articles : list article) (thr : Q)
    (scores : list Z) :
  get_scores articles thr = Ok scores ->
  exists D, (1 <= D)%nat /\ embedded_in_dimension D articles.
Proof.
  unfold get_scores, similarity_matrix.
  destruct (embeddings_of articles) as [es|] eqn:Hes; simpl; [|discriminate].
  destruct (np_array es) as [X|] eqn:HX; simpl; [|discriminate].
  destruct (cosine_similarity X) as [M|] eqn:HM; simpl; [|discriminate].
  intros _.
  destruct (np_array_rows _ _ HX) as (L & HL).
  pose proof (np_array_ok _ _ HX) as ->.
  destruct (cosine_similarity_dimension _ _ L HM HL) as (_ & HL0).
  exists L. split; [lia|]. now apply (embeddings_of_dimension _ es).
Qed.

(** X6: the ranker fails only on the embeddings of the category.  It raises
    [KeyError] exactly when an article of the category has no embedding, it
    returns normally exactly when all of them carry embeddings of one
    dimension of at least 1 (an empty category included), and the only other
    error it can raise is the [ValueError] of the numeric libraries. *)
Theorem highlights_fail_only_on_bad_embeddings (db : collection)
    (category : string) (top_k : Z) (thr : Q) :
  (get_highlights db category top_k thr = Raise KeyError <->
   exists a, In a db /\ in_category category a = true /\ embedding a = None) /\
  (is_ok (get_highlights db category top_k thr) = true <->
   exists D, (1 <= D)%nat /\
     embedded_in_dimension D (find (in_category category) db)) /\
  (forall e, get_highlights db category top_k thr = Raise e ->
     e = KeyError \/ e = ValueError).
Proof.
  unfold get_highlights.
  assert (Hmiss : (exists a, In a db /\ in_category category a = true /\
                             embedding a = None) <->
                  exists a, In a (find (in_category category) db) /\
                            embedding a = None).
  { unfold find. split.
    - intros (a & Ha & Hc & Hn). exists a. split; [|exact Hn].
      apply filter_In. now split.
    - intros (a & Ha & Hn). apply filter_In in Ha. destruct Ha as (Ha & Hc).
      now exists a. }
  rewrite Hmiss. clear Hmiss.
  destruct (find (in_category category) db) as [|a0 rest] eqn:Hfind.
  - split; [|split].
    + split; [discriminate | intros (a & [] & _)].
    + split; [intros _ | reflexivity]. exists 1%nat. split; [lia|constructor].
    + discriminate.
  - destruct (get_scores (a0 :: rest) thr) as [scores|e0] eqn:Hs; simpl.
    + split; [|split].
      * split; [discriminate|]. intros (a & Ha & Hn).
        pose proof (embeddings_of_missing (a0 :: rest) a Ha Hn) as Hm.
        unfold get_scores, similarity_matrix in Hs.
        rewrite Hm in Hs. discriminate.
      * split; [intros _ | reflexivity].
        now apply (get_scores_ok_dimension _ thr scores).
      * discriminate.
    + destruct (get_scores_raises _ _ _ Hs) as [(-> & Hex)|(-> & es & Hes)].
      * split; [|split].
        -- split; [now intros _ | reflexivity].
        -- split; [discriminate|]. intros (D & HD & Hwf).
           destruct (get_scores_well_formed D a0 rest thr HD Hwf)
             as (sc & Hsc & _). congruence.
        -- intros e [= <-]. now left.
      * split; [|split].
        -- split; [discriminate|]. intros (a & Ha & Hn).
           pose proof (embeddings_of_missing (a0 :: rest) a Ha Hn) as Hm.
           congruence.
        -- split; [discriminate|]. intros (D & HD & Hwf).
           destruct (get_scores_well_formed D a0 rest thr HD Hwf)
             as (sc & Hsc & _). congruence.
        -- intros e [= <-]. now right.
Qed.

(** ** The selection *)

Lemma argsort_length (v : list Z) : List.length (argsort v) = List.length v.
Proof.
  rewrite (Permutation_length (argsort_perm v)). apply length_seq.
Qed.

Lemma top_indices_count (v : list Z) (top_k : Z) :
  List.length (top_indices v top_k)
  = if 0 <? top_k then Nat.min (Z.to_nat top_k) (List.length v)
    else (List.length v - Z.to_nat (- top_k))%nat.
Proof.
  unfold top_indices, slice_last.
  rewrite length_rev, length_skipn, argsort_length.
  destruct (Z.ltb_spec 0 top_k); lia.
Qed.

Lemma top_indices_prefix (v : list Z) (top_k : Z) :
  top_indices v top_k
  = firstn (List.length (top_indices v top_k)) (ranking v).
Proof.
  rewrite top_indices_count.
  unfold top_indices, slice_last, ranking.
  rewrite firstn_rev, argsort_length. do 2 f_equal.
  pose proof (argsort_length v).
  destruct (Z.ltb_spec 0 top_k); lia.
Qed.

Lemma sorted_app_related {A : Type} (R : A -> A -> Prop) (l1 l2 : list A)
    (x y : A) :
  StronglySorted R (l1 ++ l2) -> In x l1 -> In y l2 -> R x y.
Proof.
  induction l1 as [|a l1 IH]; simpl; intros Hs Hx Hy; [easy|].
  apply StronglySorted_inv in Hs. destruct Hs as (Hs & Hall).
  destruct Hx as [->|Hx]; [|now apply IH].
  rewrite Forall_forall in Hall. apply Hall. apply in_or_app. now right.
Qed.

(** X8: no article left out of the selection outscores a selected one,
    whatever [top_k] is. *)
Theorem selected_scores_dominate (freq_scores : list Z) (top_k : Z)
    (i j : nat) :
  In i (top_indices freq_scores top_k) ->
  (j < List.length freq_scores)%nat ->
  ~ In j (top_indices freq_scores top_k) ->
  score_at freq_scores j <= score_at freq_scores i.
Proof.
  intros Hi Hj Hnj.
  rewrite top_indices_prefix in Hi, Hnj.
  set (m := List.length (top_indices freq_scores top_k)) in *.
  assert (Hin : In j (ranking freq_scores)).
  { apply (Permutation_in j (Permutation_sym (ranking_perm freq_scores))).
    apply in_seq. lia. }
  rewrite <- (firstn_skipn m (ranking freq_scores)) in Hin.
  apply in_app_or in Hin. destruct Hin as [Hin|Hin]; [contradiction|].
  pose proof (ranking_sorted freq_scores) as Hs.
  rewrite <- (firstn_skipn m (ranking freq_scores)) in Hs.
  destruct (sorted_app_related _ _ _ i j Hs Hi Hin) as [Hlt|(Heq & _)]; lia.
Qed.

Lemma selected_scores_dominate_witness :
  score_at [2; 7; 2; 3] 0 <= score_at [2; 7; 2; 3] 3.
Proof.
  apply (selected_scores_dominate [2; 7; 2; 3] 2 3 0).
  - vm_compute. auto.
  - vm_compute. lia.
  - vm_compute. intros [H|[H|[]]]; discriminate.
Defined.

Lemma get_scores_length (articles : list article) (thr : Q) (scores : list Z) :
  get_scores articles thr = Ok scores ->
  List.length scores = List.length articles.
Proof.
  unfold get_scores.
  destruct (similarity_matrix articles) as [sim|] eqn:Hsim; simpl;
    [|discriminate].
  intros [= <-]. unfold composite_scores.
  rewrite length_map, length_combine.
  rewrite (similarity_matrix_length _ _ Hsim). lia.
Qed.

Lemma top_indices_nil (top_k : Z) : top_indices [] top_k = [].
Proof.
  unfold top_indices, slice_last. change (argsort []) with (@nil nat).
  now rewrite skipn_nil.
Qed.

Lemma get_highlights_selection (db : collection) (category : string)
    (top_k : Z) (thr : Q) (hs : list article) :
  get_highlights db category top_k thr = Ok hs ->
  exists scores a0,
    List.length scores = List.length (find (in_category category) db) /\
    hs = map (fun i => nth i (find (in_category category) db) a0)
             (top_indices scores top_k).
Proof.
  unfold get_highlights.
  destruct (find (in_category category) db) as [|a0 rest] eqn:Hfind.
  - intros [= <-]. exists [], (embedded "" []). rewrite top_indices_nil.
    now split.
  - destruct (get_scores (a0 :: rest) thr) as [scores|] eqn:Hs; simpl;
      [|discriminate].
    intros [= <-]. exists scores, a0. split; [|reflexivity].
    now apply (get_scores_length (a0 :: rest) thr).
Qed.

Lemma ids_identify_documents (c : collection) (a b : article) :
  NoDup (map _id c) -> In a c -> In b c -> _id a = _id b -> a = b.
Proof.
  induction c as [|x c IH]; simpl; intros Hnd Ha Hb E; [easy|].
  inversion Hnd as [|? ? Hx Hc]; subst.
  destruct Ha as [->|Ha], Hb as [->|Hb].
  - reflexivity.
  - exfalso. apply Hx. rewrite E. now apply in_map.
  - exfalso. apply Hx. rewrite <- E. now apply in_map.
  - now apply IH.
Qed.

Lemma selection_keeps_ids_unique (l : list article) (a0 : article)
    (idx : list nat) :
  NoDup (map _id l) -> NoDup idx ->
  (forall i, In i idx -> (i < List.length l)%nat) ->
  NoDup (map _id (map (fun i => nth i l a0) idx)).
Proof.
  intros Hl Hidx Hb. rewrite map_map.
  apply Injective_map_NoDup_in; [|exact Hidx].
  intros i j Hi Hj E.
  rewrite <- !(map_nth _id) in E.
  apply (proj1 (NoDup_nth (map _id l) (_id a0)) Hl);
    rewrite ?length_map; auto.
Qed.

(** X7: what [get_highlights] returns.  Every returned article is a stored
    article of the category; with unique ids no article is returned twice;
    and the number returned is [min top_k n] for a positive [top_k], [n] being
    the size of the category, while a [top_k] that is zero or negative drops
    the [-top_k] lowest-ranked articles and returns all the others. *)
Theorem highlights_are_distinct_articles_of_the_category (db : collection)
    (category : string) (top_k : Z) (thr : Q) (hs : list article) :
  get_highlights db category top_k thr = Ok hs ->
  let n := List.length (find (in_category category) db) in
  (forall a, In a hs -> In a db /\ in_category category a = true) /\
  (NoDup (map _id db) -> NoDup (map _id hs)) /\
  List.length hs = (if 0 <? top_k then Nat.min (Z.to_nat top_k) n
                    else (n - Z.to_nat (- top_k))%nat).
Proof.
  intros H n.
  destruct (get_highlights_selection _ _ _ _ _ H) as (scores & a0 & Hlen & ->).
  assert (Hb : forall i, In i (top_indices scores top_k) ->
                 (i < List.length (find (in_category category) db))%nat).
  { intros i Hi. rewrite <- Hlen. now apply (top_indices_bound _ top_k). }
  split; [|split].
  - intros a Ha. apply in_map_iff in Ha. destruct Ha as (i & <- & Hi).
    apply filter_In. apply nth_In. now apply Hb.
  - intros Hnd. apply selection_keeps_ids_unique.
    + now apply filter_keeps_ids_unique.
    + apply top_indices_NoDup.
    + exact Hb.
  - rewrite length_map, top_indices_count, Hlen. reflexivity.
Qed.

Lemma highlights_are_distinct_articles_of_the_category_witness :
  let hs := [doc "a3" "Transfer confirmed" "" [0; 1]%Q "sports";
             doc "a2" "Cup final replay" "" [1; 0]%Q "sports"] in
  let n := List.length (find (in_category "sports") sample_store) in
  (forall a, In a hs -> In a sample_store /\ in_category "sports" a = true) /\
  (NoDup (map _id sample_store) -> NoDup (map _id hs)) /\
  List.length hs = (if 0 <? 2 then Nat.min (Z.to_nat 2) n
                    else (n - Z.to_nat (- 2))%nat).
Proof.
  apply (highlights_are_distinct_articles_of_the_category sample_store
           "sports" 2 (9 # 10)%Q).
  vm_compute. reflexivity.
Defined.

(** ** One run of [update_featured_highlights], document by document *)

Lemma get_highlights_incl (db : collection) (category : string) (top_k : Z)
    (thr : Q) (hs : list article) (a : article) :
  get_highlights db category top_k thr = Ok hs -> In a hs ->
  In a db /\ in_category category a = true.
Proof.
  intros H Ha.
  destruct (get_highlights_selection _ _ _ _ _ H) as (scores & a0 & Hlen & ->).
  apply in_map_iff in Ha. destruct Ha as (i & <- & Hi).
  pose proof (top_indices_bound _ top_k i Hi) as Hb. rewrite Hlen in Hb.
  apply filter_In. apply nth_In. exact Hb.
Qed.

Lemma highlight_ids_in_category (db : collection) (category : string)
    (top_k : Z) (i : string) :
  In i (highlight_ids db category top_k) ->
  exists a, In a db /\ in_category category a = true /\ _id a = i.
Proof.
  unfold highlight_ids.
  destruct (get_highlights db category top_k default_similarity_threshold)
    as [hs|] eqn:H; simpl; [|easy].
  intros Hi. apply in_map_iff in Hi. destruct Hi as (a & <- & Ha).
  exists a. destruct (get_highlights_incl _ _ _ _ _ _ H Ha). auto.
Qed.

Lemma run_step_outside (db : collection) (category : string) (top_k : Z)
    (now_str : string) (a : article) :
  NoDup (map _id db) -> In a db -> in_category category a = false ->
  mark_in now_str (highlight_ids db category top_k) (reset_in category a) = a.
Proof.
  intros Hnd Ha Hc. unfold reset_in. rewrite Hc. unfold mark_in.
  destruct (mem (_id a) (highlight_ids db category top_k)) eqn:Em;
    [|reflexivity].
  apply mem_In in Em. apply highlight_ids_in_category in Em.
  destruct Em as (b & Hb & Hcb & E).
  assert (b = a) by (now apply (ids_identify_documents db)). subst b.
  congruence.
Qed.

Lemma run_step_same_but_featured (category : string) (now_str : string)
    (ids : list string) (a : article) :
  same_but_featured a (mark_in now_str ids (reset_in category a)).
Proof.
  unfold same_but_featured, mark_in, reset_in.
  destruct (in_category category a);
    destruct (mem _ ids); cbn; repeat split; reflexivity.
Qed.

Lemma Forall2_map_in {A B : Type} (R : A -> B -> Prop) (g : A -> B)
    (l : list A) :
  (forall a, In a l -> R a (g a)) -> Forall2 R l (map g l).
Proof.
  induction l as [|x l IH]; simpl; intros H; constructor.
  - apply H. now left.
  - apply IH. intros a Ha. apply H. now right.
Qed.

(** X9: a run of [update_featured_highlights] on a store with unique ids,
    whether it returns or raises, adds, removes and reorders nothing: the
    document at each position keeps its id, title, text, embedding, topic and
    cluster ids (only [is_featured] and [featured_at] may change), and a
    document outside the category is left exactly as it was. *)
Theorem featured_update_touches_only_the_flags (db : collection)
    (category : string) (top_k : Z) (now_str : string) :
  NoDup (map _id db) ->
  Forall2 (fun a a' => same_but_featured a a' /\
                       (in_category category a = false -> a' = a))
          db (fst (update_featured_highlights db category top_k now_str)).
Proof.
  intros Hnd. rewrite update_featured_highlights_spec by exact Hnd. simpl.
  apply Forall2_map_in. intros a Ha. split.
  - apply run_step_same_but_featured.
  - intros Hc. now apply run_step_outside.
Qed.

Lemma featured_update_touches_only_the_flags_witness :
  Forall2 (fun a a' => same_but_featured a a' /\
                       (in_category "sports" a = false -> a' = a))
          sample_store
          (fst (update_featured_highlights sample_store "sports" 2 "t1")).
Proof.
  apply (featured_update_touches_only_the_flags sample_store "sports" 2 "t1").
  simpl. repeat constructor; simpl; intuition discriminate.
Defined.

Lemma find_one_map (g : article -> article) (i : string) (c : collection) :
  (forall a, _id (g a) = _id a) ->
  find_one i (map g c) = option_map g (find_one i c).
Proof.
  intros Hg. unfold find_one.
  induction c as [|a c IH]; simpl; [reflexivity|].
  rewrite Hg. destruct (String.eqb (_id a) i); [reflexivity | exact IH].
Qed.

(** X10: the timestamp.  After a run on a store with unique ids, a selected
    article of the category carries [is_featured = true] and the time of this
    run in [featured_at]; an article of the category that was not selected
    carries [is_featured = false] and keeps whatever [featured_at] it had: the
    time of an earlier selection is never cleared. *)
Theorem featured_at_is_stamped_on_winners_only (db : collection)
    (category : string) (top_k : Z) (now_str : string) (a : article) :
  NoDup (map _id db) -> In a db -> in_category category a = true ->
  exists a',
    find_one (_id a)
      (fst (update_featured_highlights db category top_k now_str)) = Some a' /\
    (mem (_id a) (highlight_ids db category top_k) = true ->
     is_featured a' = Some true /\ featured_at a' = Some now_str) /\
    (mem (_id a) (highlight_ids db category top_k) = false ->
     is_featured a' = Some false /\ featured_at a' = featured_at a).
Proof.
  intros Hnd Ha Hc. rewrite update_featured_highlights_spec by exact Hnd.
  cbn [fst]. rewrite find_one_map.
  - rewrite (find_one_in_nodup db a Hnd Ha). cbn [option_map].
    eexists. split; [reflexivity|].
    unfold reset_in. rewrite Hc. unfold mark_in.
    change (_id (set_not_featured a)) with (_id a).
    split; intros ->; cbn; auto.
  - intros b. unfold mark_in, reset_in.
    destruct (in_category category b); destruct (mem _ _); reflexivity.
Qed.

Lemma featured_at_is_stamped_on_winners_only_witness :
  exists a',
    find_one "a1" (fst (update_featured_highlights sample_store "sports" 2 "t1"))
      = Some a' /\
    (mem "a1" (highlight_ids sample_store "sports" 2) = true ->
     is_featured a' = Some true /\ featured_at a' = Some "t1") /\
    (mem "a1" (highlight_ids sample_store "sports" 2) = false ->
     is_featured a' = Some false /\
     featured_at a' = Some "2025-01-01 08:00:00").
Proof.
  apply (featured_at_is_stamped_on_winners_only sample_store "sports" 2 "t1"
           (mkArticle "a1" (Some "Cup final") (Some "") (Some [1; 0]%Q)
              (Some "sports") None None (Some true)
              (Some "2025-01-01 08:00:00"))).
  - simpl. repeat constructor; simpl; intuition discriminate.
  - simpl. auto.
  - reflexivity.
Defined.

Lemma featured_ids_reset (category : string) (db : collection) :
  featured_ids category (update_many (in_category category) set_not_featured db)
  = [].
Proof.
  unfold featured_ids, update_many.
  induction db as [|a db IH]; simpl; [reflexivity|].
  destruct (in_category category a) eqn:Hc.
  - change (in_category category (set_not_featured a))
      with (in_category category a).
    rewrite Hc. cbn. exact IH.
  - rewrite Hc. cbn. exact IH.
Qed.

(** X11: when the ranker raises (see X6 for when it does), the run of
    [update_featured_highlights] ends with the same exception after the reset
    and before any article is marked: the store is the old one with
    [is_featured = false] on every article of the category, which is left
    without a single featured article. *)
Theorem failed_run_leaves_the_category_unfeatured (db : collection)
    (category : string) (top_k : Z) (now_str : string) (e : error) :
  get_highlights db category top_k default_similarity_threshold = Raise e ->
  update_featured_highlights db category top_k now_str
  = (update_many (in_category category) set_not_featured db, Raise e) /\
  featured_ids category
    (fst (update_featured_highlights db category top_k now_str)) = [].
Proof.
  intros H.
  assert (E : update_featured_highlights db category top_k now_str
              = (update_many (in_category category) set_not_featured db,
                 Raise e)).
  { unfold update_featured_highlights.
    change (update_many (in_category category) set_not_featured db)
      with (map (reset_in category) db).
    rewrite (get_highlights_map_preserving _ db category top_k _
               (reset_in_preserves category)).
    now rewrite H. }
  split; [exact E|]. rewrite E. apply featured_ids_reset.
Qed.

Lemma failed_run_leaves_the_category_unfeatured_witness :
  update_featured_highlights two_category_store "sports" 5 "t1"
  = (update_many (in_category "sports") set_not_featured two_category_store,
     Raise KeyError) /\
  featured_ids "sports"
    (fst (update_featured_highlights two_category_store "sports" 5 "t1")) = [].
Proof.
  apply (failed_run_leaves_the_category_unfeatured two_category_store "sports"
           5 "t1" KeyError).
  reflexivity.
Defined.

(** ** The loop over the categories *)

Lemma run_highlights_cons (clock : nat -> string) (db : collection)
    (category : string) (rest : list string) :
  run_highlights_for_all_categories clock db (category :: rest)
  = match snd (update_featured_highlights db category 5 (clock 0%nat)) with
    | Raise e =>
        (fst (update_featured_highlights db category 5 (clock 0%nat)), Raise e)
    | Ok _ =>
        run_highlights_for_all_categories (fun k => clock (S k))
          (fst (update_featured_highlights db category 5 (clock 0%nat))) rest
    end.
Proof. reflexivity. Qed.

Lemma run_step_preserves (category : string) (now_str : string)
    (ids : list string) :
  preserves_content (fun a => mark_in now_str ids (reset_in category a)).
Proof.
  intros a.
  destruct (reset_in_preserves category a) as (E1 & E2 & E3 & E4 & E5).
  destruct (mark_in_preserves now_str ids (reset_in category a))
    as (F1 & F2 & F3 & F4 & F5).
  repeat split; congruence.
Qed.

Lemma in_category_preserved (g : article -> article) (category : string)
    (a : article) :
  preserves_content g -> in_category category (g a) = in_category category a.
Proof.
  intros Hg. unfold in_category.
  destruct (Hg a) as (_ & _ & _ & _ & ->). reflexivity.
Qed.

Lemma ids_map_preserving (g : article -> article) (db : collection) :
  preserves_content g -> map _id (map g db) = map _id db.
Proof.
  intros Hg. rewrite map_map. apply map_ext. intros a. apply (Hg a).
Qed.

Lemma featured_ids_map_outside (g : article -> article) (category : string)
    (db : collection) :
  preserves_content g ->
  (forall a, In a db -> in_category category a = true -> g a = a) ->
  featured_ids category (map g db) = featured_ids category db.
Proof.
  intros Hg Hout. unfold featured_ids.
  induction db as [|a db IH]; simpl; [reflexivity|].
  assert (IH' : map _id (filter (fun a => in_category category a &&
                                          is_featured_true a) (map g db))
                = map _id (filter (fun a => in_category category a &&
                                            is_featured_true a) db)).
  { apply IH. intros b Hb. apply Hout. now right. }
  rewrite (in_category_preserved g category a Hg).
  destruct (in_category category a) eqn:Hc.
  - rewrite (Hout a (or_introl eq_refl) Hc).
    destruct (is_featured_true a); simpl; now rewrite IH'.
  - simpl. exact IH'.
Qed.

Lemma in_category_unique (c c' : string) (a : article) :
  in_category c a = true -> c' <> c -> in_category c' a = false.
Proof.
  unfold in_category. destruct (predicted_topic a) as [t|]; [|discriminate].
  intros Ht Hne. apply String.eqb_eq in Ht. subst t.
  apply String.eqb_neq. congruence.
Qed.

Lemma is_ok_result_map {A B : Type} (f : A -> B) (r : result A) :
  is_ok (result_map f r) = is_ok r.
Proof. now destruct r. Qed.

Lemma preserves_content_compose (g h : article -> article) :
  preserves_content g -> preserves_content h ->
  preserves_content (fun a => h (g a)).
Proof.
  intros Hg Hh a.
  destruct (Hg a) as (E1 & E2 & E3 & E4 & E5).
  destruct (Hh (g a)) as (F1 & F2 & F3 & F4 & F5).
  repeat split; congruence.
Qed.

Lemma run_step_keeps_flag (category : string) (now_str : string)
    (ids : list string) (a : article) :
  is_featured a <> None ->
  is_featured (mark_in now_str ids (reset_in category a)) <> None.
Proof.
  unfold mark_in, reset_in.
  destruct (in_category category a); destruct (mem _ ids); cbn;
    intros H; try exact H; discriminate.
Qed.

Lemma run_step_sets_flag (category : string) (now_str : string)
    (ids : list string) (a : article) :
  in_category category a = true ->
  is_featured (mark_in now_str ids (reset_in category a)) <> None.
Proof.
  intros Hc. unfold mark_in, reset_in. rewrite Hc.
  destruct (mem _ ids); cbn; discriminate.
Qed.

Lemma same_but_featured_trans (a b c : article) :
  same_but_featured a b -> same_but_featured b c -> same_but_featured a c.
Proof.
  unfold same_but_featured.
  intros (E1 & E2 & E3 & E4 & E5 & E6 & E7) (F1 & F2 & F3 & F4 & F5 & F6 & F7).
  repeat split; congruence.
Qed.

(** The loop as one pass over the store: a content-preserving rewrite of
    every document that leaves alone the documents of no listed category; if
    the ranker succeeds on every listed category of the original store the
    loop returns, each category holding its own winners. *)
Lemma run_highlights_invariant (categories : list string) :
  forall (clock : nat -> string) (db : collection),
  NoDup (map _id db) -> NoDup categories ->
  exists G,
    preserves_content G /\
    (forall a, same_but_featured a (G a)) /\
    (forall a, is_featured a <> None -> is_featured (G a) <> None) /\
    (snd (run_highlights_for_all_categories clock db categories) = Ok tt ->
     forall a c, In c categories -> in_category c a = true ->
       is_featured (G a) <> None) /\
    fst (run_highlights_for_all_categories clock db categories) = map G db /\
    (forall a, In a db ->
       (forall c, In c categories -> in_category c a = false) -> G a = a) /\
    ((forall c, In c categories ->
        is_ok (get_highlights db c 5 default_similarity_threshold) = true) ->
     snd (run_highlights_for_all_categories clock db categories) = Ok tt /\
     forall c, In c categories ->
       Permutation (featured_ids c (map G db)) (highlight_ids db c 5)).
Proof.
  induction categories as [|c rest IH]; intros clock db Hnd Hcs.
  - exists (fun a => a). simpl. rewrite map_id.
    split; [intros a; repeat split; reflexivity|].
    split; [intros a; repeat split; reflexivity|].
    split; [auto|]. split; [intros _ a c []|].
    split; [reflexivity|]. split; [reflexivity|].
    intros _. split; [reflexivity | intros c []].
  - inversion Hcs as [|? ? Hc Hrest]; subst.
    rewrite run_highlights_cons.
    pose proof (featured_ids_are_the_winners db c 5 (clock 0%nat) Hnd) as Hwin.
    rewrite (update_featured_highlights_spec db c 5 (clock 0%nat) Hnd) in *.
    cbn [fst snd] in *.
    set (g := fun a => mark_in (clock 0%nat) (highlight_ids db c 5)
                         (reset_in c a)) in *.
    assert (Hg : preserves_content g) by apply run_step_preserves.
    assert (Hout : forall a, In a db -> in_category c a = false -> g a = a)
      by (intros a Ha Hca; now apply run_step_outside).
    destruct (get_highlights db c 5 default_similarity_threshold)
      as [hs|e] eqn:Hget; cbn [result_map].
    + assert (Hnd1 : NoDup (map _id (map g db)))
        by (now rewrite ids_map_preserving).
      destruct (IH (fun k => clock (S k)) (map g db) Hnd1 Hrest)
        as (G' & HG' & Hsame & Hkeep & Hflag & Hfst & Hframe & Hall).
      exists (fun a => G' (g a)).
      split; [now apply preserves_content_compose|].
      split; [intros a; apply (same_but_featured_trans a (g a));
              [apply run_step_same_but_featured | apply Hsame]|].
      split; [intros a Ha; apply Hkeep; now apply run_step_keeps_flag|].
      split.
      { intros Hrun a c' [<-|Hc'] Hca.
        - apply Hkeep. now apply run_step_sets_flag.
        - apply (Hflag Hrun (g a) c' Hc').
          now rewrite (in_category_preserved g c' a Hg). }
      split; [now rewrite Hfst, map_map|]. split.
      * intros a Ha Hno.
        assert (Ega : g a = a).
        { apply Hout; [exact Ha|]. apply Hno. now left. }
        rewrite Ega. apply Hframe.
        -- rewrite <- Ega. now apply in_map.
        -- intros c' Hc'. apply Hno. now right.
      * intros Hok.
        assert (Hok1 : forall c', In c' rest ->
                  is_ok (get_highlights (map g db) c' 5
                           default_similarity_threshold) = true).
        { intros c' Hc'.
          rewrite (get_highlights_map_preserving g db c' 5 _ Hg).
          rewrite is_ok_result_map. apply Hok. now right. }
        destruct (Hall Hok1) as (Hsnd & Hperm).
        split; [exact Hsnd|].
        rewrite <- (map_map g G').
        intros c' [<-|Hc'].
        -- rewrite (featured_ids_map_outside G' c (map g db) HG'); [exact Hwin|].
           intros b Hb Hcb. apply Hframe; [exact Hb|].
           intros c' Hc'. apply (in_category_unique c c' b Hcb).
           intros ->. contradiction.
        -- rewrite <- (highlight_ids_map_preserving g db c' 5 Hg).
           now apply Hperm.
    + exists g. split; [exact Hg|].
      split; [intros a; apply run_step_same_but_featured|].
      split; [intros a Ha; now apply run_step_keeps_flag|].
      split; [discriminate|].
      split; [reflexivity|]. split.
      * intros a Ha Hno. apply Hout; [exact Ha|]. apply Hno. now left.
      * intros Hok. specialize (Hok c (or_introl eq_refl)).
        rewrite Hget in Hok. discriminate.
Qed.

Lemma highlight_ids_count (db : collection) (category : string) (top_k : Z) :
  is_ok (get_highlights db category top_k default_similarity_threshold) = true ->
  1 <= top_k ->
  List.length (highlight_ids db category top_k)
  = Nat.min (Z.to_nat top_k) (List.length (find (in_category category) db)).
Proof.
  unfold highlight_ids.
  destruct (get_highlights db category top_k default_similarity_threshold)
    as [hs|] eqn:H; [|discriminate].
  intros _ Hk.
  destruct (get_highlights_selection _ _ _ _ _ H) as (scores & a0 & Hlen & ->).
  rewrite !length_map, top_indices_count, Hlen.
  destruct (Z.ltb_spec 0 top_k); [reflexivity | lia].
Qed.

(** X12: the loop over distinct categories on a store with unique ids, when
    the ranker succeeds on every listed category: the loop returns; every
    listed category ends with exactly the winners [get_highlights] computes
    for it on the store as it was before the loop, [min 5 n] of them (the
    categories do not influence one another); every document keeps its
    position and all fields but [is_featured] and [featured_at]; and a
    document of no listed category is not written at all. *)
Theorem every_category_gets_its_own_winners (clock : nat -> string)
    (db : collection) (categories : list string) :
  NoDup (map _id db) -> NoDup categories ->
  (forall c, In c categories ->
     is_ok (get_highlights db c 5 default_similarity_threshold) = true) ->
  let run := run_highlights_for_all_categories clock db categories in
  snd run = Ok tt /\
  (forall c, In c categories ->
     Permutation (featured_ids c (fst run)) (highlight_ids db c 5) /\
     List.length (featured_ids c (fst run))
     = Nat.min 5 (List.length (find (in_category c) db))) /\
  Forall2 (fun a a' =>
             same_but_featured a a' /\
             ((forall c, In c categories -> in_category c a = false) -> a' = a))
          db (fst run).
Proof.
  intros Hnd Hcs Hok run. subst run.
  destruct (run_highlights_invariant categories clock db Hnd Hcs)
    as (G & HG & Hsame & _ & _ & Hfst & Hframe & Hall).
  destruct (Hall Hok) as (Hsnd & Hperm).
  rewrite Hfst. split; [exact Hsnd|]. split.
  - intros c Hc. split; [now apply Hperm|].
    rewrite (Permutation_length (Hperm c Hc)).
    rewrite highlight_ids_count; [reflexivity | now apply Hok | lia].
  - apply Forall2_map_in. intros a Ha. split; [apply Hsame|].
    intros Hno. now apply Hframe.
Qed.

Lemma every_category_gets_its_own_winners_witness :
  let run := run_highlights_for_all_categories (fun _ => "t1") sample_store
               ["sports"; "finance"] in
  snd run = Ok tt /\
  (forall c, In c ["sports"; "finance"] ->
     Permutation (featured_ids c (fst run)) (highlight_ids sample_store c 5) /\
     List.length (featured_ids c (fst run))
     = Nat.min 5 (List.length (find (in_category c) sample_store))) /\
  Forall2 (fun a a' =>
             same_but_featured a a' /\
             ((forall c, In c ["sports"; "finance"] ->
                 in_category c a = false) -> a' = a))
          sample_store (fst run).
Proof.
  apply (every_category_gets_its_own_winners (fun _ => "t1") sample_store
           ["sports"; "finance"]).
  - simpl. repeat constructor; simpl; intuition discriminate.
  - repeat constructor; simpl; intuition discriminate.
  - intros c [<-|[<-|[]]]; vm_compute; reflexivity.
Defined.

Lemma run_highlights_app (pre : list string) :
  forall (clock : nat -> string) (db : collection) (l : list string),
  run_highlights_for_all_categories clock db (pre ++ l)
  = match snd (run_highlights_for_all_categories clock db pre) with
    | Ok _ =>
        run_highlights_for_all_categories
          (fun k => clock (List.length pre + k)%nat)
          (fst (run_highlights_for_all_categories clock db pre)) l
    | Raise e => (fst (run_highlights_for_all_categories clock db pre), Raise e)
    end.
Proof.
  induction pre as [|c pre IH]; intros clock db l.
  - reflexivity.
  - change ((c :: pre) ++ l) with (c :: (pre ++ l)).
    rewrite !run_highlights_cons.
    destruct (snd (update_featured_highlights db c 5 (clock 0%nat)));
      [|reflexivity].
    apply (IH (fun k => clock (S k))).
Qed.

Lemma failed_step (db : collection) (category : string) (top_k : Z)
    (now_str : string) (e : error) :
  get_highlights db category top_k default_similarity_threshold = Raise e ->
  update_featured_highlights db category top_k now_str
  = (map (reset_in category) db, Raise e).
Proof.
  intros H. unfold update_featured_highlights.
  change (update_many (in_category category) set_not_featured db)
    with (map (reset_in category) db).
  rewrite (get_highlights_map_preserving _ db category top_k _
             (reset_in_preserves category)).
  now rewrite H.
Qed.

Lemma reset_in_outside (c c' : string) (a : article) :
  c' <> c -> in_category c' a = true -> reset_in c a = a.
Proof.
  intros Hne Hc'. unfold reset_in.
  now rewrite (in_category_unique c' c a Hc') by congruence.
Qed.

(** X13: nothing in the loop catches an exception.  When the ranker succeeds
    on the categories listed before [c] and raises on [c], the loop ends with
    that exception: the categories before [c] hold their new winners, [c]
    itself is left without a featured article, and the categories listed
    after [c] are never reached, so they keep the featured articles they had
    before the loop. *)
Theorem failing_category_ends_the_loop (clock : nat -> string)
    (db : collection) (pre post : list string) (c : string) (e : error) :
  NoDup (map _id db) -> NoDup (pre ++ c :: post) ->
  (forall c', In c' pre ->
     is_ok (get_highlights db c' 5 default_similarity_threshold) = true) ->
  get_highlights db c 5 default_similarity_threshold = Raise e ->
  let run := run_highlights_for_all_categories clock db (pre ++ c :: post) in
  snd run = Raise e /\
  featured_ids c (fst run) = [] /\
  (forall c', In c' pre ->
     Permutation (featured_ids c' (fst run)) (highlight_ids db c' 5)) /\
  (forall c', In c' post -> featured_ids c' (fst run) = featured_ids c' db).
Proof.
  intros Hnd Hcs Hok Hfail run. subst run.
  assert (Hpre : NoDup pre) by (now apply NoDup_app_remove_r in Hcs).
  assert (Hc : ~ In c pre).
  { intros Hin. apply NoDup_remove_2 in Hcs. apply Hcs.
    apply in_or_app. now left. }
  assert (Hpost : forall c', In c' post -> ~ In c' pre /\ c' <> c).
  { intros c' Hc'. split.
    - intros Hin. apply (NoDup_app_disjoint pre (c :: post) c' Hcs Hin).
      now right.
    - intros ->. apply NoDup_app_remove_l in Hcs.
      inversion Hcs; subst. contradiction. }
  destruct (run_highlights_invariant pre clock db Hnd Hpre)
    as (G & HG & Hsame & _ & _ & Hfst & Hframe & Hall).
  destruct (Hall Hok) as (Hsnd & Hperm).
  rewrite run_highlights_app, Hsnd, run_highlights_cons, Hfst.
  assert (HfailG : get_highlights (map G db) c 5 default_similarity_threshold
                   = Raise e).
  { rewrite (get_highlights_map_preserving G db c 5 _ HG). now rewrite Hfail. }
  rewrite (failed_step (map G db) c 5 _ e HfailG). cbn [fst snd].
  assert (Hkeep : forall c', c' <> c ->
            featured_ids c' (map (reset_in c) (map G db))
            = featured_ids c' (map G db)).
  { intros c' Hne. apply featured_ids_map_outside.
    - apply reset_in_preserves.
    - intros a _ Ha. now apply (reset_in_outside c c'). }
  split; [reflexivity|]. split; [apply featured_ids_reset|]. split.
  - intros c' Hc'. rewrite Hkeep by (intros ->; contradiction).
    now apply Hperm.
  - intros c' Hc'. destruct (Hpost c' Hc') as (Hnot & Hne).
    rewrite Hkeep by exact Hne.
    apply featured_ids_map_outside; [exact HG|].
    intros a Ha Hca. apply Hframe; [exact Ha|].
    intros c0 Hc0. apply (in_category_unique c' c0 a Hca).
    intros ->. contradiction.
Qed.

Lemma failing_category_ends_the_loop_witness :
  let run := run_highlights_for_all_categories (fun _ => "t1")
               two_category_store (["music"] ++ "sports" :: ["finance"]) in
  snd run = Raise KeyError /\
  featured_ids "sports" (fst run) = [] /\
  (forall c', In c' ["music"] ->
     Permutation (featured_ids c' (fst run))
                 (highlight_ids two_category_store c' 5)) /\
  (forall c', In c' ["finance"] ->
     featured_ids c' (fst run) = featured_ids c' two_category_store).
Proof.
  apply (failing_category_ends_the_loop (fun _ => "t1") two_category_store
           ["music"] ["finance"] "sports" KeyError).
  - simpl. repeat constructor; simpl; intuition discriminate.
  - simpl. repeat constructor; simpl; intuition discriminate.
  - intros c' [<-|[]]. vm_compute. reflexivity.
  - reflexivity.
Defined.

(** ** Topic labeling *)

Lemma substring_0_length (m : nat) (s : string) :
  String.length (substring 0 m s) = Nat.min m (String.length s).
Proof.
  revert s; induction m as [|m IH]; intros [|c s]; simpl; try reflexivity.
  now rewrite IH.
Qed.

Lemma substring_0_prefix (m : nat) (s : string) :
  exists rest : string, s = (substring 0 m s ++ rest)%string.
Proof.
  revert s; induction m as [|m IH]; intros [|c s]; simpl.
  - now exists EmptyString.
  - now exists (String c s).
  - now exists EmptyString.
  - destruct (IH s) as (rest & E). exists rest. now rewrite <- E.
Qed.

Lemma substring_0_all (m : nat) (s : string) :
  (String.length s <= m)%nat -> substring 0 m s = s.
Proof.
  revert s; induction m as [|m IH]; intros [|c s]; simpl; intros H;
    try reflexivity.
  - inversion H.
  - rewrite IH; [reflexivity|]. now apply le_S_n.
Qed.

(** X14: the text handed to the classifier is the title, a newline and the
    text (a missing field counting as empty), cut after 2048 characters: it
    is a prefix of that string, it is the whole string when that has at most
    2048 characters, and it is never longer than 2048 characters. *)
Theorem classifier_input_is_a_bounded_prefix (a : article) :
  let full :=
    (get_or_empty (title a) ++ newline ++ get_or_empty (text a))%string in
  String.length (classifier_input a) = Nat.min 2048 (String.length full) /\
  (exists rest : string, full = (classifier_input a ++ rest)%string) /\
  ((String.length full <= 2048)%nat -> classifier_input a = full) /\
  (String.length (classifier_input a) <= 2048)%nat.
Proof.
  intros full. unfold classifier_input. fold full.
  split; [apply substring_0_length|].
  split; [apply substring_0_prefix|].
  split; [apply substring_0_all|].
  rewrite substring_0_length. apply Nat.le_min_l.
Qed.

Lemma update_one_after_prefix (i : string) (upd : article -> article)
    (P S : collection) (a : article) :
  ~ In i (map _id P) -> _id a = i ->
  update_one i upd (P ++ a :: S) = P ++ upd a :: S.
Proof.
  intros Hni Ha. induction P as [|p P IH]; simpl.
  - rewrite Ha, String.eqb_refl. reflexivity.
  - destruct (String.eqb_spec (_id p) i) as [E|_].
    + exfalso. apply Hni. now left.
    + rewrite IH; [reflexivity|]. intros Hin. apply Hni. now right.
Qed.

Lemma app_cons_assoc {A : Type} (P : list A) (a : A) (S : list A) :
  P ++ a :: S = (P ++ [a]) ++ S.
Proof. now rewrite <- app_assoc. Qed.

(** The store a labeling run leaves, whether it returns or raises: the
    documents in front of the failing article (all of them when no call
    fails) are relabelled, the others are as they were. *)
Lemma classify_loop_prefix (classifier : zero_shot_classifier) (S : collection) :
  forall P : collection,
  NoDup (map _id (P ++ S)) ->
  let run := classify_loop classifier (filter has_embedding S) (P ++ S) in
  exists S1 S2,
    S = S1 ++ S2 /\
    fst run = P ++ map (relabel classifier) S1 ++ S2 /\
    ((snd run = Ok tt /\ S2 = []) \/
     (exists e a S2', snd run = Raise e /\ S2 = a :: S2' /\
        has_embedding a = true /\
        classify_article classifier (classifier_input a) = Raise e)).
Proof.
  induction S as [|a S IH]; intros P Hnd; cbn zeta.
  - exists [], []. simpl. split; [reflexivity|]. split; [reflexivity|].
    left. now split.
  - cbn [filter]. destruct (has_embedding a) eqn:Hemb.
    + cbn [classify_loop].
      destruct (classify_article classifier (classifier_input a))
        as [topic|e] eqn:Hcl.
      * unfold update_article_topic.
        assert (Hni : ~ In (_id a) (map _id P)).
        { rewrite map_app in Hnd. intros Hin.
          apply (NoDup_app_disjoint _ _ (_id a) Hnd Hin). now left. }
        rewrite (update_one_after_prefix _ _ P S a Hni eq_refl).
        rewrite app_cons_assoc.
        assert (Hnd' : NoDup (map _id ((P ++ [set_predicted_topic topic a]) ++ S))).
        { rewrite <- app_cons_assoc. rewrite map_app in *. exact Hnd. }
        destruct (IH (P ++ [set_predicted_topic topic a]) Hnd')
          as (S1 & S2 & -> & Hfst & Hsnd).
        exists (a :: S1), S2. split; [reflexivity|]. split.
        -- rewrite Hfst. cbn [map]. unfold relabel at 2.
           rewrite Hemb, Hcl. now rewrite <- app_assoc.
        -- exact Hsnd.
      * exists [], (a :: S). split; [reflexivity|]. split; [reflexivity|].
        right. exists e, a, S. repeat split; assumption.
    + rewrite app_cons_assoc.
      assert (Hnd' : NoDup (map _id ((P ++ [a]) ++ S)))
        by (now rewrite <- app_cons_assoc).
      destruct (IH (P ++ [a]) Hnd') as (S1 & S2 & -> & Hfst & Hsnd).
      exists (a :: S1), S2. split; [reflexivity|]. split.
      * rewrite Hfst. cbn [map]. unfold relabel at 2. rewrite Hemb.
        now rewrite <- app_assoc.
      * exact Hsnd.
Qed.

(** X15: a labeling run on a store with unique ids, when the classifier
    answers for every embedded article: the run returns, and the store is the
    old one with [predicted_topic] set to the classifier's best label on every
    article that has an embedding.  An article that carried a topic already
    is classified again and overwritten (the query does not ask for a missing
    [predicted_topic]); an article without an embedding is not touched. *)
Theorem labeling_relabels_every_embedded_article
    (classifier : zero_shot_classifier) (db : collection) :
  NoDup (map _id db) ->
  (forall a, In a db -> has_embedding a = true ->
     is_ok (classify_article classifier (classifier_input a)) = true) ->
  zeroshot_topic_clustering classifier db
  = (map (relabel classifier) db, Ok tt).
Proof.
  intros Hnd Hok. unfold zeroshot_topic_clustering,
    fetch_articles_with_embeddings, find.
  destruct (classify_loop_prefix classifier db [] Hnd)
    as (S1 & S2 & E & Hfst & Hsnd).
  cbn [app] in Hfst, Hsnd.
  destruct (classify_loop classifier (filter has_embedding db) db)
    as [db' r]. cbn [fst snd] in *.
  destruct Hsnd as [(-> & ->)|(e & a & S2' & _ & -> & Hemb & Hcl)].
  - rewrite app_nil_r in *. subst. reflexivity.
  - assert (Ha : In a db) by (rewrite E; apply in_or_app; right; now left).
    specialize (Hok a Ha Hemb). rewrite Hcl in Hok. discriminate.
Qed.

Lemma labeling_relabels_every_embedded_article_witness :
  zeroshot_topic_clustering flaky_classifier sample_store
  = (map (relabel flaky_classifier) sample_store, Ok tt).
Proof.
  apply (labeling_relabels_every_embedded_article flaky_classifier sample_store).
  - simpl. repeat constructor; simpl; intuition discriminate.
  - intros a [<-|[<-|[<-|[<-|[]]]]] _; vm_compute; reflexivity.
Defined.

Lemma relabel_keeps_embedded (classifier : zero_shot_classifier) (a : article) :
  (predicted_topic a <> None -> has_embedding a = true) ->
  predicted_topic (relabel classifier a) <> None ->
  has_embedding (relabel classifier a) = true.
Proof.
  unfold relabel. destruct (has_embedding a) eqn:Hemb.
  - destruct (classify_article classifier (classifier_input a)); intros _ _.
    + unfold has_embedding in *. exact Hemb.
    + exact Hemb.
  - rewrite Hemb. auto.
Qed.

Lemma get_highlights_key_error (db : collection) (category : string)
    (top_k : Z) (thr : Q) :
  get_highlights db category top_k thr = Raise KeyError ->
  exists a, In a db /\ in_category category a = true /\ embedding a = None.
Proof.
  unfold get_highlights.
  destruct (find (in_category category) db) as [|a0 rest] eqn:Hfind;
    [discriminate|].
  destruct (get_scores (a0 :: rest) thr) as [scores|e] eqn:Hs; simpl;
    [discriminate|].
  intros [= ->].
  destruct (get_scores_raises _ _ _ Hs) as [(_ & a & Ha & Hn)|(Hv & _)];
    [|discriminate].
  rewrite <- Hfind in Ha. apply filter_In in Ha. destruct Ha as (Ha & Hc).
  now exists a.
Qed.

(** X16: labeling never produces a labelled article without an embedding.
    On a store with unique ids in which every labelled article has an
    embedding, the store a labeling run leaves, whether the run returns or
    raises half-way, has the same property; on such a store the highlight
    ranker cannot raise [KeyError], whatever the category. *)
Theorem labeling_keeps_labelled_articles_embedded
    (classifier : zero_shot_classifier) (db : collection) :
  NoDup (map _id db) -> labelled_are_embedded db ->
  let db' := fst (zeroshot_topic_clustering classifier db) in
  labelled_are_embedded db' /\
  forall category top_k thr,
    get_highlights db' category top_k thr <> Raise KeyError.
Proof.
  intros Hnd Hinv db'.
  assert (Hinv' : labelled_are_embedded db').
  { subst db'. unfold zeroshot_topic_clustering,
      fetch_articles_with_embeddings, find.
    destruct (classify_loop_prefix classifier db [] Hnd)
      as (S1 & S2 & E & Hfst & _).
    cbn [app] in Hfst. rewrite Hfst.
    unfold labelled_are_embedded in *. rewrite E in Hinv.
    apply Forall_app in Hinv. destruct Hinv as (H1 & H2).
    apply Forall_app. split; [|exact H2].
    apply Forall_forall. intros b Hb. apply in_map_iff in Hb.
    destruct Hb as (a & <- & Ha). apply relabel_keeps_embedded.
    rewrite Forall_forall in H1. now apply H1. }
  split; [exact Hinv'|].
  intros category top_k thr Hk.
  apply get_highlights_key_error in Hk. destruct Hk as (a & Ha & Hc & Hn).
  unfold labelled_are_embedded in Hinv'. rewrite Forall_forall in Hinv'.
  specialize (Hinv' a Ha). unfold in_category in Hc. unfold has_embedding in Hinv'.
  rewrite Hn in Hinv'.
  destruct (predicted_topic a); [|discriminate].
  assert (false = true) by (apply Hinv'; discriminate). discriminate.
Qed.

Lemma labeling_keeps_labelled_articles_embedded_witness :
  let db' := fst (zeroshot_topic_clustering flaky_classifier flaky_store) in
  labelled_are_embedded db' /\
  forall category top_k thr,
    get_highlights db' category top_k thr <> Raise KeyError.
Proof.
  apply (labeling_keeps_labelled_articles_embedded flaky_classifier flaky_store).
  - simpl. repeat constructor; simpl; intuition discriminate.
  - repeat constructor; simpl; intros _; reflexivity.
Defined.

(** ** Writing labels back: one [update_one] per zipped pair *)

Lemma ids_update_one (i : string) (upd : article -> article) (c : collection) :
  (forall a, _id (upd a) = _id a) ->
  map _id (update_one i upd c) = map _id c.
Proof.
  intros Hupd. induction c as [|a c IH]; simpl; [reflexivity|].
  destruct (String.eqb (_id a) i); simpl; [now rewrite Hupd | now rewrite IH].
Qed.

Section LabelsWrittenBack.

Variable upd : Z -> article -> article.
Hypothesis upd_id : forall l a, _id (upd l a) = _id a.

Lemma write_back_ids (articles : list article) (labels : list Z)
    (db : collection) :
  map _id (write_back upd db articles labels) = map _id db.
Proof.
  unfold write_back.
  revert labels db; induction articles as [|a rest IH]; intros labels db;
    [reflexivity|].
  destruct labels as [|l ls]; [reflexivity|]. simpl.
  rewrite IH. apply ids_update_one. apply upd_id.
Qed.

Lemma write_back_other (articles : list article) (labels : list Z)
    (db : collection) (x : string) :
  ~ In x (map _id articles) ->
  find_one x (write_back upd db articles labels) = find_one x db.
Proof.
  unfold write_back.
  revert labels db; induction articles as [|a rest IH]; intros labels db Hx;
    [reflexivity|].
  destruct labels as [|l ls]; [reflexivity|]. simpl.
  rewrite IH by (intros Hin; apply Hx; now right).
  apply find_one_update_one_other; [apply upd_id|].
  intros E. apply Hx. now left.
Qed.

Lemma write_back_stored (articles : list article) (labels : list Z)
    (db : collection) (i : nat) (a a0 : article) (l : Z) :
  NoDup (map _id articles) ->
  nth_error articles i = Some a ->
  nth_error labels i = Some l ->
  find_one (_id a) db = Some a0 ->
  find_one (_id a) (write_back upd db articles labels) = Some (upd l a0).
Proof.
  revert labels db i; induction articles as [|a1 rest IH];
    intros labels db i Hnd Ha Hl Hdb; [destruct i; discriminate|].
  inversion Hnd as [|? ? Hni Hnd']; subst.
  destruct labels as [|l1 ls]; [destruct i; discriminate|].
  change (write_back upd db (a1 :: rest) (l1 :: ls))
    with (write_back upd (update_one (_id a1) (upd l1) db) rest ls).
  destruct i as [|i]; simpl in Ha, Hl.
  - inversion Ha; inversion Hl; subst.
    rewrite write_back_other by exact Hni.
    apply find_one_update_one_same; [apply upd_id | exact Hdb].
  - apply (IH ls _ i Hnd' Ha Hl).
    rewrite find_one_update_one_other; [exact Hdb | apply upd_id |].
    intros E. apply Hni. rewrite <- E. apply in_map.
    eapply nth_error_In; exact Ha.
Qed.

End LabelsWrittenBack.

Lemma fetched_not_unembedded (db : collection) (a : article) :
  NoDup (map _id db) -> In a db -> has_embedding a = false ->
  ~ In (_id a) (map _id (fetch_articles_with_embeddings db)).
Proof.
  intros Hnd Ha Hemb Hin. apply in_map_iff in Hin.
  destruct Hin as (b & E & Hb).
  unfold fetch_articles_with_embeddings, find in Hb.
  apply filter_In in Hb. destruct Hb as (Hb & Hbe).
  assert (b = a) by (now apply (ids_identify_documents db)).
  subst b. congruence.
Qed.

Lemma fetched_in_store (db : collection) (i : nat) (a : article) :
  NoDup (map _id db) ->
  nth_error (fetch_articles_with_embeddings db) i = Some a ->
  find_one (_id a) db = Some a.
Proof.
  intros Hnd Ha. apply find_one_in_nodup; [exact Hnd|].
  apply nth_error_In in Ha.
  unfold fetch_articles_with_embeddings, find in Ha.
  now apply filter_In in Ha.
Qed.

(** X17: a run of [run_semantic_grouping] on a store with unique ids, when
    the embeddings of the fetched batch form a rectangular array and HDBSCAN,
    called on them with [min_cluster_size = 2] and [min_samples = 1], returns
    labels: the run returns; no document is added, removed or moved; the
    article at position [i] of the batch has its [topic_cluster_id] replaced
    by the value of label [i] (null for noise) and no other field changed;
    an article without an embedding is not touched. *)
Theorem semantic_grouping_stores_the_labels (clusterer : hdbscan_clusterer)
    (db : collection) (es : list (list Q)) (labels : list Z) :
  NoDup (map _id db) ->
  embeddings_of (fetch_articles_with_embeddings db) = Ok es ->
  np_array es = Ok es ->
  perform_topic_grouping clusterer es 2 1 = Ok labels ->
  let run := run_semantic_grouping clusterer db in
  snd run = Ok tt /\
  map _id (fst run) = map _id db /\
  (forall i a l,
     nth_error (fetch_articles_with_embeddings db) i = Some a ->
     nth_error labels i = Some l ->
     find_one (_id a) (fst run)
     = Some (set_topic_cluster_id (topic_cluster_of_label l) a)) /\
  (forall a, In a db -> has_embedding a = false ->
     find_one (_id a) (fst run) = Some a).
Proof.
  intros Hnd Hes Hnp Hlab run. subst run. unfold run_semantic_grouping.
  destruct (fetch_articles_with_embeddings db) as [|a0 rest] eqn:Hfetch.
  - cbn [fst snd]. repeat split.
    + intros i a l Ha. destruct i; discriminate.
    + intros a Ha _. now apply find_one_in_nodup.
  - rewrite Hes. cbn [bind]. rewrite Hnp. cbn [bind]. rewrite Hlab.
    cbn [fst snd]. rewrite <- Hfetch.
    assert (Hbatch : NoDup (map _id (fetch_articles_with_embeddings db)))
      by (now apply filter_keeps_ids_unique).
    split; [reflexivity|]. split; [|split].
    + apply (write_back_ids
               (fun l => set_topic_cluster_id (topic_cluster_of_label l))).
      reflexivity.
    + intros i a l Ha Hl.
      apply (topic_clusters_stored _ _ _ i); try assumption.
      now apply (fetched_in_store db i).
    + intros a Ha Hemb. rewrite topic_clusters_other.
      * now apply find_one_in_nodup.
      * now apply fetched_not_unembedded.
Qed.

Lemma semantic_grouping_stores_the_labels_witness :
  let run := run_semantic_grouping noise_clusterer sample_store in
  snd run = Ok tt /\
  map _id (fst run) = map _id sample_store /\
  (forall i a l,
     nth_error (fetch_articles_with_embeddings sample_store) i = Some a ->
     nth_error [-1; -1; -1; -1] i = Some l ->
     find_one (_id a) (fst run)
     = Some (set_topic_cluster_id (topic_cluster_of_label l) a)) /\
  (forall a, In a sample_store -> has_embedding a = false ->
     find_one (_id a) (fst run) = Some a).
Proof.
  apply (semantic_grouping_stores_the_labels noise_clusterer sample_store
           [[1; 0]; [1; 0]; [0; 1]; [1; 1]]%Q).
  - simpl. repeat constructor; simpl; intuition discriminate.
  - reflexivity.
  - reflexivity.
  - reflexivity.
Defined.

(** ** One run of [run_duplicate_detection] *)

Lemma fetched_embeddings_defined (db : collection) :
  exists es, embeddings_of (fetch_articles_with_embeddings db) = Ok es.
Proof.
  unfold fetch_articles_with_embeddings, find.
  induction db as [|a db (es & IH)]; simpl; [now exists []|].
  unfold has_embedding at 1. destruct (embedding a) as [e|] eqn:E; simpl.
  - rewrite E, IH. simpl. now exists (e :: es).
  - now exists es.
Qed.

Lemma fit_predict_raises (M : list (list Q)) (t : Q) (e : error) :
  fit_predict M t = Raise e -> e = ValueError.
Proof.
  unfold fit_predict.
  destruct (List.length M <? 2)%nat; [now intros [= <-]|].
  destruct (negb _); [now intros [= <-] | discriminate].
Qed.

Lemma fit_predict_length (M : list (list Q)) (t : Q) (labels : list Z) :
  fit_predict M t = Ok labels -> List.length labels = List.length M.
Proof.
  unfold fit_predict.
  destruct (List.length M <? 2)%nat; [discriminate|].
  destruct (negb _); [discriminate|].
  intros [= <-]. unfold labels_of. now rewrite length_map, length_seq.
Qed.

Lemma perform_duplicate_clustering_length (articles : list article)
    (threshold : Q) (labels : list Z) :
  perform_duplicate_clustering articles threshold = Ok labels ->
  List.length labels = List.length articles.
Proof.
  unfold perform_duplicate_clustering.
  destruct (similarity_matrix articles) as [sim|] eqn:Hsim; simpl;
    [|discriminate].
  intros H. apply fit_predict_length in H. rewrite H.
  unfold distance_matrix_of. rewrite length_map.
  now apply similarity_matrix_length.
Qed.

(** X18: a run of [run_duplicate_detection] on a store with unique ids whose
    clustering succeeds: the run returns; no document is added, removed or
    moved; there is one label per fetched article, and the article at
    position [i] of the batch has its [duplicate_cluster_id] set to label [i]
    and no other field changed; an article without an embedding is not
    touched. *)
Theorem duplicate_detection_stores_the_labels (db : collection)
    (labels : list Z) :
  NoDup (map _id db) ->
  perform_duplicate_clustering (fetch_articles_with_embeddings db) (85 # 100)
    = Ok labels ->
  let run := run_duplicate_detection db in
  snd run = Ok tt /\
  map _id (fst run) = map _id db /\
  List.length labels = List.length (fetch_articles_with_embeddings db) /\
  (forall i a,
     nth_error (fetch_articles_with_embeddings db) i = Some a ->
     exists l, nth_error labels i = Some l /\
       find_one (_id a) (fst run) = Some (set_duplicate_cluster_id l a)) /\
  (forall a, In a db -> has_embedding a = false ->
     find_one (_id a) (fst run) = Some a).
Proof.
  intros Hnd Hlab run. subst run. unfold run_duplicate_detection.
  pose proof (perform_duplicate_clustering_length _ _ _ Hlab) as Hlen.
  destruct (fetch_articles_with_embeddings db) as [|a0 rest] eqn:Hfetch.
  - cbn in Hlab. discriminate.
  - rewrite Hlab. cbn [fst snd]. rewrite <- Hfetch in *.
    assert (Hbatch : NoDup (map _id (fetch_articles_with_embeddings db)))
      by (now apply filter_keeps_ids_unique).
    change (update_articles_with_clusters db
              (fetch_articles_with_embeddings db) labels)
      with (write_back set_duplicate_cluster_id db
              (fetch_articles_with_embeddings db) labels).
    split; [reflexivity|]. split; [|split; [exact Hlen|split]].
    + apply (write_back_ids set_duplicate_cluster_id). reflexivity.
    + intros i a Ha.
      destruct (nth_error labels i) as [l|] eqn:Hl.
      * exists l. split; [reflexivity|].
        apply (write_back_stored set_duplicate_cluster_id) with (i := i);
          try assumption; [reflexivity|].
        now apply (fetched_in_store db i).
      * apply nth_error_None in Hl.
        assert (i < List.length (fetch_articles_with_embeddings db))%nat
          by (apply nth_error_Some; congruence).
        lia.
    + intros a Ha Hemb.
      rewrite (write_back_other set_duplicate_cluster_id);
        [now apply find_one_in_nodup | reflexivity |].
      now apply fetched_not_unembedded.
Qed.

Lemma duplicate_detection_stores_the_labels_witness :
  let run := run_duplicate_detection DUMMY_ARTICLES in
  snd run = Ok tt /\
  map _id (fst run) = map _id DUMMY_ARTICLES /\
  List.length [1; 1; 0; 0; 1]
  = List.length (fetch_articles_with_embeddings DUMMY_ARTICLES) /\
  (forall i a,
     nth_error (fetch_articles_with_embeddings DUMMY_ARTICLES) i = Some a ->
     exists l, nth_error [1; 1; 0; 0; 1] i = Some l /\
       find_one (_id a) (fst run) = Some (set_duplicate_cluster_id l a)) /\
  (forall a, In a DUMMY_ARTICLES -> has_embedding a = false ->
     find_one (_id a) (fst run) = Some a).
Proof.
  apply (duplicate_detection_stores_the_labels DUMMY_ARTICLES [1; 1; 0; 0; 1]).
  - simpl. repeat constructor; simpl; intuition discriminate.
  - vm_compute. reflexivity.
Defined.

(** X19: [run_duplicate_detection] returns exactly when no article has an
    embedding, or at least two have one and all embeddings share one
    dimension of at least 1.  Otherwise (a single embedded article, ragged or
    empty embeddings) it raises [ValueError], never [KeyError], and the store
    is left as it was. *)
Theorem duplicate_detection_returns_iff (db : collection) :
  let articles := fetch_articles_with_embeddings db in
  (is_ok (snd (run_duplicate_detection db)) = true <->
   articles = [] \/
   ((2 <= List.length articles)%nat /\
    exists D, (1 <= D)%nat /\ embedded_in_dimension D articles)) /\
  (forall e, snd (run_duplicate_detection db) = Raise e ->
     e = ValueError /\ fst (run_duplicate_detection db) = db).
Proof.
  intros articles. subst articles. unfold run_duplicate_detection.
  destruct (fetched_embeddings_defined db) as (es & Hes).
  destruct (fetch_articles_with_embeddings db) as [|a0 rest] eqn:Hfetch.
  - split; [|discriminate]. split; [now left | reflexivity].
  - destruct (perform_duplicate_clustering (a0 :: rest) (85 # 100))
      as [labels|e] eqn:Hrun; cbn [fst snd is_ok].
    + split; [|discriminate]. split; [intros _ | reflexivity]. right.
      destruct (perform_duplicate_clustering_inv _ _ _ Hrun)
        as (es' & L & Hes' & HL & HL0 & Hn & _).
      rewrite <- (embeddings_of_length _ _ Hes'). split; [exact Hn|].
      exists L. split; [lia|]. now apply (embeddings_of_dimension _ es').
    + split.
      * split; [discriminate|]. intros [E|(Hn & D & HD & Hwf)]; [discriminate|].
        destruct (embeddings_of_well_formed D _ Hwf) as (es' & Hes' & Hdim).
        rewrite (perform_duplicate_clustering_defined _ _ es' D) in Hrun;
          [discriminate | assumption | assumption | lia |].
        now rewrite (embeddings_of_length _ _ Hes').
      * intros e' [= <-]. split; [|reflexivity].
        unfold perform_duplicate_clustering, similarity_matrix in Hrun.
        rewrite Hes in Hrun. cbn [bind] in Hrun.
        destruct (np_array es) as [X|e1] eqn:HX; cbn [bind] in Hrun.
        -- destruct (cosine_similarity X) as [M|e2] eqn:HM; cbn [bind] in Hrun.
           ++ now apply fit_predict_raises in Hrun.
           ++ injection Hrun as <-. now apply (cosine_similarity_raises X).
        -- injection Hrun as <-. now apply (np_array_raises es).
Qed.

(** ** The labels of duplicate clustering *)

Lemma agglomerate_valid (d : nat -> nat -> Q) (thr : Q) (fuel : nat)
    (cs : list cluster) :
  valid_state cs -> valid_state (agglomerate d thr fuel cs).
Proof.
  revert cs; induction fuel as [|fuel IH]; intros cs Hv; simpl; [exact Hv|].
  destruct (agglomerate_step d thr cs) as [cs2|] eqn:E; [|exact Hv].
  apply IH. now destruct (agglomerate_step_concat d thr cs cs2 Hv E).
Qed.

Lemma agglomerate_length_le (d : nat -> nat -> Q) (thr : Q) (fuel : nat)
    (cs : list cluster) :
  valid_state cs ->
  (List.length (agglomerate d thr fuel cs) <= List.length cs)%nat.
Proof.
  revert cs; induction fuel as [|fuel IH]; intros cs Hv; simpl; [lia|].
  destruct (agglomerate_step d thr cs) as [cs2|] eqn:E; [|lia].
  pose proof (agglomerate_step_length d thr cs cs2 Hv E).
  destruct (agglomerate_step_concat d thr cs cs2 Hv E) as (Hv2 & _).
  specialize (IH cs2 Hv2). lia.
Qed.

Lemma valid_state_length (cs : list cluster) :
  valid_state cs -> (List.length cs <= List.length (List.concat cs))%nat.
Proof.
  intros (_ & Hne). induction cs as [|X cs IH]; simpl; [lia|].
  inversion Hne as [|? ? HX Hcs]; subst. specialize (IH Hcs).
  rewrite length_app. destruct X; [congruence | simpl; lia].
Qed.

Lemma cluster_index_lt (cs : list cluster) (i : nat) :
  In i (List.concat cs) -> (cluster_index i cs < List.length cs)%nat.
Proof.
  induction cs as [|X cs IH]; simpl; [easy|].
  intros Hin. destruct (existsb (Nat.eqb i) X) eqn:E; [lia|].
  apply in_app_or in Hin. destruct Hin as [Hin|Hin].
  - apply existsb_eqb_In in Hin. congruence.
  - specialize (IH Hin). lia.
Qed.

Lemma cluster_index_member (cs : list cluster) (c i : nat) (X : cluster) :
  valid_state cs -> nth_error cs c = Some X -> In i X ->
  cluster_index i cs = c.
Proof.
  revert c; induction cs as [|Y cs IH]; intros c Hv Hc Hi;
    [destruct c; discriminate|].
  destruct c as [|c]; simpl in Hc |- *.
  - injection Hc as ->. apply existsb_eqb_In in Hi. now rewrite Hi.
  - destruct (existsb (Nat.eqb i) Y) eqn:E.
    + apply existsb_eqb_In in E. exfalso.
      assert (Y = X).
      { apply (valid_state_disjoint (Y :: cs) Y X i Hv);
          [now left | right; eapply nth_error_In; exact Hc | exact E | exact Hi]. }
      subst Y. destruct Hv as (Hnd & _). simpl in Hnd.
      apply (NoDup_app_disjoint X (List.concat cs) i Hnd Hi).
      apply in_concat. exists X. split; [|exact Hi].
      eapply nth_error_In; exact Hc.
    + f_equal. apply IH; [now apply valid_state_tail in Hv | exact Hc | exact Hi].
Qed.

Lemma cluster_index_nth (cs : list cluster) (i : nat) :
  In i (List.concat cs) ->
  exists X, nth_error cs (cluster_index i cs) = Some X /\ In i X.
Proof.
  induction cs as [|Y cs IH]; simpl; [easy|].
  intros Hin. destruct (existsb (Nat.eqb i) Y) eqn:E.
  - exists Y. split; [reflexivity | now apply existsb_eqb_In].
  - apply in_app_or in Hin. destruct Hin as [Hin|Hin].
    + apply existsb_eqb_In in Hin. congruence.
    + exact (IH Hin).
Qed.

Lemma fit_predict_inv (M : list (list Q)) (t : Q) (labels : list Z) :
  fit_predict M t = Ok labels ->
  (2 <= List.length M)%nat /\
  labels = labels_of (List.length M)
             (agglomerate (condensed M) t (List.length M)
                (singletons (List.length M))).
Proof.
  unfold fit_predict.
  destruct (Nat.ltb_spec (List.length M) 2); [discriminate|].
  destruct (negb _); [discriminate|]. intros [= <-]. now split.
Qed.

(** The final state of a run on [n] points: a partition of the positions
    [0 .. n-1] into at most [n] non-empty clusters. *)
Lemma final_state (d : nat -> nat -> Q) (t : Q) (n : nat) :
  let cs := agglomerate d t n (singletons n) in
  valid_state cs /\
  (forall i, In i (List.concat cs) <-> (i < n)%nat) /\
  (List.length cs <= n)%nat.
Proof.
  intros cs.
  assert (Hv : valid_state cs)
    by (apply agglomerate_valid, singletons_valid).
  assert (Hp : Permutation (List.concat cs) (seq 0 n)).
  { unfold cs. rewrite <- concat_singletons.
    apply agglomerate_concat, singletons_valid. }
  split; [exact Hv|]. split.
  - intros i. split; intros H.
    + apply (Permutation_in i Hp) in H. apply in_seq in H. lia.
    + apply (Permutation_in i (Permutation_sym Hp)). apply in_seq. lia.
  - pose proof (valid_state_length cs Hv) as Hle.
    rewrite (Permutation_length Hp), length_seq in Hle. exact Hle.
Qed.

(** X3: the labels of a successful duplicate clustering.  There is one label
    per article, and the labels are the numbers [0 .. k-1] of [k] clusters,
    every one of them in use, with [1 <= k <= n]. *)
Theorem duplicate_labels_number_the_clusters (articles : list article)
    (threshold : Q) (labels : list Z) :
  perform_duplicate_clustering articles threshold = Ok labels ->
  List.length labels = List.length articles /\
  exists k : nat,
    (1 <= k <= List.length articles)%nat /\
    Forall (fun l => 0 <= l < Z.of_nat k) labels /\
    (forall c, 0 <= c < Z.of_nat k -> In c labels).
Proof.
  intros H.
  pose proof (perform_duplicate_clustering_length _ _ _ H) as Hlen.
  split; [exact Hlen|].
  unfold perform_duplicate_clustering in H.
  destruct (similarity_matrix articles) as [sim|] eqn:Hsim; simpl in H;
    [|discriminate].
  apply fit_predict_inv in H. destruct H as (Hn & Hlab).
  set (M := distance_matrix_of sim) in *.
  assert (HM : List.length M = List.length articles).
  { unfold M, distance_matrix_of. rewrite length_map.
    now apply similarity_matrix_length. }
  rewrite HM in *. set (n := List.length articles) in *.
  destruct (final_state (condensed M) (1 - threshold)%Q n)
    as (Hv & Hin & Hk).
  set (cs := agglomerate (condensed M) (1 - threshold)%Q n (singletons n)) in *.
  exists (List.length cs). split; [|split].
  - split; [|exact Hk].
    assert (H0 : In 0%nat (List.concat cs)) by (apply Hin; lia).
    apply cluster_index_lt in H0. lia.
  - rewrite Hlab. unfold labels_of. apply Forall_forall. intros l Hl.
    apply in_map_iff in Hl. destruct Hl as (i & <- & Hi). apply in_seq in Hi.
    assert (Hi' : In i (List.concat cs)) by (apply Hin; lia).
    apply cluster_index_lt in Hi'. lia.
  - intros c Hc. rewrite Hlab. unfold labels_of.
    destruct (nth_error cs (Z.to_nat c)) as [X|] eqn:HX.
    + pose proof Hv as (Hnd & Hne).
      assert (HXin : In X cs) by (eapply nth_error_In; exact HX).
      rewrite Forall_forall in Hne. specialize (Hne X HXin).
      destruct X as [|i X]; [congruence|].
      assert (Hi : In i (List.concat cs)).
      { apply in_concat. exists (i :: X). split; [exact HXin | now left]. }
      apply in_map_iff. exists i. split.
      * rewrite (cluster_index_member cs (Z.to_nat c) i (i :: X));
          [lia | exact Hv | exact HX | now left].
      * apply in_seq. apply Hin in Hi. lia.
    + apply nth_error_None in HX. lia.
Qed.

Lemma duplicate_labels_number_the_clusters_witness :
  List.length [1; 1; 0; 0; 1] = List.length DUMMY_ARTICLES /\
  exists k : nat,
    (1 <= k <= List.length DUMMY_ARTICLES)%nat /\
    Forall (fun l => 0 <= l < Z.of_nat k) [1; 1; 0; 0; 1] /\
    (forall c, 0 <= c < Z.of_nat k -> In c [1; 1; 0; 0; 1]).
Proof.
  apply (duplicate_labels_number_the_clusters DUMMY_ARTICLES (85 # 100)%Q).
  vm_compute. reflexivity.
Defined.

Lemma condensed_sym (M : list (list Q)) (i j : nat) :
  condensed M i j = condensed M j i.
Proof.
  unfold condensed.
  destruct (Nat.ltb_spec i j), (Nat.ltb_spec j i); try reflexivity; try lia.
  assert (i = j) by lia. now subst.
Qed.

Lemma linkage_singletons (d : nat -> nat -> Q) (i j : nat) :
  (average_linkage d [i] [j] == d i j)%Q.
Proof. unfold average_linkage. simpl. field. Qed.

Lemma nth_map_in {A B : Type} (f : A -> B) (l : list A) (i : nat) (d : A)
    (d' : B) :
  (i < List.length l)%nat -> nth i (map f l) d' = f (nth i l d).
Proof.
  intros Hi. rewrite (nth_indep _ d' (f d)) by (now rewrite length_map).
  apply map_nth.
Qed.

Lemma distance_entry_of (sim : list (list Q)) (i j : nat) :
  (i < List.length sim)%nat -> (j < List.length (nth i sim []))%nat ->
  matrix_entry (distance_matrix_of sim) i j = (1 - matrix_entry sim i j)%Q.
Proof.
  intros Hi Hj. unfold matrix_entry, distance_matrix_of.
  rewrite (nth_map_in _ sim i [] []) by exact Hi.
  now rewrite (nth_map_in _ _ j 0%Q 0%Q) by exact Hj.
Qed.

Lemma NoDup_concat_member (cs : list cluster) (X : cluster) :
  NoDup (List.concat cs) -> In X cs -> NoDup X.
Proof.
  induction cs as [|Y cs IH]; simpl; [easy|].
  intros Hnd [->|HX].
  - now apply NoDup_app_remove_r in Hnd.
  - apply IH; [|exact HX]. now apply NoDup_app_remove_l in Hnd.
Qed.

(** The positions that carry the label of position [i] are the cluster of
    [i]. *)
Lemma members_cluster (cs : list cluster) (n i : nat) :
  valid_state cs -> (forall k, In k (List.concat cs) <-> (k < n)%nat) ->
  (i < n)%nat ->
  exists X, nth_error cs (cluster_index i cs) = Some X /\ In i X /\
    Permutation (members (labels_of n cs) (Z.of_nat (cluster_index i cs))) X.
Proof.
  intros Hv Hin Hi.
  destruct (cluster_index_nth cs i (proj2 (Hin i) Hi)) as (X & HX & HiX).
  exists X. split; [exact HX|]. split; [exact HiX|].
  assert (HXin : In X cs) by (eapply nth_error_In; exact HX).
  apply NoDup_Permutation.
  - unfold members. apply NoDup_filter. apply seq_NoDup.
  - apply (NoDup_concat_member cs); [apply Hv | exact HXin].
  - intros k. unfold members, labels_of at 2.
    rewrite length_map, length_seq, filter_In, in_seq. split.
    + intros (Hk & E). rewrite labels_of_nth in E by lia.
      apply Z.eqb_eq, Nat2Z.inj in E.
      destruct (cluster_index_nth cs k (proj2 (Hin k) ltac:(lia)))
        as (Y & HY & HkY).
      rewrite E, HX in HY. injection HY as <-. exact HkY.
    + intros Hk.
      assert (Hkn : (k < n)%nat).
      { apply Hin. apply in_concat. exists X. now split. }
      split; [lia|]. rewrite labels_of_nth by exact Hkn.
      apply Z.eqb_eq. f_equal.
      now apply (cluster_index_member cs _ k X).
Qed.

(** X20: what the labels of a successful duplicate clustering guarantee.
    Two different clusters, each read off the labels as the positions that
    carry one label, are never closer than the cut: the average cosine
    distance between their members is at least [1 - threshold]. *)
Theorem different_clusters_are_far_apart (articles : list article)
    (threshold : Q) (labels : list Z) (sim : list (list Q)) (c1 c2 : Z) :
  perform_duplicate_clustering articles threshold = Ok labels ->
  similarity_matrix articles = Ok sim ->
  In c1 labels -> In c2 labels -> c1 <> c2 ->
  (1 - threshold <=
   average_linkage (condensed (distance_matrix_of sim))
     (members labels c1) (members labels c2))%Q.
Proof.
  intros Hrun Hsim H1 H2 Hne.
  unfold perform_duplicate_clustering in Hrun. rewrite Hsim in Hrun.
  cbn [bind] in Hrun. apply fit_predict_inv in Hrun.
  destruct Hrun as (Hn & Hlab).
  set (M := distance_matrix_of sim) in *.
  set (n := List.length M) in *.
  set (d := condensed M) in *. set (t := (1 - threshold)%Q) in *.
  destruct (final_state d t n) as (Hv & Hin & _).
  pose proof (fit_predict_runs_to_the_end d t n) as Hend.
  set (cs := agglomerate d t n (singletons n)) in *.
  assert (Hlabel : forall c, In c labels ->
            exists i X, (i < n)%nat /\ c = Z.of_nat (cluster_index i cs) /\
              nth_error cs (cluster_index i cs) = Some X /\ In i X /\
              Permutation (members labels c) X).
  { intros c Hc. rewrite Hlab in Hc. unfold labels_of in Hc.
    apply in_map_iff in Hc. destruct Hc as (i & <- & Hi). apply in_seq in Hi.
    destruct (members_cluster cs n i Hv Hin) as (X & HX & HiX & Hp); [lia|].
    exists i, X. rewrite Hlab. repeat split; try assumption. lia. }
  destruct (Hlabel c1 H1) as (i1 & X1 & Hi1 & E1 & HX1 & HiX1 & Hp1).
  destruct (Hlabel c2 H2) as (i2 & X2 & Hi2 & E2 & HX2 & HiX2 & Hp2).
  rewrite (average_linkage_perm d _ X1 _ X2 Hp1 Hp2).
  assert (HXne : X1 <> X2).
  { intros ->. apply Hne. rewrite E1, E2. f_equal.
    rewrite (cluster_index_member cs (cluster_index i2 cs) i1 X2 Hv HX2 HiX1).
    reflexivity. }
  assert (HX1in : In X1 cs) by (eapply nth_error_In; exact HX1).
  assert (HX2in : In X2 cs) by (eapply nth_error_In; exact HX2).
  unfold agglomerate_step in Hend.
  destruct (closest_pair d (all_pairs cs)) as [p|] eqn:Hcp.
  - destruct (closest_pair_spec _ _ _ Hcp) as (_ & Hmin).
    destruct (Qle_bool t (linkage_of d p)) eqn:Hle; [|discriminate].
    apply Qle_bool_iff in Hle.
    destruct (all_pairs_complete cs X1 X2 HX1in HX2in HXne) as [Hq|Hq].
    + eapply Qle_trans; [exact Hle|]. exact (Hmin _ Hq).
    + rewrite (average_linkage_sym d X1 X2)
        by (intros; unfold d; now rewrite condensed_sym).
      eapply Qle_trans; [exact Hle|]. exact (Hmin _ Hq).
  - apply closest_pair_none in Hcp.
    destruct (all_pairs_complete cs X1 X2 HX1in HX2in HXne) as [Hq|Hq];
      rewrite Hcp in Hq; destruct Hq.
Qed.

Lemma different_clusters_are_far_apart_witness :
  (1 - (85 # 100) <=
   average_linkage
     (condensed
        (distance_matrix_of
           (gram (fun u v => Qred (dot (normalize_row u) (normalize_row v)))
                 [[1 # 10; 1 # 10; 1 # 10]; [1 # 10; 1 # 10; 1 # 10];
                  [9 # 10; 0; 0]; [9 # 10; 0; 0];
                  [2 # 10; 2 # 10; 2 # 10]])))
     (members [1; 1; 0; 0; 1]%Z 1%Z) (members [1; 1; 0; 0; 1]%Z 0%Z))%Q.
Proof.
  apply (different_clusters_are_far_apart DUMMY_ARTICLES (85 # 100)%Q
           [1; 1; 0; 0; 1]).
  - vm_compute. reflexivity.
  - vm_compute. reflexivity.
  - simpl. auto.
  - simpl. auto.
  - discriminate.
Defined.

Lemma singleton_pair_linkage (M : list (list Q)) (n : nat)
    (p : cluster * cluster) :
  In p (all_pairs (singletons n)) ->
  exists i j, (i < j < n)%nat /\
    (linkage_of (condensed M) p == matrix_entry M i j)%Q.
Proof.
  destruct p as (X, Y). intros Hp.
  pose proof (all_pairs_distinct _ X Y
                (valid_state_NoDup _ (singletons_valid n)) Hp) as Hne.
  apply in_all_pairs in Hp. destruct Hp as (HX & HY).
  apply in_singletons in HX. destruct HX as (a & Ha & ->).
  apply in_singletons in HY. destruct HY as (b & Hb & ->).
  assert (Hab : a <> b) by congruence.
  unfold linkage_of. cbn [fst snd].
  destruct (Nat.lt_ge_cases a b) as [Hlt|Hge].
  - exists a, b. split; [lia|]. rewrite linkage_singletons.
    unfold condensed. destruct (Nat.ltb_spec a b); [reflexivity | lia].
  - exists b, a. split; [lia|]. rewrite linkage_singletons.
    unfold condensed. destruct (Nat.ltb_spec a b); [lia | reflexivity].
Qed.

Lemma pair_of_singletons (M : list (list Q)) (n i j : nat) :
  (i < j < n)%nat ->
  exists p, In p (all_pairs (singletons n)) /\
    (linkage_of (condensed M) p == matrix_entry M i j)%Q.
Proof.
  intros Hij.
  assert (Hi : In [i] (singletons n)) by (apply in_singletons; exists i; split; [lia | reflexivity]).
  assert (Hj : In [j] (singletons n)) by (apply in_singletons; exists j; split; [lia | reflexivity]).
  assert (Hne : [i] <> [j]) by (intros [= E]; lia).
  destruct (all_pairs_complete _ _ _ Hi Hj Hne) as [Hp|Hp].
  - exists ([i], [j]). split; [exact Hp|].
    unfold linkage_of. cbn [fst snd]. rewrite linkage_singletons.
    unfold condensed. destruct (Nat.ltb_spec i j); [reflexivity | lia].
  - exists ([j], [i]). split; [exact Hp|].
    unfold linkage_of. cbn [fst snd]. rewrite linkage_singletons.
    unfold condensed. destruct (Nat.ltb_spec j i); [lia | reflexivity].
Qed.

Lemma agglomerate_after_step (d : nat -> nat -> Q) (t : Q) (n : nat)
    (cs cs1 : list cluster) :
  (1 <= n)%nat -> agglomerate_step d t cs = Some cs1 ->
  agglomerate d t n cs = agglomerate d t (pred n) cs1.
Proof. destruct n; [lia|]. simpl. now intros _ ->. Qed.

Lemma agglomerate_stuck (d : nat -> nat -> Q) (t : Q) (n : nat)
    (cs : list cluster) :
  agglomerate_step d t cs = None -> agglomerate d t n cs = cs.
Proof. destruct n; [reflexivity|]. simpl. now intros ->. Qed.

(** X21: when duplicates are reported.  A successful duplicate clustering
    gives every article a label of its own (no two articles share a cluster)
    exactly when no two articles of the batch have a cosine similarity above
    the threshold. *)
Theorem no_duplicates_iff_no_similar_pair (articles : list article)
    (threshold : Q) (labels : list Z) (sim : list (list Q)) :
  perform_duplicate_clustering articles threshold = Ok labels ->
  similarity_matrix articles = Ok sim ->
  (NoDup labels <->
   forall i j, (i < j < List.length articles)%nat ->
     (matrix_entry sim i j <= threshold)%Q).
Proof.
  intros Hrun Hsim.
  pose proof (similarity_matrix_length _ _ Hsim) as Hlen.
  assert (Hentry : forall i j, (i < j < List.length articles)%nat ->
            matrix_entry (distance_matrix_of sim) i j
            = (1 - matrix_entry sim i j)%Q).
  { intros i j Hij. apply distance_entry_of; [lia|].
    rewrite (similarity_matrix_row_length _ _ i Hsim); lia. }
  unfold perform_duplicate_clustering in Hrun. rewrite Hsim in Hrun.
  cbn [bind] in Hrun. apply fit_predict_inv in Hrun.
  destruct Hrun as (Hn & Hlab).
  set (M := distance_matrix_of sim) in *.
  assert (HM : List.length M = List.length articles).
  { unfold M, distance_matrix_of. now rewrite length_map. }
  rewrite HM in *. set (n := List.length articles) in *.
  set (d := condensed M) in *. set (t := (1 - threshold)%Q) in *.
  destruct (final_state d t n) as (Hv & Hin & _).
  split.
  - intros Hnd i j Hij.
    destruct (Qlt_le_dec threshold (matrix_entry sim i j)) as [Hlt|Hle];
      [exfalso | exact Hle].
    destruct (pair_of_singletons M n i j Hij) as (q & Hq & Eq).
    destruct (closest_pair d (all_pairs (singletons n))) as [p|] eqn:Hcp.
    2:{ apply closest_pair_none in Hcp. rewrite Hcp in Hq. destruct Hq. }
    destruct (closest_pair_spec _ _ _ Hcp) as (_ & Hmin).
    assert (Hstep : exists cs1,
              agglomerate_step d t (singletons n) = Some cs1).
    { unfold agglomerate_step. rewrite Hcp.
      destruct (Qle_bool t (linkage_of d p)) eqn:Hle; [|eauto].
      exfalso. apply Qle_bool_iff in Hle. specialize (Hmin q Hq).
      unfold d in Hmin at 2. rewrite Eq, (Hentry i j Hij) in Hmin.
      unfold t in Hle. lra. }
    destruct Hstep as (cs1 & Hstep).
    pose proof (agglomerate_step_length d t _ _ (singletons_valid n) Hstep)
      as Hl1.
    destruct (agglomerate_step_concat d t _ _ (singletons_valid n) Hstep)
      as (Hv1 & _).
    unfold singletons in Hl1. rewrite length_map, length_seq in Hl1.
    pose proof (agglomerate_length_le d t (pred n) cs1 Hv1) as Hle.
    rewrite <- (agglomerate_after_step d t n (singletons n) cs1) in Hle
      by (lia || exact Hstep).
    assert (Hincl : incl labels (map Z.of_nat (seq 0 (pred n)))).
    { rewrite Hlab. intros l Hl. unfold labels_of in Hl.
      apply in_map_iff in Hl. destruct Hl as (k & <- & Hk).
      apply in_seq in Hk. apply in_map. apply in_seq.
      assert (Hk' : In k (List.concat (agglomerate d t n (singletons n))))
        by (apply Hin; lia).
      apply cluster_index_lt in Hk'. lia. }
    pose proof (NoDup_incl_length Hnd Hincl) as Hcount.
    rewrite length_map, length_seq in Hcount.
    rewrite Hlab in Hcount. unfold labels_of in Hcount.
    rewrite length_map, length_seq in Hcount. lia.
  - intros Hall.
    assert (Hstep : agglomerate_step d t (singletons n) = None).
    { unfold agglomerate_step.
      destruct (closest_pair d (all_pairs (singletons n))) as [p|] eqn:Hcp;
        [|reflexivity].
      destruct (closest_pair_spec _ _ _ Hcp) as (Hp & _).
      destruct (singleton_pair_linkage M n p Hp) as (i & j & Hij & E).
      assert (Hle : Qle_bool t (linkage_of d p) = true).
      { apply Qle_bool_iff. unfold d. rewrite E, (Hentry i j Hij).
        specialize (Hall i j Hij). unfold t. lra. }
      now rewrite Hle. }
    rewrite Hlab, (agglomerate_stuck d t n _ Hstep). unfold labels_of.
    apply Injective_map_NoDup_in; [|apply seq_NoDup].
    intros a b Ha Hb E. apply Nat2Z.inj in E. apply in_seq in Ha, Hb.
    apply (cluster_index_same (singletons n)) in E;
      [| apply singletons_valid
       | rewrite concat_singletons; apply in_seq; lia
       | rewrite concat_singletons; apply in_seq; lia].
    destruct E as (X & HX & HaX & HbX).
    apply in_singletons in HX. destruct HX as (k & _ & ->).
    destruct HaX as [<-|[]], HbX as [<-|[]]. reflexivity.
Qed.

Lemma no_duplicates_iff_no_similar_pair_witness :
  NoDup [1; 1; 0; 0; 1] <->
  forall i j, (i < j < List.length DUMMY_ARTICLES)%nat ->
    (matrix_entry
       (gram (fun u v => Qred (dot (normalize_row u) (normalize_row v)))
             [[1 # 10; 1 # 10; 1 # 10]; [1 # 10; 1 # 10; 1 # 10];
              [9 # 10; 0; 0]; [9 # 10; 0; 0];
              [2 # 10; 2 # 10; 2 # 10]]%Q) i j <= 85 # 100)%Q.
Proof.
  apply (no_duplicates_iff_no_similar_pair DUMMY_ARTICLES (85 # 100)%Q
           [1; 1; 0; 0; 1]).
  - vm_compute. reflexivity.
  - vm_compute. reflexivity.
Defined.

(** ** Cluster ids are written by position *)

Lemma write_back_beyond (upd : Z -> article -> article)
    (articles : list article) (labels : list Z) (db : collection) (i : nat)
    (a : article) :
  (forall l b, _id (upd l b) = _id b) ->
  NoDup (map _id articles) ->
  nth_error articles i = Some a -> nth_error labels i = None ->
  find_one (_id a) (write_back upd db articles labels) = find_one (_id a) db.
Proof.
  intros Hupd. revert labels db i.
  induction articles as [|a1 rest IH]; intros labels db i Hnd Ha Hl;
    [destruct i; discriminate|].
  destruct labels as [|l1 ls]; [reflexivity|].
  destruct i as [|i]; simpl in Ha, Hl; [discriminate|].
  inversion Hnd as [|? ? Hni Hnd']; subst.
  change (write_back upd db (a1 :: rest) (l1 :: ls))
    with (write_back upd (update_one (_id a1) (upd l1) db) rest ls).
  rewrite (IH ls _ i Hnd' Ha Hl).
  apply find_one_update_one_other; [apply Hupd|].
  intros E. apply Hni. rewrite <- E. apply in_map.
  eapply nth_error_In; exact Ha.
Qed.

(** X22: [update_articles_with_clusters] on a batch with unique ids, for any
    store and any labels (the general form of the repository's test of it).
    The stored document with the id of the article at position [i] gets
    [duplicate_cluster_id = labels[i]]; its other fields stay as they are in
    the store, whatever the batch copy holds.  [zip] stops at the shorter
    list, so an article at a position beyond the labels is not written; nor
    is any document whose id is not in the batch; and no document is added,
    removed or moved. *)
Theorem cluster_ids_are_written_by_position (db : collection)
    (articles : list article) (labels : list Z) :
  NoDup (map _id articles) ->
  let db' := update_articles_with_clusters db articles labels in
  map _id db' = map _id db /\
  (forall i a a0 l,
     nth_error articles i = Some a -> nth_error labels i = Some l ->
     find_one (_id a) db = Some a0 ->
     find_one (_id a) db' = Some (set_duplicate_cluster_id l a0)) /\
  (forall i a,
     nth_error articles i = Some a -> nth_error labels i = None ->
     find_one (_id a) db' = find_one (_id a) db) /\
  (forall x, ~ In x (map _id articles) -> find_one x db' = find_one x db).
Proof.
  intros Hnd db'. subst db'.
  change (update_articles_with_clusters db articles labels)
    with (write_back set_duplicate_cluster_id db articles labels).
  split; [|split; [|split]].
  - apply write_back_ids. reflexivity.
  - intros i a a0 l Ha Hl Hdb.
    apply (write_back_stored set_duplicate_cluster_id) with (i := i);
      try assumption. reflexivity.
  - intros i a Ha Hl.
    apply (write_back_beyond set_duplicate_cluster_id) with (i := i);
      try assumption. reflexivity.
  - intros x Hx. apply write_back_other; [reflexivity | exact Hx].
Qed.

Lemma cluster_ids_are_written_by_position_witness :
  let db' := update_articles_with_clusters DUMMY_ARTICLES DUMMY_ARTICLES
               [0; 0; 1; 1] in
  map _id db' = map _id DUMMY_ARTICLES /\
  (forall i a a0 l,
     nth_error DUMMY_ARTICLES i = Some a ->
     nth_error [0; 0; 1; 1] i = Some l ->
     find_one (_id a) DUMMY_ARTICLES = Some a0 ->
     find_one (_id a) db' = Some (set_duplicate_cluster_id l a0)) /\
  (forall i a,
     nth_error DUMMY_ARTICLES i = Some a ->
     nth_error [0; 0; 1; 1] i = None ->
     find_one (_id a) db' = find_one (_id a) DUMMY_ARTICLES) /\
  (forall x, ~ In x (map _id DUMMY_ARTICLES) ->
     find_one x db' = find_one x DUMMY_ARTICLES).
Proof.
  apply (cluster_ids_are_written_by_position DUMMY_ARTICLES DUMMY_ARTICLES
           [0; 0; 1; 1]).
  simpl. repeat constructor; simpl; intuition discriminate.
Defined.

(** ** Labeling followed by the highlight loop *)

Lemma relabel_id (classifier : zero_shot_classifier) (a : article) :
  _id (relabel classifier a) = _id a.
Proof.
  unfold relabel. destruct (has_embedding a); [|reflexivity].
  destruct (classify_article classifier (classifier_input a)); reflexivity.
Qed.

Lemma labelled_store (classifier : zero_shot_classifier) (db : collection) :
  NoDup (map _id db) ->
  (forall a, In a db -> has_embedding a = true ->
     is_ok (classify_article classifier (classifier_input a)) = true) ->
  fst (zeroshot_topic_clustering classifier db)
  = map (relabel classifier) db.
Proof.
  intros Hnd Hok.
  unfold zeroshot_topic_clustering, fetch_articles_with_embeddings, find.
  destruct (classify_loop_prefix classifier db [] Hnd)
    as (S1 & S2 & E & Hfst & Hsnd).
  cbn [app] in Hfst, Hsnd. rewrite Hfst.
  destruct Hsnd as [(_ & ->)|(e & a & S2' & _ & -> & Hemb & Hcl)].
  - rewrite !app_nil_r in *. now subst.
  - assert (Ha : In a db) by (rewrite E; apply in_or_app; right; now left).
    specialize (Hok a Ha Hemb). rewrite Hcl in Hok. discriminate.
Qed.

Lemma best_label_is_a_candidate (classifier : zero_shot_classifier)
    (article_text topic : string) :
  (forall t ls, classifier t TOPIC_LABELS = Ok ls ->
     Permutation ls TOPIC_LABELS) ->
  classify_article classifier article_text = Ok topic ->
  In topic TOPIC_LABELS.
Proof.
  intros Hcontract Hcl. unfold classify_article in Hcl.
  destruct (classifier article_text TOPIC_LABELS) as [ls|] eqn:Hls;
    simpl in Hcl; [|discriminate].
  destruct ls as [|b ls']; [discriminate|]. injection Hcl as <-.
  apply (Permutation_in _ (Hcontract _ _ Hls)). now left.
Qed.

(** X23: labeling and the highlight loop fit together.  [run_highlight]
    loops over the very labels the classifier chooses from.  So when the
    classifier ranks the candidate labels it is given and answers for every
    embedded article of a store with unique ids, and the highlight loop run
    on the labelled store returns, every article that has an embedding ends
    with one of the eight topics and with an [is_featured] flag, true or
    false: none is left without a decision.  Ids and positions are kept. *)
Theorem labelled_articles_get_a_featured_flag
    (classifier : zero_shot_classifier) (clock : nat -> string)
    (db : collection) :
  NoDup (map _id db) ->
  (forall t ls, classifier t TOPIC_LABELS = Ok ls ->
     Permutation ls TOPIC_LABELS) ->
  (forall a, In a db -> has_embedding a = true ->
     is_ok (classify_article classifier (classifier_input a)) = true) ->
  let labelled := fst (zeroshot_topic_clustering classifier db) in
  snd (run_highlight clock labelled) = Ok tt ->
  Forall2 (fun a a' =>
             _id a' = _id a /\
             (has_embedding a = true ->
              (exists c, In c run_highlight_categories /\
                         predicted_topic a' = Some c) /\
              is_featured a' <> None))
          db (fst (run_highlight clock labelled)).
Proof.
  intros Hnd Hcontract Hok labelled. subst labelled.
  rewrite (labelled_store classifier db Hnd Hok). unfold run_highlight.
  intros Hrun.
  assert (Hnd1 : NoDup (map _id (map (relabel classifier) db))).
  { rewrite map_map. erewrite map_ext; [exact Hnd|].
    intros a. apply relabel_id. }
  assert (Hcs : NoDup run_highlight_categories)
    by (repeat constructor; simpl; intuition discriminate).
  destruct (run_highlights_invariant run_highlight_categories clock
              (map (relabel classifier) db) Hnd1 Hcs)
    as (G & HG & Hsame & Hkeep & Hflag & Hfst & _ & _).
  rewrite Hfst, map_map. apply Forall2_map_in. intros a Ha.
  destruct (Hsame (relabel classifier a)) as (Eid & _ & _ & _ & Etopic & _).
  split; [now rewrite Eid, relabel_id|].
  intros Hemb. specialize (Hok a Ha Hemb).
  destruct (classify_article classifier (classifier_input a)) as [t|] eqn:Hcl;
    [|discriminate].
  pose proof (best_label_is_a_candidate _ _ _ Hcontract Hcl) as Ht.
  assert (Hrel : relabel classifier a = set_predicted_topic t a)
    by (unfold relabel; now rewrite Hemb, Hcl).
  split.
  - exists t. split; [exact Ht|]. now rewrite Etopic, Hrel.
  - apply (Hflag Hrun (relabel classifier a) t Ht).
    rewrite Hrel. unfold in_category. cbn. apply String.eqb_refl.
Qed.

Lemma labelled_articles_get_a_featured_flag_witness :
  let labelled :=
    fst (zeroshot_topic_clustering reversing_classifier sample_store) in
  Forall2 (fun a a' =>
             _id a' = _id a /\
             (has_embedding a = true ->
              (exists c, In c run_highlight_categories /\
                         predicted_topic a' = Some c) /\
              is_featured a' <> None))
          sample_store (fst (run_highlight (fun _ => "t1") labelled)).
Proof.
  apply (labelled_articles_get_a_featured_flag reversing_classifier
           (fun _ => "t1") sample_store).
  - simpl. repeat constructor; simpl; intuition discriminate.
  - intros t ls [= <-]. apply Permutation_sym, Permutation_rev.
  - intros a [<-|[<-|[<-|[<-|[]]]]] _; vm_compute; reflexivity.
  - vm_compute. reflexivity.
Defined.

(** ** The selection, whatever order the sort leaves equal scores in *)

Lemma sorted_map {A B : Type} (R : A -> A -> Prop) (S : B -> B -> Prop)
    (f : A -> B) (l : list A) :
  (forall x y, R x y -> S (f x) (f y)) ->
  StronglySorted R l -> StronglySorted S (map f l).
Proof.
  intros H Hs. induction Hs as [|a l Hs IH Hall]; simpl; constructor;
    [exact IH|].
  rewrite Forall_forall in *. intros b Hb. apply in_map_iff in Hb.
  destruct Hb as (x & <- & Hx). apply H, Hall, Hx.
Qed.

Lemma model_argsort_admissible (v : list Z) : is_argsort v (argsort v).
Proof.
  split; [apply argsort_perm|].
  apply (sorted_map (sorts_before v)); [|apply argsort_prefix_sorted].
  intros x y [H|(H & _)]; lia.
Qed.

Lemma select_top_firstn (order : list nat) (top_k : Z) :
  0 < top_k -> select_top order top_k = firstn (Z.to_nat top_k) (rev order).
Proof.
  intros Hk. unfold select_top, slice_last.
  destruct (Z.ltb_spec 0 top_k) as [_|]; [|lia].
  rewrite firstn_rev. do 2 f_equal. lia.
Qed.

Lemma transpose_involutive (i j k : nat) :
  transpose i j (transpose i j k) = k.
Proof.
  unfold transpose.
  destruct (Nat.eqb_spec k i) as [->|Hi].
  - destruct (Nat.eqb_spec j i) as [->|_]; [reflexivity|].
    now rewrite Nat.eqb_refl.
  - destruct (Nat.eqb_spec k j) as [->|Hj].
    + now rewrite Nat.eqb_refl.
    + destruct (Nat.eqb_spec k i); [contradiction|].
      destruct (Nat.eqb_spec k j); [contradiction | reflexivity].
Qed.

Lemma transpose_bound (i j k n : nat) :
  (i < n)%nat -> (j < n)%nat -> (k < n)%nat -> (transpose i j k < n)%nat.
Proof.
  intros Hi Hj Hk. unfold transpose.
  destruct (Nat.eqb k i); [exact Hj|]. destruct (Nat.eqb k j); assumption.
Qed.

Lemma transpose_score (v : list Z) (i j k : nat) :
  score_at v i = score_at v j ->
  score_at v (transpose i j k) = score_at v k.
Proof.
  intros E. unfold transpose.
  destruct (Nat.eqb_spec k i) as [->|_]; [now symmetry|].
  destruct (Nat.eqb_spec k j) as [->|_]; [exact E | reflexivity].
Qed.

Lemma transpose_perm (i j n : nat) :
  (i < n)%nat -> (j < n)%nat ->
  Permutation (map (transpose i j) (seq 0 n)) (seq 0 n).
Proof.
  intros Hi Hj. apply NoDup_Permutation.
  - apply Injective_map_NoDup_in; [|apply seq_NoDup].
    intros x y _ _ E.
    rewrite <- (transpose_involutive i j x), E. apply transpose_involutive.
  - apply seq_NoDup.
  - intros x. rewrite in_map_iff, in_seq. split.
    + intros (k & <- & Hk). apply in_seq in Hk.
      split; [lia|]. apply transpose_bound; lia.
    + intros Hx. exists (transpose i j x).
      split; [apply transpose_involutive|].
      apply in_seq. split; [lia|]. apply transpose_bound; lia.
Qed.

(** Exchanging two positions of equal score in an admissible order gives an
    admissible order. *)
Lemma transposed_argsort (v : list Z) (order : list nat) (i j : nat) :
  (i < List.length v)%nat -> (j < List.length v)%nat ->
  score_at v i = score_at v j ->
  is_argsort v order -> is_argsort v (map (transpose i j) order).
Proof.
  intros Hi Hj E (Hp & Hs). split.
  - eapply Permutation_trans; [apply Permutation_map; exact Hp|].
    now apply transpose_perm.
  - rewrite map_map. erewrite map_ext; [exact Hs|].
    intros k. now apply transpose_score.
Qed.

Lemma listed_before_rev (l : list nat) (i j : nat) :
  listed_before l i j -> listed_before (rev l) j i.
Proof.
  intros (l1 & l2 & l3 & ->). exists (rev l3), (rev l2), (rev l1).
  rewrite rev_app_distr. simpl. rewrite rev_app_distr. simpl.
  now rewrite <- !app_assoc.
Qed.

Lemma listed_before_transposed (l : list nat) (i j : nat) :
  listed_before l i j -> listed_before (map (transpose i j) l) j i.
Proof.
  intros (l1 & l2 & l3 & ->).
  exists (map (transpose i j) l1), (map (transpose i j) l2),
         (map (transpose i j) l3).
  rewrite map_app. simpl. rewrite map_app. simpl.
  assert (Ei : transpose i j i = j)
    by (unfold transpose; now rewrite Nat.eqb_refl).
  assert (Ej : transpose i j j = i).
  { unfold transpose. destruct (Nat.eqb_spec j i) as [->|_]; [reflexivity|].
    now rewrite Nat.eqb_refl. }
  now rewrite Ei, Ej.
Qed.

(** The model's sort lists equal scores in input order. *)
Lemma model_argsort_lists_ties_in_input_order (v : list Z) (i j : nat) :
  (i < j < List.length v)%nat -> score_at v i = score_at v j ->
  listed_before (argsort v) i j.
Proof.
  intros Hij E.
  assert (Hi : In i (argsort v)).
  { apply (Permutation_in i (Permutation_sym (argsort_perm v))).
    apply in_seq. lia. }
  assert (Hj : In j (argsort v)).
  { apply (Permutation_in j (Permutation_sym (argsort_perm v))).
    apply in_seq. lia. }
  pose proof (argsort_prefix_sorted v (List.length v)) as Hs.
  change (argsort_prefix v (List.length v)) with (argsort v) in Hs.
  destruct (in_split i (argsort v) Hi) as (l1 & l2 & El).
  rewrite El in Hj, Hs. apply in_app_or in Hj.
  destruct Hj as [Hj|[Hj|Hj]].
  - exfalso.
    destruct (sorted_app_related _ _ _ j i Hs Hj (or_introl eq_refl))
      as [H|(_ & H)]; lia.
  - lia.
  - destruct (in_split j l2 Hj) as (m1 & m2 & ->).
    rewrite El. now exists l1, m1, m2.
Qed.

(** C4 (amended): the selection step ranks by composite score only.  For
    every index array that [np.argsort] may return for the scores (every
    position once, scores ascending) and every [top_k >= 1]: the selection is
    the first [top_k] entries of the reversed array; along the reversed array
    the scores never increase; it holds every position once.  The order of
    two articles with equal scores is not fixed by their input positions:
    the array of the model is admissible and leads to the later article
    first, the same array with the two positions exchanged is admissible and
    leads to the earlier article first. *)
Theorem selection_ranks_by_score_only (freq_scores : list Z)
    (order : list nat) (top_k : Z) :
  is_argsort freq_scores order -> 0 < top_k ->
  select_top order top_k = firstn (Z.to_nat top_k) (rev order) /\
  StronglySorted (fun a b => b <= a) (map (score_at freq_scores) (rev order)) /\
  Permutation (rev order) (seq 0 (List.length freq_scores)) /\
  (is_argsort freq_scores (argsort freq_scores) /\
   top_indices freq_scores top_k = select_top (argsort freq_scores) top_k) /\
  (forall i j, (i < j < List.length freq_scores)%nat ->
     score_at freq_scores i = score_at freq_scores j ->
     exists o1 o2,
       is_argsort freq_scores o1 /\ is_argsort freq_scores o2 /\
       listed_before (rev o1) j i /\ listed_before (rev o2) i j).
Proof.
  intros (Hp & Hs) Hk.
  split; [now apply select_top_firstn|].
  split; [rewrite map_rev; now apply (StronglySorted_rev Z.le)|].
  split; [now rewrite <- Permutation_rev|].
  split; [split; [apply model_argsort_admissible | reflexivity]|].
  intros i j Hij E.
  pose proof (model_argsort_lists_ties_in_input_order _ i j Hij E) as Hb.
  exists (argsort freq_scores), (map (transpose i j) (argsort freq_scores)).
  split; [apply model_argsort_admissible|].
  split; [apply transposed_argsort; [lia | lia | exact E |
                                     apply model_argsort_admissible]|].
  split; [now apply listed_before_rev|].
  apply listed_before_rev. now apply listed_before_transposed.
Qed.

Lemma selection_ranks_by_score_only_witness :
  select_top [2; 0; 3; 1]%nat 2 = firstn (Z.to_nat 2) (rev [2; 0; 3; 1]%nat) /\
  StronglySorted (fun a b => b <= a)
    (map (score_at [2; 7; 2; 3]) (rev [2; 0; 3; 1]%nat)) /\
  Permutation (rev [2; 0; 3; 1]%nat) (seq 0 (List.length [2; 7; 2; 3])) /\
  (is_argsort [2; 7; 2; 3] (argsort [2; 7; 2; 3]) /\
   top_indices [2; 7; 2; 3] 2 = select_top (argsort [2; 7; 2; 3]) 2) /\
  (forall i j, (i < j < List.length [2; 7; 2; 3])%nat ->
     score_at [2; 7; 2; 3] i = score_at [2; 7; 2; 3] j ->
     exists o1 o2,
       is_argsort [2; 7; 2; 3] o1 /\ is_argsort [2; 7; 2; 3] o2 /\
       listed_before (rev o1) j i /\ listed_before (rev o2) i j).
Proof.
  apply (selection_ranks_by_score_only [2; 7; 2; 3] [2; 0; 3; 1]%nat 2).
  - split.
    + apply NoDup_Permutation.
      * repeat constructor; simpl; intuition discriminate.
      * apply seq_NoDup.
      * intros x. simpl. intuition.
    + repeat constructor; vm_compute; discriminate.
  - lia.
Defined.

(** ** Articles without an embedding, on the stores the pipeline produces *)

(** A document is inserted with an embedding and without a topic, only the
    labeling stage writes [predicted_topic], and it labels embedded articles
    only: the stores of the pipeline satisfy [labelled_are_embedded]. *)

Lemma find_embedded_only (db : collection) (category : string) :
  labelled_are_embedded db ->
  find (in_category category) db
  = find (in_category category) (filter has_embedding db).
Proof.
  unfold labelled_are_embedded, find.
  induction db as [|a db IH]; intros Hinv; [reflexivity|].
  inversion Hinv as [|? ? Ha Hdb]; subst. specialize (IH Hdb). simpl.
  destruct (has_embedding a) eqn:He; simpl.
  - destruct (in_category category a); now rewrite IH.
  - assert (Hc : in_category category a = false).
    { unfold in_category. destruct (predicted_topic a); [|reflexivity].
      assert (false = true) by (apply Ha; discriminate). discriminate. }
    now rewrite Hc.
Qed.

Lemma fetch_embedded_only (db : collection) :
  fetch_articles_with_embeddings db
  = fetch_articles_with_embeddings (filter has_embedding db).
Proof.
  unfold fetch_articles_with_embeddings, find.
  induction db as [|a db IH]; [reflexivity|]. simpl.
  destruct (has_embedding a) eqn:He; simpl; rewrite ?He; now rewrite <- IH.
Qed.

Lemma embeddings_of_embedded (l : list article) :
  Forall (fun a => has_embedding a = true) l ->
  exists es, embeddings_of l = Ok es.
Proof.
  induction 1 as [|a l Ha _ (es & IH)]; simpl; [now exists []|].
  unfold has_embedding in Ha. destruct (embedding a) as [e|]; [|discriminate].
  rewrite IH. simpl. now exists (e :: es).
Qed.

Lemma category_is_embedded (db : collection) (category : string) :
  labelled_are_embedded db ->
  Forall (fun a => has_embedding a = true) (find (in_category category) db).
Proof.
  unfold labelled_are_embedded, find. rewrite !Forall_forall.
  intros Hinv a Ha. apply filter_In in Ha. destruct Ha as (Ha & Hc).
  apply (Hinv a Ha). unfold in_category in Hc.
  destruct (predicted_topic a); discriminate.
Qed.

Lemma classify_loop_outcome (classifier : zero_shot_classifier)
    (articles : list article) :
  forall db db' : collection,
  snd (classify_loop classifier articles db)
  = snd (classify_loop classifier articles db').
Proof.
  induction articles as [|a rest IH]; intros db db'; simpl; [reflexivity|].
  destruct (classify_article classifier (classifier_input a));
    [apply IH | reflexivity].
Qed.

Lemma update_featured_outcome (db : collection) (category : string)
    (top_k : Z) (now_str : string) :
  snd (update_featured_highlights db category top_k now_str)
  = result_map (fun _ => tt)
      (get_highlights db category top_k default_similarity_threshold).
Proof.
  unfold update_featured_highlights.
  change (update_many (in_category category) set_not_featured db)
    with (map (reset_in category) db).
  rewrite (get_highlights_map_preserving _ db category top_k _
             (reset_in_preserves category)).
  now destruct (get_highlights db category top_k default_similarity_threshold).
Qed.

Lemma update_one_keeps (P : article -> Prop) (i : string)
    (upd : article -> article) (c : collection) :
  (forall a, P a -> P (upd a)) -> Forall P c -> Forall P (update_one i upd c).
Proof.
  intros Hupd. induction 1 as [|a c Ha Hc IH]; simpl; [constructor|].
  destruct (String.eqb (_id a) i); constructor; auto.
Qed.

Lemma write_back_keeps (P : article -> Prop) (upd : Z -> article -> article)
    (articles : list article) :
  (forall l a, P a -> P (upd l a)) ->
  forall (labels : list Z) (db : collection),
  Forall P db -> Forall P (write_back upd db articles labels).
Proof.
  intros Hupd. unfold write_back.
  induction articles as [|a rest IH]; intros labels db Hdb; [exact Hdb|].
  destruct labels as [|l ls]; [exact Hdb|]. simpl.
  apply IH. apply update_one_keeps; [apply Hupd | exact Hdb].
Qed.

Lemma mark_featured_keeps (P : article -> Prop) (now_str : string)
    (ids : list string) :
  (forall a, P a -> P (set_featured now_str a)) ->
  forall c : collection, Forall P c -> Forall P (mark_featured now_str ids c).
Proof.
  intros Hupd. unfold mark_featured.
  induction ids as [|i ids IH]; intros c Hc; [exact Hc|]. simpl.
  apply IH. now apply update_one_keeps.
Qed.

Lemma labeling_keeps_invariant (classifier : zero_shot_classifier)
    (db : collection) :
  NoDup (map _id db) -> labelled_are_embedded db ->
  labelled_are_embedded (fst (zeroshot_topic_clustering classifier db)).
Proof.
  intros Hnd Hinv.
  unfold zeroshot_topic_clustering, fetch_articles_with_embeddings, find.
  destruct (classify_loop_prefix classifier db [] Hnd)
    as (S1 & S2 & E & Hfst & _).
  cbn [app] in Hfst. rewrite Hfst.
  unfold labelled_are_embedded in *. rewrite E in Hinv.
  apply Forall_app in Hinv. destruct Hinv as (H1 & H2).
  apply Forall_app. split; [|exact H2].
  apply Forall_forall. intros b Hb. apply in_map_iff in Hb.
  destruct Hb as (a & <- & Ha). apply relabel_keeps_embedded.
  rewrite Forall_forall in H1. now apply H1.
Qed.

(** C10: on a store of the pipeline, an article without an embedding is
    left out of every clustering and ranking stage, and no stage fails on its
    presence.  Such an article is in no batch: not in the batch the
    clustering and labeling stages fetch, and, having no topic, not in the
    articles of any category the ranker scores.  Reading the embeddings of
    either batch succeeds, so the ranker never raises [KeyError].  Every
    stage ends as it would on the store without the articles that have no
    embedding, [get_highlights] returning the very same articles.  And every
    stage leaves a store of the same kind behind. *)
Theorem articles_without_embedding_are_left_out
    (classifier : zero_shot_classifier) (clusterer : hdbscan_clusterer)
    (db : collection) (category : string) (top_k : Z) (thr : Q)
    (now_str : string) :
  labelled_are_embedded db ->
  let embedded_only := filter has_embedding db in
  (forall a, In a db -> embedding a = None ->
     ~ In a (fetch_articles_with_embeddings db) /\
     ~ In a (find (in_category category) db)) /\
  ((exists es, embeddings_of (fetch_articles_with_embeddings db) = Ok es) /\
   (exists es, embeddings_of (find (in_category category) db) = Ok es) /\
   get_highlights db category top_k thr <> Raise KeyError) /\
  (fetch_articles_with_embeddings db
   = fetch_articles_with_embeddings embedded_only /\
   find (in_category category) db
   = find (in_category category) embedded_only /\
   get_highlights db category top_k thr
   = get_highlights embedded_only category top_k thr /\
   snd (update_featured_highlights db category top_k now_str)
   = snd (update_featured_highlights embedded_only category top_k now_str) /\
   snd (run_duplicate_detection db)
   = snd (run_duplicate_detection embedded_only) /\
   snd (run_semantic_grouping clusterer db)
   = snd (run_semantic_grouping clusterer embedded_only) /\
   snd (zeroshot_topic_clustering classifier db)
   = snd (zeroshot_topic_clustering classifier embedded_only)) /\
  (labelled_are_embedded
     (fst (update_featured_highlights db category top_k now_str)) /\
   labelled_are_embedded (fst (run_duplicate_detection db)) /\
   labelled_are_embedded (fst (run_semantic_grouping clusterer db)) /\
   (NoDup (map _id db) ->
    labelled_are_embedded (fst (zeroshot_topic_clustering classifier db)))).
Proof.
  intros Hinv embedded_only. subst embedded_only.
  pose proof (fetch_embedded_only db) as Efetch.
  pose proof (find_embedded_only db category Hinv) as Efind.
  pose proof (category_is_embedded db category Hinv) as Hcat.
  assert (Eget : forall k t,
            get_highlights db category k t
            = get_highlights (filter has_embedding db) category k t).
  { intros k t. unfold get_highlights. now rewrite <- Efind. }
  assert (Hkeep : forall g : article -> article,
            (forall a, predicted_topic (g a) = predicted_topic a /\
                       has_embedding (g a) = has_embedding a) ->
            forall a, (predicted_topic a <> None -> has_embedding a = true) ->
                      predicted_topic (g a) <> None ->
                      has_embedding (g a) = true).
  { intros g Hg a Ha. destruct (Hg a) as (-> & ->). exact Ha. }
  split; [|split; [|split]].
  - intros a Ha He. split.
    + unfold fetch_articles_with_embeddings, find. intros Hin.
      apply filter_In in Hin. destruct Hin as (_ & Hin).
      unfold has_embedding in Hin. rewrite He in Hin. discriminate.
    + intros Hin. rewrite Forall_forall in Hcat. specialize (Hcat a Hin).
      unfold has_embedding in Hcat. rewrite He in Hcat. discriminate.
  - split; [apply fetched_embeddings_defined|].
    split; [now apply embeddings_of_embedded|].
    intros Hk. apply get_highlights_key_error in Hk.
    destruct Hk as (a & Ha & Hc & Hn).
    rewrite Forall_forall in Hcat.
    assert (Hin : In a (find (in_category category) db))
      by (apply filter_In; now split).
    specialize (Hcat a Hin). unfold has_embedding in Hcat.
    rewrite Hn in Hcat. discriminate.
  - split; [exact Efetch|]. split; [exact Efind|]. split; [apply Eget|].
    split; [now rewrite !update_featured_outcome, Eget|].
    split; [unfold run_duplicate_detection; rewrite <- Efetch;
            destruct (fetch_articles_with_embeddings db); [reflexivity|];
            now destruct (perform_duplicate_clustering _ _)|].
    split; [unfold run_semantic_grouping; rewrite <- Efetch;
            destruct (fetch_articles_with_embeddings db); [reflexivity|];
            now destruct (bind _ _)|].
    unfold zeroshot_topic_clustering. rewrite <- Efetch.
    apply classify_loop_outcome.
  - split; [|split; [|split]].
    + unfold update_featured_highlights.
      assert (Hreset : labelled_are_embedded
                (update_many (in_category category) set_not_featured db)).
      { unfold labelled_are_embedded, update_many in *.
        rewrite Forall_forall in *. intros b Hb. apply in_map_iff in Hb.
        destruct Hb as (a & <- & Ha). specialize (Hinv a Ha).
        destruct (in_category category a); exact Hinv. }
      destruct (get_highlights _ category top_k default_similarity_threshold)
        as [hs|e]; cbn [fst]; [|exact Hreset].
      apply mark_featured_keeps; [|exact Hreset]. intros a Ha. exact Ha.
    + unfold run_duplicate_detection.
      destruct (fetch_articles_with_embeddings db) as [|a0 rest];
        [exact Hinv|].
      destruct (perform_duplicate_clustering (a0 :: rest) (85 # 100))
        as [labels|e]; cbn [fst]; [|exact Hinv].
      apply (write_back_keeps _ set_duplicate_cluster_id); [|exact Hinv].
      intros l a Ha. exact Ha.
    + unfold run_semantic_grouping.
      destruct (fetch_articles_with_embeddings db) as [|a0 rest];
        [exact Hinv|].
      destruct (bind _ _) as [labels|e]; cbn [fst]; [|exact Hinv].
      apply (write_back_keeps _
               (fun l => set_topic_cluster_id (topic_cluster_of_label l)));
        [|exact Hinv].
      intros l a Ha. exact Ha.
    + intros Hnd. now apply labeling_keeps_invariant.
Qed.

Lemma articles_without_embedding_are_left_out_witness :
  let db := store_with_unembedded in
  let embedded_only := filter has_embedding db in
  (forall a, In a db -> embedding a = None ->
     ~ In a (fetch_articles_with_embeddings db) /\
     ~ In a (find (in_category "sports") db)) /\
  ((exists es, embeddings_of (fetch_articles_with_embeddings db) = Ok es) /\
   (exists es, embeddings_of (find (in_category "sports") db) = Ok es) /\
   get_highlights db "sports" 5 (9 # 10)%Q <> Raise KeyError) /\
  (fetch_articles_with_embeddings db
   = fetch_articles_with_embeddings embedded_only /\
   find (in_category "sports") db
   = find (in_category "sports") embedded_only /\
   get_highlights db "sports" 5 (9 # 10)%Q
   = get_highlights embedded_only "sports" 5 (9 # 10)%Q /\
   snd (update_featured_highlights db "sports" 5 "t1")
   = snd (update_featured_highlights embedded_only "sports" 5 "t1") /\
   snd (run_duplicate_detection db)
   = snd (run_duplicate_detection embedded_only) /\
   snd (run_semantic_grouping noise_clusterer db)
   = snd (run_semantic_grouping noise_clusterer embedded_only) /\
   snd (zeroshot_topic_clustering flaky_classifier db)
   = snd (zeroshot_topic_clustering flaky_classifier embedded_only)) /\
  (labelled_are_embedded (fst (update_featured_highlights db "sports" 5 "t1")) /\
   labelled_are_embedded (fst (run_duplicate_detection db)) /\
   labelled_are_embedded (fst (run_semantic_grouping noise_clusterer db)) /\
   (NoDup (map _id db) ->
    labelled_are_embedded (fst (zeroshot_topic_clustering flaky_classifier db)))).
Proof.
  apply (articles_without_embedding_are_left_out flaky_classifier
           noise_clusterer store_with_unembedded "sports" 5 (9 # 10)%Q "t1").
  repeat constructor; simpl; congruence.
Defined.
